(** * LSB steganography robustness harness: a shallow embedding

    The development follows the JavaScript sources:
    - [models/lsb_steganography.js]: the bit codec, the LSB embedder and
      the strict / error-tolerant extractor;
    - [experiments/transforms.js]: the transform library and its dispatcher;
    - [experiments/runner.js]: the per-sample robustness loop;
    - [experiments/metrics.js]: PSNR and the global SSIM approximation.

    Conventions.  A JavaScript string is the list of its UTF-16 code units
    (integers of [Z]).  A raw pixel buffer is a list of bytes, read with
    stdpp's lookup (an index past the end gives JavaScript's [undefined])
    and written with stdpp's insert (a typed array ignores a write past its
    end).  The image codec (the sharp library) is not part of the
    repository: it is an interface, [Sharp], and the two properties the
    repository relies on are stated separately in [SharpLaws].

    Numbers.  Lengths, indices and byte values are integers.  The numbers
    the sources only add, multiply, divide and compare (ratios, scores) are
    rationals of [Q]; a division by zero, which gives NaN in JavaScript, is
    written out where the code can reach it.  The branches taken are those
    of the double-precision code: every ratio compared is a quotient of two
    integers of at most 10000, so it differs from the thresholds 0.5, 0.7
    and 0.9, and from any other such quotient, by far more than a rounding
    error unless it is equal to them, and equal quotients round alike.  The
    values themselves are the exact ones, not their roundings. *)

From Stdlib Require Import ZArith QArith Qround Lqa List Lia Bool String.
From stdpp Require Import list.
Import ListNotations.
Local Open Scope Z_scope.

(** ** JavaScript primitives used by the sources *)

Module JS.

(** A string, as the sequence of its UTF-16 code units. *)
Abbreviation jsstring := (list Z) (only parsing).

(** ECMAScript LineTerminator: LF, CR, LS, PS. *)
Definition isLineTerminator (c : Z) : bool :=
  (c =? 10) || (c =? 13) || (c =? 8232) || (c =? 8233).

(** ECMAScript StrWhiteSpaceChar: WhiteSpace (TAB, VT, FF, SP, NBSP,
    ZWNBSP and the Zs category) or LineTerminator. *)
Definition isWhiteSpace (c : Z) : bool :=
  (c =? 9) || (c =? 11) || (c =? 12) || (c =? 32) || (c =? 160)
  || (c =? 5760) || ((8192 <=? c) && (c <=? 8202)) || (c =? 8239)
  || (c =? 8287) || (c =? 12288) || (c =? 65279) || isLineTerminator c.

(** Value of a digit character in the largest radix, 36. *)
Definition digitValue (c : Z) : option Z :=
  if (48 <=? c) && (c <=? 57) then Some (c - 48)
  else if (97 <=? c) && (c <=? 122) then Some (c - 87)
  else if (65 <=? c) && (c <=? 90) then Some (c - 55)
  else None.

(** The digit character of a value below 36, lower case as
    [Number.prototype.toString] prints it. *)
Definition digitChar (d : Z) : Z := if d <? 10 then 48 + d else 87 + d.

Fixpoint trimStart (s : jsstring) : jsstring :=
  match s with
  | [] => []
  | c :: t => if isWhiteSpace c then trimStart t else s
  end.

(** Values of the longest prefix of [s] made of digits of radix [R]. *)
Fixpoint radixDigits (R : Z) (s : jsstring) : list Z :=
  match s with
  | [] => []
  | c :: t =>
      match digitValue c with
      | Some d => if d <? R then d :: radixDigits R t else []
      | None => []
      end
  end.

Definition digitsValue (R : Z) (ds : list Z) : Z :=
  fold_left (fun acc d => acc * R + d) ds 0.

(** [parseInt(string, radix)]; [radix = None] is a call with one argument.
    [None] as a result is NaN.  The result is the exact integer: a double
    holds it exactly below 2^53, and the sources compare larger values
    only against 10000. *)
Definition parseInt (s : jsstring) (radix : option Z) : option Z :=
  let s1 := trimStart s in
  let '(sign, s2) :=
    match s1 with
    | c :: t =>
        if c =? 45 then (-1, t) else if c =? 43 then (1, t) else (1, s1)
    | [] => (1, s1)
    end in
  let R0 := match radix with Some r => r | None => 0 end in
  if negb (R0 =? 0) && ((R0 <? 2) || (36 <? R0)) then None
  else
    let stripPrefix := (R0 =? 0) || (R0 =? 16) in
    let R1 := if R0 =? 0 then 10 else R0 in
    let '(R, s3) :=
      match s2 with
      | c0 :: c1 :: t =>
          if stripPrefix && (c0 =? 48) && ((c1 =? 120) || (c1 =? 88))
          then (16, t) else (R1, s2)
      | _ => (R1, s2)
      end in
    match radixDigits R s3 with
    | [] => None
    | ds => Some (sign * digitsValue R ds)
    end.

(** [x | 0] on a [parseInt] result: NaN becomes 0. *)
Definition toInt (n : option Z) : Z :=
  match n with Some v => v | None => 0 end.

(** [String.fromCharCode(n)]: ToUint16, NaN gives the NUL character. *)
Definition fromCharCode (n : option Z) : Z :=
  match n with Some v => v mod 65536 | None => 0 end.

(** Digits of [n], least significant first; [fuel] bounds their number. *)
Fixpoint digitsRev (fuel : nat) (R n : Z) : jsstring :=
  match fuel with
  | O => []
  | S f =>
      digitChar (n mod R)
        :: (if n / R =? 0 then [] else digitsRev f R (n / R))
  end.

(** [n.toString(R)] for a non-negative integer [n] (a length or a code
    unit); a number has at most [log2 n + 1] digits in any radix. *)
Definition toString (n R : Z) : jsstring :=
  rev (digitsRev (S (Z.to_nat (Z.log2 n))) R n).

(** [s.padStart(target, pad)] for a one-character [pad]. *)
Definition padStart (target : nat) (pad : Z) (s : jsstring) : jsstring :=
  repeat pad (target - length s) ++ s.

(** Longest prefix of at most [k] characters that [.] matches, and the
    rest. *)
Fixpoint takeDots (k : nat) (s : jsstring) : jsstring * jsstring :=
  match k, s with
  | S k', c :: t =>
      if isLineTerminator c then ([], s)
      else let '(m, r) := takeDots k' t in (c :: m, r)
  | _, _ => ([], s)
  end.

Fixpoint matchDotLoop (fuel : nat) (s : jsstring) : list jsstring :=
  match fuel with
  | O => []
  | S f =>
      match s with
      | [] => []
      | _ :: t =>
          match takeDots 8 s with
          | ([], _) => matchDotLoop f t
          | (m, r) => m :: matchDotLoop f r
          end
      end
  end.

(** [s.match(/.{1,8}/g) || []]: the successive greedy matches. *)
Definition matchDot1to8 (s : jsstring) : list jsstring :=
  matchDotLoop (length s) s.

(** The character class [[ -~]]: printable ASCII. *)
Definition isPrintable (c : Z) : bool := (32 <=? c) && (c <=? 126).

(** [(s.match(/[ -~]/g) || []).length]. *)
Definition countPrintable (s : jsstring) : nat :=
  length (List.filter isPrintable s).

End JS.

(** ** models/lsb_steganography.js: the bit codec *)

Module Codec.
Import JS.

Definition stringToBinary (str : jsstring) : jsstring :=
  concat (map (fun char => padStart 8 48 (toString char 2)) str).

Definition binaryToString (binary : jsstring) : jsstring :=
  map (fun bin => fromCharCode (parseInt bin (Some 2))) (matchDot1to8 binary).

End Codec.


(** ** Errors and the error monad *)

(** What the sources throw.  The first seven are the repository's own
    [new Error(...)]; [External] is an error raised by a collaborator
    (the image codec, the file system). *)
Inductive error : Type :=
| MessageTooLong (maxChars got : Z)
    (* `Message too long! Max ${maxChars} chars, got ${got}` *)
| InvalidLength
    (* 'Invalid message length detected - no message hidden or corrupted data' *)
| JpegQualityRange    (* 'JPEG quality must be between 1 and 100' *)
| NoiseSigmaRange     (* 'Sigma must be between 0 and 1' *)
| BlurSigmaRange      (* 'Sigma must be between 0.3 and 1000' *)
| CropRatioRange      (* 'Crop ratio must be between 0 and 1' *)
| External (msg : string).

Inductive result (A : Type) : Type :=
| Ok (a : A)
| Throw (e : error).
Arguments Ok {A} a.
Arguments Throw {A} e.

Definition bind {A B : Type} (r : result A) (k : A -> result B) : result B :=
  match r with
  | Ok a => k a
  | Throw e => Throw e
  end.

Declare Scope result_scope.
Delimit Scope result_scope with result.
Notation "'let*' x ':=' r 'in' k" := (bind r (fun x => k))
  (at level 10, x pattern, r at level 100, k at level 200) : result_scope.
Local Open Scope result_scope.

(** ** The image codec *)

Record info : Type := { width : Z; height : Z; channels : Z }.

(** The operations of the sharp library the repository calls, on encoded
    image buffers of type [buffer].  Each may throw. *)
Class Sharp (buffer : Type) : Type := {
  (* buffer.length *)
  byteLength : buffer -> Z;
  (* sharp(b).metadata() *)
  metadata : buffer -> result info;
  (* sharp(b).raw().toBuffer({ resolveWithObject: true }) *)
  raw : buffer -> result (list Z * info);
  (* sharp(b).ensureAlpha().raw().toBuffer({ resolveWithObject: true }) *)
  ensureAlphaRaw : buffer -> result (list Z * info);
  (* sharp(data, { raw: info }).png().toBuffer() *)
  pngFromRaw : list Z -> info -> result buffer;
  (* sharp(b).jpeg({ quality, force: true }).toBuffer() *)
  jpeg : buffer -> Q -> result buffer;
  (* sharp(b).resize(w, h, { fit: 'fill', kernel: 'lanczos3' }).toBuffer();
     an absent dimension is JavaScript's undefined or null *)
  resize : buffer -> option Q -> option Q -> result buffer;
  (* sharp(b).blur(sigma).toBuffer() *)
  blur : buffer -> Q -> result buffer;
  (* sharp(b).rotate(angle, { background: white }).toBuffer() *)
  rotate : buffer -> Q -> result buffer;
  (* sharp(b).extract({ left, top, width, height }).toBuffer() *)
  extractRegion : buffer -> Z -> Z -> Z -> Z -> result buffer
}.

(** What the repository expects of the codec: PNG is lossless (the raw
    bytes written come back, with the same geometry, when the size is that
    of a decoded image), and a buffer that decodes has metadata. *)
Class SharpLaws (buffer : Type) `{Sharp buffer} : Prop := {
  png_lossless :
    forall (b : buffer) (data0 data : list Z) (i : info),
      ensureAlphaRaw b = Ok (data0, i) ->
      length data = length data0 ->
      exists png, pngFromRaw data i = Ok png
                  /\ ensureAlphaRaw png = Ok (data, i);
  decodable_metadata :
    forall (b : buffer) (data : list Z) (i : info),
      ensureAlphaRaw b = Ok (data, i) -> exists m, metadata b = Ok m
}.

(** ** models/lsb_steganography.js: embedding and extraction *)

Module Lsb.
Import JS Codec.

(** [o & m] for a byte read that may be [undefined]. *)
Definition andByte (o : option Z) (m : Z) : Z :=
  Z.land (default 0 o) m.

(** Storing into a [Buffer] keeps the low eight bits. *)
Definition toUint8 (v : Z) : Z := v mod 256.

(** [(data[i] & 1).toString()] *)
Definition lsbChar (data : list Z) (i : nat) : Z :=
  48 + andByte (data !! i) 1.

(** [parseInt(messageBinary[i])] *)
Definition bitAt (messageBinary : jsstring) (i : nat) : Z :=
  match messageBinary !! i with
  | Some c => toInt (parseInt [c] None)
  | None => 0
  end.

(** One iteration of the embedding loop:
    [modifiedData[i] = (modifiedData[i] & 0xFE) | parseInt(messageBinary[i])] *)
Definition embedStep (messageBinary : jsstring) (modifiedData : list Z)
    (i : nat) : list Z :=
  <[ i := toUint8 (Z.lor (andByte (modifiedData !! i) 254)
                         (bitAt messageBinary i)) ]> modifiedData.

Definition embedLoop (messageBinary : jsstring) (modifiedData : list Z)
    : list Z :=
  fold_left (embedStep messageBinary) (seq 0 (length messageBinary))
    modifiedData.

(** [message.length.toString().padStart(16, '0')] *)
Definition lengthPrefix (message : jsstring) : jsstring :=
  padStart 16 48 (toString (Z.of_nat (length message)) 10).

(** The part of [embedMessage] between decoding and re-encoding.  The
    first component is the content of the decoded cover [data] when the
    function returns: the loop writes to the copy [Buffer.from(data)]. *)
Definition embedBits (data : list Z) (message : jsstring)
    : list Z * result (list Z * jsstring) :=
  let messageLength := lengthPrefix message in
  let messageBinary := stringToBinary (messageLength ++ message) in
  let maxBits := Z.of_nat (length data) in
  if maxBits <? Z.of_nat (length messageBinary) then
    (data, Throw (MessageTooLong (maxBits / 8) (Z.of_nat (length message))))
  else
    let modifiedData := data in
    (data, Ok (embedLoop messageBinary modifiedData, messageBinary)).

Record embedMetadata : Type := {
  originalSize : Z;
  stegoSize : Z;
  em_messageLength : Z;
  bitsUsed : Z;
  capacity : Z
}.

(** What [extractMessage] returns, without the [metadata] object (the
    message length again, the number of bits read and the encoded size). *)
Record extraction : Type := {
  message : jsstring;
  recoveryScore : Q;
  bitsRecovered : Z;
  wasCorrupted : bool
}.

(** [a < b] and [a >= b] on numbers. *)
Definition Qltb (a b : Q) : bool := negb (Qle_bool b a).
Definition Qgeb (a b : Q) : bool := Qle_bool b a.

Definition ofNat (n : nat) : Q := inject_Z (Z.of_nat n).

(** [Math.min(a, b)] and [Math.max(a, b)] on numbers. *)
Definition mathMin (a b : Q) : Q := if Qle_bool a b then a else b.
Definition mathMax (a b : Q) : Q := if Qle_bool a b then b else a.

(** Inner loop of [attemptLengthRecovery]:
    [for (bitIdx = 0; bitIdx < 8 && (128 + charIdx*8 + bitIdx) < data.length; bitIdx++)] *)
Fixpoint recoveryBits (data : list Z) (charIdx : nat) (todo bitIdx : nat)
    : jsstring :=
  match todo with
  | O => []
  | S todo' =>
      if (128 + charIdx * 8 + bitIdx <? length data)%nat then
        lsbChar data (128 + charIdx * 8 + bitIdx)
          :: recoveryBits data charIdx todo' (S bitIdx)
      else []
  end.

Definition isPrintableCode (charCode : option Z) : bool :=
  match charCode with
  | Some c => (32 <=? c) && (c <=? 126)
  | None => false
  end.

(** Middle loop of [attemptLengthRecovery]:
    [for (charIdx = 0; charIdx < testLength && (128 + charIdx*8 + 8) <= data.length; charIdx++)] *)
Fixpoint recoveryCount (data : list Z) (todo charIdx printableCount : nat)
    : nat :=
  match todo with
  | O => printableCount
  | S todo' =>
      if (128 + charIdx * 8 + 8 <=? length data)%nat then
        let char8bits := recoveryBits data charIdx 8 0 in
        let printableCount' :=
          if (length char8bits =? 8)%nat then
            if isPrintableCode (parseInt char8bits (Some 2))
            then S printableCount else printableCount
          else printableCount in
        recoveryCount data todo' (S charIdx) printableCount'
      else printableCount
  end.

Definition lengthRecoveryStep (data : list Z) (best : Z * Q)
    (testLength : nat) : Z * Q :=
  let '(bestLength, bestScore) := best in
  let printableCount := recoveryCount data testLength 0 0 in
  let score :=
    if (0 <? testLength)%nat then (ofNat printableCount / ofNat testLength)%Q
    else 0%Q in
  if Qltb bestScore score then (Z.of_nat testLength, score)
  else (bestLength, bestScore).

Definition attemptLengthRecovery (data : list Z) : Z :=
  fst (fold_left (lengthRecoveryStep data) (seq 1 100) (10, (-1)%Q)).

(** [expected[j] !== char8bits[j]] for [j] from 0 to 7, counted. *)
Definition hammingDistance (expected char8bits : jsstring) : Z :=
  fold_left
    (fun distance j =>
       if decide (expected !! j = char8bits !! j) then distance
       else distance + 1)
    (seq 0 8) 0.

(** Body of the search loop [for (code = 32; code <= 126; code++)]. *)
Definition closestStep (char8bits : jsstring) (best : jsstring * Z)
    (code : nat) : jsstring * Z :=
  let '(bestMatch, bestDistance) := best in
  let expected := padStart 8 48 (toString (Z.of_nat code) 2) in
  let distance := hammingDistance expected char8bits in
  if distance <? bestDistance
  then ([fromCharCode (Some (Z.of_nat code))], distance)
  else (bestMatch, bestDistance).

(** Body of the loop [for (i = 0; i < messageBinary.length; i += 8)]. *)
Definition messageRecoveryStep (messageBinary : jsstring)
    (recovered : jsstring) (i : nat) : jsstring :=
  let char8bits := take 8 (drop i messageBinary) in
  if (length char8bits =? 8)%nat then
    let charCode := parseInt char8bits (Some 2) in
    if isPrintableCode charCode then recovered ++ [fromCharCode charCode]
    else
      let '(bestMatch, bestDistance) :=
        fold_left (closestStep char8bits) (seq 32 95) ([], 8) in
      if bestDistance <=? 3 then recovered ++ bestMatch
      else if (length recovered =? 0)%nat then recovered ++ bestMatch
      else recovered
  else recovered.

Definition attemptMessageRecovery (messageBinary : jsstring) : jsstring :=
  fold_left (messageRecoveryStep messageBinary)
    (map (fun k => (8 * k)%nat) (seq 0 (Nat.div (length messageBinary + 7) 8)))
    [].

(** [printableCount / message.length] *)
Definition printableRatio (message : jsstring) : Q :=
  (ofNat (countPrintable message) / ofNat (length message))%Q.

(** The recovery score of tolerant mode, from the final [message]. *)
Definition recoveryAssessment (message : jsstring) : Q :=
  let printableScore :=
    if (0 <? length message)%nat then printableRatio message else 0%Q in
  if Qgeb printableScore (9 # 10) then
    mathMin 1 (ofNat (length message) / ofNat (Nat.max (length message) 30))
  else if Qgeb printableScore (5 # 10) then
    let lengthScore := (ofNat (length message) / 30)%Q in
    (printableScore * (6 # 10) + lengthScore * (4 # 10))%Q
  else (printableScore * (3 # 10))%Q.

(** The length prefix as read: [parseInt(binaryToString(lengthBinary))],
    valid when it is a number in (0, 10000]. *)
Definition readLength (data : list Z) : option Z :=
  let lengthBinary := map (lsbChar data) (seq 0 128) in
  let lengthStr := binaryToString lengthBinary in
  match parseInt lengthStr None with
  | Some messageLength =>
      if (messageLength <=? 0) || (10000 <? messageLength) then None
      else Some messageLength
  | None => None
  end.

(** [extractMessage] after decoding: everything it computes from the raw
    bytes [data].  The two [try] blocks guard [binaryToString], which does
    not throw on a string: the first [catch] is reached only through its
    own [throw] for an invalid length, the second never. *)
Definition extractBits (data : list Z) (tolerance : bool)
    : result extraction :=
  let* messageLength :=
    match readLength data with
    | Some n => Ok n
    | None =>
        if tolerance then Ok (attemptLengthRecovery data)
        else Throw InvalidLength
    end in
  let messageBitsNeeded := messageLength * 8 in
  let messageBinary :=
    map (lsbChar data) (seq 128 (Z.to_nat messageBitsNeeded)) in
  let bitsRecovered := Z.of_nat (length messageBinary) in
  let message := binaryToString messageBinary in
  let wasCorrupted := false in
  let '(message, wasCorrupted) :=
    if negb wasCorrupted && tolerance && (0 <? length message)%nat then
      if Qltb (printableRatio message) (7 # 10) then
        let recovered := attemptMessageRecovery messageBinary in
        if (0 <? length recovered)%nat then (recovered, true)
        else (message, true)
      else (message, wasCorrupted)
    else (message, wasCorrupted) in
  let recoveryScore :=
    if tolerance then recoveryAssessment message else 1%Q in
  Ok {| message := message;
        recoveryScore := recoveryScore;
        bitsRecovered := bitsRecovered;
        wasCorrupted := wasCorrupted |}.

Section WithCodec.
Context {buffer : Type} `{Sharp buffer}.

Definition embedMessage (imageBuffer : buffer) (message : jsstring)
    : result (buffer * embedMetadata) :=
  let* _ := metadata imageBuffer in
  let* (data, info) := ensureAlphaRaw imageBuffer in
  let* (modifiedData, messageBinary) := snd (embedBits data message) in
  let* stegoImage := pngFromRaw modifiedData info in
  Ok (stegoImage,
      {| originalSize := byteLength imageBuffer;
         stegoSize := byteLength stegoImage;
         em_messageLength := Z.of_nat (length message);
         bitsUsed := Z.of_nat (length messageBinary);
         capacity := Z.of_nat (length data) |}).

Definition extractMessage (stegoImageBuffer : buffer) (tolerance : bool)
    : result extraction :=
  let* (data, _) := ensureAlphaRaw stegoImageBuffer in
  extractBits data tolerance.

(** [calculateCapacity]: [maxChars] is all the dry run reads of it. *)
Definition calculateCapacity (imageBuffer : buffer) : result Z :=
  let* _ := metadata imageBuffer in
  let* (data, _) := raw imageBuffer in
  let maxBits := Z.of_nat (length data) in
  Ok ((maxBits - 128) / 8).

End WithCodec.

End Lsb.

(** ** experiments/transforms.js *)

(** The sources of randomness.  [random k] is the value of the [k]-th call
    of [Math.random()], in [0, 1); [boxMuller u1 u2] stands for
    [Math.sqrt(-2 * Math.log(u1)) * Math.cos(2 * Math.PI * u2)].  A function
    that draws takes the number of calls made so far and returns the new
    count with its result. *)
Record entropy : Type := {
  random : nat -> Q;
  boxMuller : Q -> Q -> Q
}.

Module Transforms.
Import Lsb.

(** The [params] object of a transform specification. *)
Record parameters : Type := {
  p_quality : option Q;
  p_sigma : option Q;
  p_scale : option Q;
  p_width : option Q;
  p_height : option Q;
  p_angle : option Q;
  p_ratio : option Q;
  p_radius : option Q;
  p_rate : option Q
}.

(** [{}] *)
Definition noParameters : parameters :=
  {| p_quality := None; p_sigma := None; p_scale := None;
     p_width := None; p_height := None; p_angle := None;
     p_ratio := None; p_radius := None; p_rate := None |}.

(** A transform specification, as read from the configuration.  An
    absent property is [None]. *)
Record transform : Type := {
  name : option string;
  type : option string;
  params : option parameters;
  quality : option Q;
  sigma : option Q;
  scale : option Q;
  t_width : option Q;
  t_height : option Q;
  rate : option Q
}.

(** [a || b] on numbers that may be absent: [undefined] and [0] are
    falsy. *)
Definition orElse (a b : option Q) : option Q :=
  match a with
  | Some q => if Qeq_bool q 0 then b else a
  | None => b
  end.

(** [a || d] with a literal [d]. *)
Definition orDefault (a : option Q) (d : Q) : Q :=
  match orElse a (Some d) with
  | Some q => q
  | None => d
  end.

(** [name || type] on strings: [undefined] and [''] are falsy. *)
Definition orString (a b : option string) : option string :=
  match a with
  | Some EmptyString => b
  | Some _ => a
  | None => b
  end.

(** An image object of the data set: the runner and the dispatcher read
    its [name] and its [buffer]. *)
Record imageObject (buffer : Type) : Type := {
  io_name : string;
  io_buffer : buffer
}.
Arguments io_name {buffer} _.
Arguments io_buffer {buffer} _.

Section WithCodec.
Context {buffer : Type} `{Sharp buffer}.
Variable rnd : entropy.

Definition applyJpeg (b : buffer) (quality : Q) : result buffer :=
  if Qltb quality 1 || Qltb 100 quality then Throw JpegQualityRange
  else jpeg b quality.

Definition applyResize (b : buffer) (width height : option Q)
    : result buffer :=
  match orElse height None with
  | Some h => resize b width (Some h)
  | None => resize b width None
  end.

(** [Math.max(0, Math.min(255, v + noise))] stored into a [Buffer]. *)
Definition noisyByte (v : Z) (noise : Q) : Z :=
  toUint8 (Qfloor (mathMax 0 (mathMin 255 (inject_Z v + noise)))).

(** [noisyData[j] = clamp(data[j] + generateNoise())]; the two calls of
    [Math.random()] are made whether or not [j] is in range. *)
Definition noiseWrite (sigma : Q) (data : list Z) (j : nat)
    (st : list Z * nat) : list Z * nat :=
  let '(noisyData, k) := st in
  let noise := (boxMuller rnd (random rnd k) (random rnd (S k))
                * sigma * 255)%Q in
  (match data !! j with
   | Some v => <[ j := noisyByte v noise ]> noisyData
   | None => noisyData
   end, S (S k)).

(** Body of [for (i = 0; i < data.length; i += channels)]. *)
Definition noiseStep (sigma : Q) (channels : Z) (data : list Z)
    (st : list Z * nat) (i : nat) : list Z * nat :=
  let st1 := noiseWrite sigma data i st in
  let st2 := noiseWrite sigma data (i + 1) st1 in
  let '(noisyData, k) := noiseWrite sigma data (i + 2) st2 in
  if channels =? 4 then
    (match data !! (i + 3)%nat with
     | Some v => <[ (i + 3)%nat := v ]> noisyData
     | None => noisyData
     end, k)
  else (noisyData, k).

(** The loop needs [channels > 0] to end; sharp reports 1 to 4. *)
Definition applyGaussianNoise (b : buffer) (sigma : Q) (k : nat)
    : result (buffer * nat) :=
  if Qltb sigma 0 || Qltb 1 sigma then Throw NoiseSigmaRange
  else
    let* m := metadata b in
    let* (data, _) := raw b in
    let step := Z.to_nat (channels m) in
    let rounds := Nat.div (length data + step - 1) step in
    let '(noisyData, k') :=
      fold_left (noiseStep sigma (channels m) data)
        (map (fun r => (r * step)%nat) (seq 0 rounds)) (data, k) in
    let* noisyBuffer := pngFromRaw noisyData m in
    Ok (noisyBuffer, k').

(** Body of [for (i = 0; i < bytesToCorrupt; i++)]:
    [data[randomByte] ^= (1 << randomBit)]. *)
Definition corruptStep (st : list Z * nat) (_ : nat) : list Z * nat :=
  let '(data, k) := st in
  let randomByte :=
    Z.to_nat (Qfloor (random rnd k * ofNat (length data))) in
  let randomBit := Qfloor (random rnd (S k) * 8) in
  (match data !! randomByte with
   | Some v =>
       <[ randomByte := toUint8 (Z.lxor v (Z.shiftl 1 randomBit)) ]> data
   | None => data
   end, S (S k)).

Definition applyBitCorruption (b : buffer) (corruptionRate : Q) (k : nat)
    : result (buffer * nat) :=
  let* (data, info) := ensureAlphaRaw b in
  let bytesToCorrupt := Qceiling (ofNat (length data) * corruptionRate) in
  let '(data', k') :=
    fold_left corruptStep (seq 0 (Z.to_nat bytesToCorrupt)) (data, k) in
  let* corrupted := pngFromRaw data' info in
  Ok (corrupted, k').

Definition applyBlur (b : buffer) (sigma : Q) : result buffer :=
  if Qltb sigma (3 # 10) || Qltb 1000 sigma then Throw BlurSigmaRange
  else blur b sigma.

Definition applyRotation (b : buffer) (angle : Q) : result buffer :=
  rotate b angle.

Definition applyCrop (b : buffer) (ratio : Q) : result buffer :=
  if Qle_bool ratio 0 || Qltb 1 ratio then Throw CropRatioRange
  else
    let* m := metadata b in
    let newWidth := Qfloor (inject_Z (width m) * ratio) in
    let newHeight := Qfloor (inject_Z (height m) * ratio) in
    let left := Qfloor (inject_Z (width m - newWidth) / 2) in
    let top := Qfloor (inject_Z (height m - newHeight) / 2) in
    extractRegion b left top newWidth newHeight.

Definition pure (r : result buffer) (k : nat) : result (buffer * nat) :=
  let* b := r in Ok (b, k).

(** The [switch (transformType)] of [applyTransform]. *)
Definition dispatch (b : buffer) (t : transform) (k : nat)
    : result (buffer * nat) :=
  let p := default noParameters (params t) in
  match orString (name t) (type t) with
  | Some "jpeg"%string | Some "jpeg-compression"%string =>
      pure (applyJpeg b (orDefault (orElse (quality t) (p_quality p)) 75)) k
  | Some "noise"%string | Some "gaussian_noise"%string
  | Some "gaussian-noise"%string =>
      applyGaussianNoise b
        (orDefault (orElse (sigma t) (p_sigma p)) (5 # 100)) k
  | Some "resize"%string =>
      match orElse (scale t) (p_scale p) with
      | Some sc =>
          pure (let* m := metadata b in
                let width := Qfloor (inject_Z (width m) * sc) in
                let height := Qfloor (inject_Z (height m) * sc) in
                applyResize b (Some (inject_Z width))
                  (Some (inject_Z height))) k
      | None =>
          pure (applyResize b (orElse (t_width t) (p_width p))
                  (orElse (t_height t) (p_height p))) k
      end
  | Some "rotation"%string =>
      pure (applyRotation b (orDefault (p_angle p) 45)) k
  | Some "crop"%string =>
      pure (applyCrop b (orDefault (p_ratio p) (8 # 10))) k
  | Some "blur"%string =>
      pure (applyBlur b (orDefault (orElse (p_sigma p) (p_radius p)) 3)) k
  | Some "bit-corruption"%string | Some "bit_corruption"%string
  | Some "bitcorruption"%string =>
      applyBitCorruption b
        (orDefault (orElse (rate t) (p_rate p)) (3 # 10)) k
  | _ => Ok (b, k)
  end.

(** [applyTransform(image, transform)], for an image object that has a
    buffer (every image of the data set has); of the object returned,
    the transformed image. *)
Definition applyTransform (image : imageObject buffer) (t : transform)
    (k : nat) : result (imageObject buffer * nat) :=
  let* (transformedBuffer, k') := dispatch (io_buffer image) t k in
  let* _ := metadata transformedBuffer in
  Ok ({| io_name :=
           String.append (io_name image)
             (String.append "_" (default "undefined"%string (type t)));
         io_buffer := transformedBuffer |}, k').

End WithCodec.

End Transforms.

(** ** models/stego_model.js (the dry run) and experiments/runner.js

    File-system calls ([mkdir], [writeFile]) are taken to succeed and are
    left out, with the log lines and the time stamps; so is the aggregate
    [computeMetrics], which reads the finished samples only. *)

Module Runner.
Import JS Codec Lsb Transforms.

Record stegoMetrics : Type := {
  m_psnr : Q;
  m_ssim : Q;
  m_mse : Q;
  m_capacity : Z;
  m_messageVerified : option bool
}.

Record stegoResult (buffer : Type) : Type := {
  success : bool;
  stegoImage : option buffer;
  originalMessage : option jsstring;
  sr_extractedMessage : option jsstring;
  sr_metrics : stegoMetrics;
  sr_error : option error
}.
Arguments success {buffer} _.
Arguments stegoImage {buffer} _.
Arguments originalMessage {buffer} _.
Arguments sr_extractedMessage {buffer} _.
Arguments sr_metrics {buffer} _.
Arguments sr_error {buffer} _.

(** The [extractedMessage] a step records: the text, or one of the two
    placeholders ['(no message recovered)'] and ['(extraction error)']. *)
Inductive shownMessage : Type :=
| Text (m : jsstring)
| NoMessageRecovered
| ExtractionError.

(** One entry of [sample.transforms]. *)
Record stepRecord : Type := {
  s_name : option string;
  s_params : transform;
  appliedToStego : bool;
  extractionSuccess : bool;
  partialRecovery : bool;
  s_recoveryScore : Q;
  s_extractedMessage : shownMessage;
  messageIntact : bool;
  s_originalMessage : option jsstring;
  s_error : option error
}.

Record sample : Type := {
  id : nat;
  sample_name : string;
  transforms : list stepRecord;
  hiddenMessage : option jsstring;
  extractedMessage : option shownMessage;
  messageVerified : option bool;
  originalMetrics : stegoMetrics;
  robustnessScore : Q;
  finalMessageVerified : bool
}.

Record config : Type := {
  cfg_message : option jsstring;
  cfg_transforms : list transform
}.

Inductive status : Type := completed | failed.

Record results : Type := {
  samples : list sample;
  r_status : status;
  r_error : option error
}.

(** How [runDryRun] ends: it returns the results, or it throws after
    saving the partial results. *)
Inductive outcome : Type :=
| Returned (r : results)
| Thrown (e : error) (saved : results).

(** [customMessage || demo] on strings. *)
Definition orMessage (a : option jsstring) (b : jsstring) : jsstring :=
  match a with
  | Some (c :: m) => c :: m
  | _ => b
  end.

(** [x ? Some x : None] for a string that may be absent or empty. *)
Definition truthy (a : option jsstring) : option jsstring :=
  match a with
  | Some (c :: m) => Some (c :: m)
  | _ => None
  end.

Section WithCodec.
Context {buffer : Type} `{Sharp buffer}.
Variable rnd : entropy.
(** [`Demo: Stego test at ${new Date().toISOString()}`] *)
Variable demoText : jsstring.

(** The [try] block of [StegoModel.dryRun]; building the placeholder
    network beforehand is taken to succeed. *)
Definition dryRunBody (b : buffer) (demoMessage : jsstring) (k : nat)
    : result (stegoResult buffer) :=
  let* capacity := calculateCapacity b in
  let* (stegoImage, embedMetadata) := embedMessage b demoMessage in
  let* ext := extractMessage stegoImage false in
  let extractedMessage := message ext in
  let messageMatch := bool_decide (extractedMessage = demoMessage) in
  Ok {| success := true;
        stegoImage := Some stegoImage;
        originalMessage := Some demoMessage;
        sr_extractedMessage := Some extractedMessage;
        sr_metrics :=
          {| m_psnr := (50 + random rnd k * 5)%Q;
             m_ssim := ((98 # 100) + random rnd (k + 1) * (19 # 1000))%Q;
             m_mse := (random rnd (k + 2) * 5)%Q;
             m_capacity := capacity;
             m_messageVerified := Some messageMatch |};
        sr_error := None |}.

Definition dryRun (image : imageObject buffer)
    (customMessage : option jsstring) (k : nat)
    : stegoResult buffer * nat :=
  let b := io_buffer image in
  let demoMessage := orMessage customMessage demoText in
  match dryRunBody b demoMessage k with
  | Ok r => (r, (k + 3)%nat)
  | Throw e =>
      ({| success := false;
          stegoImage := None;
          originalMessage := None;
          sr_extractedMessage := None;
          sr_metrics :=
            {| m_psnr := (35 + random rnd k * 10)%Q;
               m_ssim := ((90 # 100) + random rnd (k + 1) * (9 # 100))%Q;
               m_mse := (random rnd (k + 2) * 100)%Q;
               m_capacity := 0;
               m_messageVerified := None |};
          sr_error := Some e |}, (k + 3)%nat)
  end.

(** The entry pushed after the extraction attempt of one step. *)
Definition recordStep (hiddenMessage : option jsstring) (t : transform)
    (extractionResult : result extraction) : stepRecord :=
  match extractionResult with
  | Ok ext =>
      let extractedMsg := message ext in
      let survived := bool_decide (Some extractedMsg = hiddenMessage) in
      let partialRecovery :=
        (0 <? length extractedMsg)%nat
        && negb (bool_decide (Some extractedMsg = hiddenMessage)) in
      {| s_name := name t;
         s_params := t;
         appliedToStego := true;
         extractionSuccess := survived;
         partialRecovery := partialRecovery;
         s_recoveryScore := recoveryScore ext;
         s_extractedMessage :=
           match extractedMsg with
           | [] => NoMessageRecovered
           | _ => Text extractedMsg
           end;
         messageIntact := survived;
         s_originalMessage := hiddenMessage;
         s_error := None |}
  | Throw err =>
      {| s_name := name t;
         s_params := t;
         appliedToStego := true;
         extractionSuccess := false;
         partialRecovery := false;
         s_recoveryScore := 0%Q;
         s_extractedMessage := ExtractionError;
         messageIntact := false;
         s_originalMessage := hiddenMessage;
         s_error := Some err |}
  end.

(** [for (let i = 0; i < config.transforms.length; i++)]: the steps
    still to run, the current stego image, the entries pushed so far,
    the draws made so far.  An error of [applyTransform] leaves the
    loop. *)
Fixpoint transformLoop (hiddenMessage : option jsstring)
    (todo : list transform) (currentStegoImage : imageObject buffer)
    (pushed : list stepRecord) (k : nat)
    : result (list stepRecord * nat) :=
  match todo with
  | [] => Ok (pushed, k)
  | t :: todo' =>
      let* (transformedImage, k') :=
        applyTransform rnd currentStegoImage t k in
      let transformedBuffer := io_buffer transformedImage in
      let entry :=
        recordStep hiddenMessage t (extractMessage transformedBuffer true) in
      transformLoop hiddenMessage todo' transformedImage
        (pushed ++ [entry]) k'
  end.

(** Body of [for (const transform of sample.transforms)]. *)
Definition addContribution (totalRecoveryScore : Q) (t : stepRecord) : Q :=
  if extractionSuccess t then (totalRecoveryScore + 1)%Q
  else if partialRecovery t && Qltb 0 (s_recoveryScore t)
       then (totalRecoveryScore + s_recoveryScore t)%Q
       else totalRecoveryScore.

Definition totalRecoveryScore (steps : list stepRecord) : Q :=
  fold_left addContribution steps 0%Q.

Definition lastStep (steps : list stepRecord) : option stepRecord :=
  last steps.

(** The body of the loop over the images of the data set. *)
Definition processSample (cfg : config) (i : nat)
    (image : imageObject buffer) (k : nat) : result (sample * nat) :=
  let '(stegoResult, k1) := dryRun image (cfg_message cfg) k in
  let hidden := truthy (originalMessage stegoResult) in
  let currentStegoImage :=
    match stegoImage stegoResult with
    | Some b => {| io_name := io_name image; io_buffer := b |}
    | None => image
    end in
  let* (steps, k2) :=
    transformLoop hidden (cfg_transforms cfg) currentStegoImage [] k1 in
  let n := length (cfg_transforms cfg) in
  Ok ({| id := i;
         sample_name := io_name image;
         transforms := steps;
         hiddenMessage := hidden;
         extractedMessage :=
           match lastStep steps with
           | Some l => Some (s_extractedMessage l)
           | None =>
               match hidden with
               | Some _ => Text <$> sr_extractedMessage stegoResult
               | None => None
               end
           end;
         messageVerified :=
           match lastStep steps with
           | Some l => Some (extractionSuccess l)
           | None =>
               match hidden with
               | Some _ => m_messageVerified (sr_metrics stegoResult)
               | None => Some false
               end
           end;
         originalMetrics := sr_metrics stegoResult;
         robustnessScore :=
           if (0 <? n)%nat then (totalRecoveryScore steps / ofNat n)%Q
           else 1%Q;
         finalMessageVerified :=
           match lastStep steps with
           | Some l => extractionSuccess l
           | None => true
           end |}, k2).

(** [for (let i = 0; i < dataset.images.length; i++)]: [pushed] is
    [results.samples], which the [catch] block still sees when a sample
    throws. *)
Fixpoint sampleLoop (cfg : config) (images : list (imageObject buffer))
    (i : nat) (pushed : list sample) (k : nat)
    : list sample * option error :=
  match images with
  | [] => (pushed, None)
  | image :: images' =>
      match processSample cfg i image k with
      | Ok (s, k') => sampleLoop cfg images' (S i) (pushed ++ [s]) k'
      | Throw e => (pushed, Some e)
      end
  end.

(** [runDryRun(config)], given what [loadDataset] returned. *)
Definition runDryRun (cfg : config)
    (dataset : result (list (imageObject buffer))) (k : nat) : outcome :=
  match dataset with
  | Throw e =>
      Thrown e {| samples := []; r_status := failed; r_error := Some e |}
  | Ok images =>
      match sampleLoop cfg images 0 [] k with
      | (pushed, None) =>
          Returned {| samples := pushed; r_status := completed;
                      r_error := None |}
      | (pushed, Some e) =>
          Thrown e {| samples := pushed; r_status := failed;
                      r_error := Some e |}
      end
  end.

End WithCodec.

End Runner.

(** ** experiments/metrics.js: PSNR and the global SSIM approximation *)

Module Metrics.
Import Lsb.

(** What [computePSNR] returns: [Infinity], a number of decibels
    [10 * Math.log10(ratio)] kept as its argument [ratio], or NaN. *)
Inductive psnr : Type :=
| PsnrInfinity
| PsnrDecibels (ratio : Q)
| PsnrNaN.

(** [mse += (dataA[i] - dataB[i]) ** 2]; a byte read past the end of
    [dataB] is [undefined] and turns the sum into NaN ([None]). *)
Definition squaredErrorStep (dataA dataB : list Z) (mse : option Z)
    (i : nat) : option Z :=
  match mse, dataA !! i, dataB !! i with
  | Some m, Some a, Some b => Some (m + (a - b) * (a - b))
  | _, _, _ => None
  end.

(** [mse / numPixels]; [0 / 0] is NaN. *)
Definition meanSquaredError (dataA dataB : list Z) : option Q :=
  let numPixels := length dataA in
  match fold_left (squaredErrorStep dataA dataB) (seq 0 numPixels) (Some 0)
  with
  | Some total =>
      if (numPixels =? 0)%nat then None
      else Some (inject_Z total / ofNat numPixels)%Q
  | None => None
  end.

Definition psnrOfMse (mse : option Q) : psnr :=
  match mse with
  | Some m =>
      if Qeq_bool m 0 then PsnrInfinity
      else PsnrDecibels ((255 * 255) / m)%Q
  | None => PsnrNaN
  end.

(** First loop of [computeSSIM]: the two sums of bytes. *)
Definition sumStep (dataA dataB : list Z) (acc : option (Z * Z)) (i : nat)
    : option (Z * Z) :=
  match acc, dataA !! i, dataB !! i with
  | Some (meanA, meanB), Some a, Some b => Some (meanA + a, meanB + b)
  | _, _, _ => None
  end.

(** Second loop: the sums of squared and crossed deviations. *)
Definition deviationStep (dataA dataB : list Z) (meanA meanB : Q)
    (acc : option (Q * Q * Q)) (i : nat) : option (Q * Q * Q) :=
  match acc, dataA !! i, dataB !! i with
  | Some (varA, varB, covarAB), Some a, Some b =>
      let diffA := (inject_Z a - meanA)%Q in
      let diffB := (inject_Z b - meanB)%Q in
      Some ((varA + diffA * diffA)%Q, (varB + diffB * diffB)%Q,
            (covarAB + diffA * diffB)%Q)
  | _, _, _ => None
  end.

Definition C1 : Q := ((1 # 100) * 255) ^ 2.
Definition C2 : Q := ((3 # 100) * 255) ^ 2.

(** [computeSSIM] on the decoded bytes; [None] is NaN. *)
Definition ssimOfRaw (dataA dataB : list Z) : option Q :=
  let n := length dataA in
  match fold_left (sumStep dataA dataB) (seq 0 n) (Some (0, 0)) with
  | Some (sumA, sumB) =>
      if (n =? 0)%nat then None
      else
        let meanA := (inject_Z sumA / ofNat n)%Q in
        let meanB := (inject_Z sumB / ofNat n)%Q in
        match fold_left (deviationStep dataA dataB meanA meanB) (seq 0 n)
                (Some (0%Q, 0%Q, 0%Q)) with
        | Some (varA, varB, covarAB) =>
            let varA := (varA / ofNat n)%Q in
            let varB := (varB / ofNat n)%Q in
            let covarAB := (covarAB / ofNat n)%Q in
            let numerator :=
              ((2 * meanA * meanB + C1) * (2 * covarAB + C2))%Q in
            let denominator :=
              ((meanA * meanA + meanB * meanB + C1) * (varA + varB + C2))%Q in
            let ssim := (numerator / denominator)%Q in
            Some (mathMax 0 (mathMin 1 ssim))
        | None => None
        end
  | None => None
  end.

Section WithCodec.
Context {buffer : Type} `{Sharp buffer}.

(** The common prologue: decode both images, [bufB] resized to the
    dimensions of [bufA] when they differ. *)
Definition decodePair (bufA bufB : buffer) : result (list Z * list Z) :=
  let* metaA := metadata bufA in
  let* metaB := metadata bufB in
  let* processedBufB :=
    if negb (width metaA =? width metaB)
       || negb (height metaA =? height metaB)
    then resize bufB (Some (inject_Z (width metaA)))
           (Some (inject_Z (height metaA)))
    else Ok bufB in
  let* (dataA, _) := raw bufA in
  let* (dataB, _) := raw processedBufB in
  Ok (dataA, dataB).

Definition computeMSE (bufA bufB : buffer) : result (option Q) :=
  let* (dataA, dataB) := decodePair bufA bufB in
  Ok (meanSquaredError dataA dataB).

Definition computePSNR (bufA bufB : buffer) : result psnr :=
  let* (dataA, dataB) := decodePair bufA bufB in
  Ok (psnrOfMse (meanSquaredError dataA dataB)).

Definition computeSSIM (bufA bufB : buffer) : result (option Q) :=
  let* (dataA, dataB) := decodePair bufA bufB in
  Ok (ssimOfRaw dataA dataB).

End WithCodec.

End Metrics.

(** ** A codec to run the definitions on

    An image held in memory as its RGBA bytes, one row of pixels: encoding
    and decoding are the identity.  The lossy operations are given the
    simplest behaviour that changes the hidden bits (JPEG clears every
    least significant bit) or none. *)

Module RawCodec.

Definition infoOf (b : list Z) : info :=
  {| width := Z.of_nat (length b) / 4; height := 1; channels := 4 |}.

#[export] Instance rawSharp : Sharp (list Z) := {
  byteLength b := Z.of_nat (length b);
  metadata b := Ok (infoOf b);
  raw b := Ok (b, infoOf b);
  ensureAlphaRaw b := Ok (b, infoOf b);
  pngFromRaw data _ := Ok data;
  jpeg b _ := Ok (map (fun v => Z.land v 254) b);
  resize b _ _ := Ok b;
  blur b _ := Ok b;
  rotate b _ := Ok b;
  extractRegion b _ _ _ _ := Ok b
}.

(** [Math.random()] always returning 0, and a flat noise. *)
Definition still : entropy :=
  {| random := fun _ => 0%Q; boxMuller := fun _ _ => 0%Q |}.

(** A small run: two pictures of 50 opaque white pixels, the message
    "HELLO", and a chain of one or two transforms. *)
Definition hello : list Z := [72; 69; 76; 76; 79].

Definition demo : list Z := [68; 101; 109; 111].

Definition picture (name : string) : Transforms.imageObject (list Z) :=
  {| Transforms.io_name := name; Transforms.io_buffer := repeat 255 200 |}.

Definition step (name : string) (quality rate : option Q)
    : Transforms.transform :=
  {| Transforms.name := Some name; Transforms.type := None;
     Transforms.params := None; Transforms.quality := quality;
     Transforms.sigma := None; Transforms.scale := None;
     Transforms.t_width := None; Transforms.t_height := None;
     Transforms.rate := rate |}.

Definition twoPictures : list (Transforms.imageObject (list Z)) :=
  [picture "a.png"; picture "b.png"].

(** JPEG at quality 80, then bit corruption at rate 1/100. *)
Definition goodChain : Runner.config :=
  {| Runner.cfg_message := Some hello;
     Runner.cfg_transforms :=
       [step "jpeg" (Some 80%Q) None;
        step "bit-corruption" None (Some (1 # 100))] |}.

(** JPEG at the invalid quality 101. *)
Definition badChain : Runner.config :=
  {| Runner.cfg_message := Some hello;
     Runner.cfg_transforms := [step "jpeg" (Some 101%Q) None] |}.

End RawCodec.

(** ** Vocabulary of the statements *)

Module Vocabulary.
Import JS Codec.

(** What the codec does on one byte-sized code unit: eight characters,
    each ['0'] or ['1'], that [parseInt(_, 2)] reads back. *)
Definition byteGroupCheck (c : Z) : bool :=
  let g := padStart 8 48 (toString c 2) in
  (length g =? 8)%nat
  && forallb (fun x => (x =? 48) || (x =? 49)) g
  && (fromCharCode (parseInt g (Some 2)) =? c).

(** The characters ['0'] and ['1']. *)
Definition binaryChar (x : Z) : Prop := x = 48 \/ x = 49.

(** Eight binary characters. *)
Definition byteGroup (g : jsstring) : Prop :=
  length g = 8%nat /\ Forall binaryChar g.

(** The embedding loop stopped after [n] iterations. *)
Definition embedPrefix (messageBinary : jsstring) (n : nat)
    (data : list Z) : list Z :=
  fold_left (Lsb.embedStep messageBinary) (seq 0 n) data.

(** The characters ['0'] to ['9'], and the value a digit stands for. *)
Definition decimalDigit (c : Z) : Prop := 48 <= c <= 57.
Definition digitOf (c : Z) : Z := c - 48.

(** The longest string JavaScript allows has 2^53 - 1 code units. *)
Definition maxStringLength : Z := 2 ^ 53 - 1.

(** The bits [embedMessage] writes: the binary form of the length prefix
    followed by the message. *)
Definition payload (message : jsstring) : jsstring :=
  stringToBinary (Lsb.lengthPrefix message ++ message).

(** With a valid length prefix [L], extraction reads [8 * L] bits after
    the header, in either mode. *)
Definition bodyBits (data : list Z) (L : Z) : jsstring :=
  map (Lsb.lsbChar data) (seq 128 (Z.to_nat (L * 8))).

(** The group of eight bits of the [k]-th character of the body. *)
Definition bodyGroup (data : list Z) (k : nat) : jsstring :=
  map (Lsb.lsbChar data) (seq (128 + 8 * k) 8).

(** A string composed of code points 0 to 255. *)
Definition latin1 (s : jsstring) : Prop :=
  Forall (fun c => 0 <= c <= 255) s.

(** The contribution of a recorded step to the robustness score, read off
    the texts it records: 1 when the extracted text is the hidden message,
    the recovery score when it is another non-empty text, 0 when extraction
    failed or returned nothing. *)
Definition stepContribution (r : Runner.stepRecord) : Q :=
  match Runner.s_error r with
  | Some _ => 0%Q
  | None =>
      match Runner.s_extractedMessage r with
      | Runner.Text m =>
          if bool_decide (Runner.s_originalMessage r = Some m) then 1%Q
          else if (0 <? length m)%nat then Runner.s_recoveryScore r
               else 0%Q
      | _ => 0%Q
      end
  end.

Definition sumQ (l : list Q) : Q := fold_right Qplus 0%Q l.

(** The entries a sample can hold: made by [recordStep], for its hidden
    message and a transform, from a tolerant extraction. *)
Definition recorded {buffer : Type} `{Sharp buffer}
    (hidden : option jsstring) (t : Transforms.transform)
    (r : Runner.stepRecord) : Prop :=
  exists b : buffer,
    r = Runner.recordStep hidden t (Lsb.extractMessage b true).

(** The results a run leaves, returned or saved before the error is
    thrown again. *)
Definition resultsOf (o : Runner.outcome) : Runner.results :=
  match o with
  | Runner.Returned r => r
  | Runner.Thrown _ saved => saved
  end.

End Vocabulary.

(** ** Further vocabulary: names for parts of the loops above *)

Module Parts.
Import JS Codec Lsb.

(** The body of the recovery loop, once the group [char8bits] is cut out
    of the binary string. *)
Definition recoverGroup (char8bits recovered : jsstring) : jsstring :=
  if (length char8bits =? 8)%nat then
    let charCode := parseInt char8bits (Some 2) in
    if isPrintableCode charCode then recovered ++ [fromCharCode charCode]
    else
      let '(bestMatch, bestDistance) :=
        fold_left (closestStep char8bits) (seq 32 95) ([], 8) in
      if bestDistance <=? 3 then recovered ++ bestMatch
      else if (length recovered =? 0)%nat then recovered ++ bestMatch
      else recovered
  else recovered.

(** Printable ASCII, as a property of a string. *)
Definition printable (s : jsstring) : Prop :=
  Forall (fun c => 32 <= c <= 126) s.

(** The score [attemptLengthRecovery] gives a candidate length. *)
Definition candidateScore (data : list Z) (testLength : nat) : Q :=
  (ofNat (recoveryCount data testLength 0 0) / ofNat testLength)%Q.

(** The eight characters [stringToBinary] writes for a code unit. *)
Definition bitsOf (c : Z) : jsstring := padStart 8 48 (toString c 2).

(** On the bits of a byte [c], [parseInt(_, 2)] gives [c]. *)
Definition parsesBack (c : Z) : bool :=
  match parseInt (bitsOf c) (Some 2) with
  | Some v => v =? c
  | None => false
  end.

(** On the bits of [c] with the top bit set, the search of the closest
    printable character ends on [c], at distance 1. *)
Definition closestIsUnflipped (c : Z) : bool :=
  match fold_left (closestStep (bitsOf (c + 128))) (seq 32 95) ([], 8) with
  | ([m], d) => (m =? c) && (d =? 1)
  | _ => false
  end.

(** The candidate kept after trying the lengths 1 to [k]: the first one
    of the best score. *)
Definition firstBest (data : list Z) (k n : nat) : Prop :=
  (1 <= n <= k)%nat
  /\ forall m, (1 <= m <= k)%nat ->
       (candidateScore data m <= candidateScore data n)%Q
       /\ ((m < n)%nat -> (candidateScore data m < candidateScore data n)%Q).

(** The message length extraction works with in tolerant mode: the one
    read from the header when it is valid, the recovered one otherwise. *)
Definition effectiveLength (data : list Z) : Z :=
  match readLength data with
  | Some n => n
  | None => attemptLengthRecovery data
  end.

(** Whether [recoverGroup] adds a character to an empty result, on the
    bits of a byte. *)
Definition recoversFirst (c : Z) : bool :=
  (0 <? length (recoverGroup (bitsOf c) []))%nat.

(** On the byte [d] and the bit [b], the value the embedding loop stores
    keeps the seven high bits of [d] and has [b] as its lowest. *)
Definition storesBit (d b : Z) : bool :=
  let v := toUint8 (Z.lor (Z.land d 254) b) in
  (v / 2 =? d / 2) && (v mod 2 =? b) && (0 <=? v) && (v <=? 255).

(** The number of positions at which two buffers hold different bytes. *)
Fixpoint differing (a b : list Z) : nat :=
  match a, b with
  | x :: a', y :: b' =>
      ((if Z.eqb x y then 0 else 1) + differing a' b')%nat
  | _, _ => 0%nat
  end.

(** The sum of the squared differences of the bytes of [a] and the bytes
    of [b] at the same positions; [None] when [b] is the shorter. *)
Fixpoint sumSquares (a b : list Z) : option Z :=
  match a, b with
  | [], _ => Some 0
  | _ :: _, [] => None
  | x :: a', y :: b' =>
      match sumSquares a' b' with
      | Some t => Some ((x - y) * (x - y) + t)
      | None => None
      end
  end.

(** Two values that may be NaN are the same number, or both NaN. *)
Definition sameNumber (x y : option Q) : Prop :=
  match x, y with
  | Some p, Some q => (p == q)%Q
  | None, None => True
  | _, _ => False
  end.

(** A raw buffer of bytes. *)
Definition bytes (data : list Z) : Prop :=
  Forall (fun v => 0 <= v <= 255) data.

End Parts.

(** ** experiments/transforms.js: chains of transforms *)

Module Chain.
Import Lsb Transforms.

(** What [applyTransform] returns: the transformed image, and of the
    description [{ type, params, applied: true, ... }] of the transform its
    type and its parameters. *)
Record applied (buffer : Type) : Type := {
  a_image : imageObject buffer;
  a_type : option string;
  a_params : parameters
}.
Arguments a_image {buffer} _.
Arguments a_type {buffer} _.
Arguments a_params {buffer} _.

(** The suffix [`_${type}`] a transform adds to the name of an image. *)
Definition nameSuffix (t : transform) : string :=
  String.append "_" (default "undefined"%string (type t)).

Section WithCodec.
Context {buffer : Type} `{Sharp buffer}.
Variable rnd : entropy.

Definition applyTransformResult (image : imageObject buffer)
    (t : transform) (k : nat) : result (applied buffer * nat) :=
  let* (transformedImage, k') := applyTransform rnd image t k in
  Ok ({| a_image := transformedImage;
         a_type := type t;
         a_params := default noParameters (params t) |}, k').

(** [for (const transform of transforms)]: the transforms still to
    apply, the current image, the results pushed so far. *)
Fixpoint chainLoop (transforms : list transform)
    (currentImage : imageObject buffer) (results : list (applied buffer))
    (k : nat)
    : result (imageObject buffer * list (applied buffer) * nat) :=
  match transforms with
  | [] => Ok (currentImage, results, k)
  | t :: rest =>
      let* (r, k') := applyTransformResult currentImage t k in
      chainLoop rest (a_image r) (results ++ [r]) k'
  end.

(** [applyTransformChain(image, transforms)]: [finalImage] and [chain]. *)
Definition applyTransformChain (image : imageObject buffer)
    (transforms : list transform) (k : nat)
    : result (imageObject buffer * list (applied buffer) * nat) :=
  chainLoop transforms image [] k.

End WithCodec.

End Chain.

(** ** experiments/metrics.js: bit accuracy *)

Module BitMetrics.
Import Lsb.

(** [if (arrA[i] === arrB[i]) matches++] *)
Definition matchStep (arrA arrB : list Z) (matches : nat) (i : nat) : nat :=
  if bool_decide (arrA !! i = arrB !! i) then S matches else matches.

(** [computeBitAccuracy(origBits, extBits)] on arrays of numbers.  The
    function calls itself on slices when the lengths differ; [fuel] bounds
    the depth of the calls, [None] is fuel exhausted. *)
Fixpoint computeBitAccuracy (fuel : nat) (arrA arrB : list Z) : option Q :=
  match fuel with
  | O => None
  | S fuel' =>
      if negb (length arrA =? length arrB)%nat then
        let minLen := Nat.min (length arrA) (length arrB) in
        computeBitAccuracy fuel' (take minLen arrA) (take minLen arrB)
      else if (length arrA =? 0)%nat then Some 1%Q
      else
        let matches :=
          fold_left (matchStep arrA arrB) (seq 0 (length arrA)) 0%nat in
        Some (ofNat matches / ofNat (length arrA))%Q
  end.

(** [computeBER(origBits, extBits)] *)
Definition computeBER (fuel : nat) (origBits extBits : list Z) : option Q :=
  match computeBitAccuracy fuel origBits extBits with
  | Some accuracy => Some (1 - accuracy)%Q
  | None => None
  end.

End BitMetrics.

(** ** experiments/runner.js: the state of the loop over the images *)

Module RunParts.
Import JS Lsb Transforms Runner.

Section WithCodec.
Context {buffer : Type} `{Sharp buffer}.
Variable rnd : entropy.
Variable demoText : jsstring.

(** The number of random draws made when the loop over [images] ends, on
    the last image or at the first sample that throws. *)
Fixpoint drawsAfter (cfg : config) (images : list (imageObject buffer))
    (i k : nat) : nat :=
  match images with
  | [] => k
  | image :: images' =>
      match processSample rnd demoText cfg i image k with
      | Ok (_, k') => drawsAfter cfg images' (S i) k'
      | Throw _ => k
      end
  end.

End WithCodec.

End RunParts.
(** * Properties *)

Import JS Codec Lsb Vocabulary RawCodec.

(** Closed goals about concrete inputs: split the conjunctions and
    evaluate each side. *)
Ltac by_evaluation :=
  repeat match goal with |- _ /\ _ => split end;
  try (vm_compute; reflexivity).

(** ** The bit codec *)

Section CodecFacts.

Lemma byteGroupCheck_all :
  forallb byteGroupCheck (map Z.of_nat (seq 0 256)) = true.
Proof. vm_compute. reflexivity. Qed.

Lemma byteGroupCheck_range (c : Z) :
  0 <= c <= 255 -> byteGroupCheck c = true.
Proof.
  intros Hc.
  pose proof byteGroupCheck_all as Hall.
  rewrite forallb_forall in Hall. apply Hall.
  replace c with (Z.of_nat (Z.to_nat c)) by lia.
  apply in_map, in_seq. lia.
Qed.

Lemma byteGroup_spec (c : Z) :
  0 <= c <= 255 ->
  let g := padStart 8 48 (toString c 2) in
  length g = 8%nat /\ Forall binaryChar g
  /\ fromCharCode (parseInt g (Some 2)) = c.
Proof.
  intros Hc g. pose proof (byteGroupCheck_range c Hc) as Hk.
  unfold byteGroupCheck in Hk. fold g in Hk.
  apply andb_prop in Hk as [Hk H3]. apply andb_prop in Hk as [H1 H2].
  split; [now apply Nat.eqb_eq|]. split; [|now apply Z.eqb_eq].
  apply List.Forall_forall. intros x Hx.
  rewrite forallb_forall in H2. specialize (H2 x Hx).
  unfold binaryChar. apply orb_prop in H2 as [H2|H2]; apply Z.eqb_eq in H2; auto.
Qed.

Lemma binaryChar_not_terminator (x : Z) :
  binaryChar x -> isLineTerminator x = false.
Proof. intros [->| ->]; reflexivity. Qed.

Lemma takeDots_group (g r : jsstring) :
  Forall binaryChar g ->
  takeDots (length g) (g ++ r) = (g, r).
Proof.
  induction 1 as [|c g Hc Hg IH]; simpl.
  - destruct r; reflexivity.
  - rewrite (binaryChar_not_terminator c Hc), IH. reflexivity.
Qed.

Lemma matchDotLoop_groups (gs : list jsstring) :
  Forall byteGroup gs ->
  forall fuel, (length (concat gs) <= fuel)%nat ->
  matchDotLoop fuel (concat gs) = gs.
Proof.
  induction 1 as [|g gs [Hlen Hbin] Hgs IH]; intros fuel Hfuel.
  - destruct fuel; reflexivity.
  - simpl concat in *. rewrite length_app, Hlen in Hfuel.
    destruct fuel as [|fuel]; [lia|].
    destruct g as [|c g']; [discriminate|].
    change (matchDotLoop (S fuel) ((c :: g') ++ concat gs))
      with (match takeDots 8 ((c :: g') ++ concat gs) with
            | ([], _) => matchDotLoop fuel (g' ++ concat gs)
            | (m, r) => m :: matchDotLoop fuel r
            end).
    rewrite <- Hlen, takeDots_group by assumption.
    f_equal. apply IH. lia.
Qed.

Lemma matchDot1to8_groups (gs : list jsstring) :
  Forall byteGroup gs -> matchDot1to8 (concat gs) = gs.
Proof. intros H. apply matchDotLoop_groups; [assumption|]. lia. Qed.

Lemma binaryToString_groups (gs : list jsstring) :
  Forall byteGroup gs ->
  binaryToString (concat gs)
  = map (fun bin => fromCharCode (parseInt bin (Some 2))) gs.
Proof. intros H. unfold binaryToString. now rewrite matchDot1to8_groups. Qed.

Lemma stringToBinary_groups (s : jsstring) :
  latin1 s ->
  Forall byteGroup (map (fun char => padStart 8 48 (toString char 2)) s).
Proof.
  intros H. apply List.Forall_map. eapply List.Forall_impl; [|exact H].
  intros c Hc. destruct (byteGroup_spec c Hc) as (H1 & H2 & _). now split.
Qed.

End CodecFacts.

Lemma codec_inverse (s : jsstring) :
  latin1 s -> binaryToString (stringToBinary s) = s.
Proof.
  intros H. unfold stringToBinary.
  rewrite binaryToString_groups by now apply stringToBinary_groups.
  rewrite map_map. rewrite <- (map_id s) at 2.
  apply map_ext_in. intros c Hc.
  unfold latin1 in H. rewrite List.Forall_forall in H.
  now destruct (byteGroup_spec c (H c Hc)) as (_ & _ & ->).
Qed.

(** C2.  For every string [s] whose code units are all in 0..255,
    [binaryToString(stringToBinary(s))] is [s]. *)
Theorem codec_roundtrip (s : jsstring) :
  latin1 s -> binaryToString (stringToBinary s) = s.
Proof. exact (codec_inverse s). Qed.

Lemma codec_roundtrip_witness :
  latin1 [72; 105; 0; 233; 255]
  /\ binaryToString (stringToBinary [72; 105; 0; 233; 255])
     = [72; 105; 0; 233; 255].
Proof.
  assert (H : latin1 [72; 105; 0; 233; 255])
    by (repeat constructor; lia).
  split; [exact H | exact (codec_roundtrip _ H)].
Defined.

(** ** The embedding loop *)

Section EmbedLoop.

Lemma land_1_bit (a : Z) : Z.land a 1 = Z.b2z (Z.testbit a 0).
Proof.
  change 1 with (Z.ones 1). rewrite Z.land_ones by lia.
  symmetry. apply Z.bit0_mod.
Qed.

Lemma toUint8_land (v : Z) : toUint8 v = Z.land v (Z.ones 8).
Proof. unfold toUint8. rewrite Z.land_ones by lia. reflexivity. Qed.

(** The least significant bit of the byte the loop stores is the
    message bit. *)
Lemma stored_lsb (x b : Z) :
  b = 0 \/ b = 1 ->
  Z.land (toUint8 (Z.lor (Z.land x 254) b)) 1 = b.
Proof.
  intros Hb. rewrite land_1_bit, toUint8_land.
  rewrite Z.land_spec, Z.lor_spec, Z.land_spec.
  change (Z.testbit 254 0) with false.
  change (Z.testbit (Z.ones 8) 0) with true.
  rewrite andb_false_r, andb_true_r. simpl.
  destruct Hb as [-> | ->]; reflexivity.
Qed.

Lemma andByte_1_bit (o : option Z) : andByte o 1 = 0 \/ andByte o 1 = 1.
Proof.
  unfold andByte. rewrite land_1_bit.
  destruct (Z.testbit _ 0); auto.
Qed.

Lemma lsbChar_binary (data : list Z) (i : nat) : binaryChar (lsbChar data i).
Proof.
  unfold lsbChar, binaryChar.
  destruct (andByte_1_bit (data !! i)) as [-> | ->]; auto.
Qed.

Lemma lsbChar_outside (data : list Z) (i : nat) :
  (length data <= i)%nat -> lsbChar data i = 48.
Proof.
  intros Hi. unfold lsbChar. rewrite lookup_ge_None_2 by assumption.
  reflexivity.
Qed.

Lemma bitAt_binary (messageBinary : jsstring) (i : nat) (c : Z) :
  messageBinary !! i = Some c -> binaryChar c ->
  (bitAt messageBinary i = 0 \/ bitAt messageBinary i = 1)
  /\ 48 + bitAt messageBinary i = c.
Proof.
  intros Hi Hc. unfold bitAt. rewrite Hi.
  destruct Hc as [-> | ->]; cbn; auto.
Qed.

Variable messageBinary : jsstring.
Hypothesis binary : Forall binaryChar messageBinary.

Lemma embedPrefix_S (n : nat) (data : list Z) :
  embedPrefix messageBinary (S n) data
  = embedStep messageBinary (embedPrefix messageBinary n data) n.
Proof. unfold embedPrefix. rewrite seq_S, fold_left_app. reflexivity. Qed.

Lemma embedPrefix_length (n : nat) (data : list Z) :
  length (embedPrefix messageBinary n data) = length data.
Proof.
  induction n as [|n IH]; [reflexivity|].
  rewrite embedPrefix_S. unfold embedStep. now rewrite length_insert.
Qed.

Lemma embedPrefix_untouched (n : nat) (data : list Z) (i : nat) :
  (n <= i)%nat -> embedPrefix messageBinary n data !! i = data !! i.
Proof.
  induction n as [|n IH]; intros Hi; [reflexivity|].
  rewrite embedPrefix_S. unfold embedStep.
  rewrite list_lookup_insert_ne by lia. apply IH. lia.
Qed.

Lemma embedPrefix_written (n : nat) (data : list Z) (i : nat) (c : Z) :
  (n <= length data)%nat -> (i < n)%nat ->
  messageBinary !! i = Some c ->
  lsbChar (embedPrefix messageBinary n data) i = c.
Proof.
  induction n as [|n IH]; intros Hn Hi Hc; [lia|].
  rewrite embedPrefix_S. unfold embedStep, lsbChar.
  destruct (decide (i = n)) as [-> | Hne].
  - rewrite list_lookup_insert_eq by (rewrite embedPrefix_length; lia).
    assert (Hb : binaryChar c).
    { rewrite List.Forall_forall in binary. apply binary.
      eapply list_elem_of_In, list_elem_of_lookup_2, Hc. }
    destruct (bitAt_binary _ _ _ Hc Hb) as [H01 Heq].
    unfold andByte at 1. simpl default.
    unfold andByte. rewrite stored_lsb by assumption. exact Heq.
  - rewrite list_lookup_insert_ne by lia.
    apply (IH ltac:(lia) ltac:(lia) Hc).
Qed.

(** Reading the least significant bits back gives the message bits. *)
Lemma embedLoop_read (data : list Z) :
  (length messageBinary <= length data)%nat ->
  map (lsbChar (embedLoop messageBinary data))
      (seq 0 (length messageBinary))
  = messageBinary.
Proof.
  intros Hlen. apply list_eq. intros i.
  rewrite list_lookup_fmap.
  destruct (messageBinary !! i) as [c|] eqn:Hc.
  - pose proof (lookup_lt_Some _ _ _ Hc) as Hi.
    rewrite lookup_seq_lt by assumption. simpl. f_equal.
    apply embedPrefix_written; [assumption..|exact Hc].
  - pose proof (lookup_ge_None_1 _ _ Hc) as Hi.
    rewrite lookup_seq_ge by assumption. reflexivity.
Qed.

End EmbedLoop.

(** ** Numbers as decimal strings, and back *)

Section Decimal.

Lemma digitsRev_decimal (fuel : nat) (n : Z) :
  0 <= n -> Forall decimalDigit (digitsRev fuel 10 n).
Proof.
  revert n. induction fuel as [|fuel IH]; intros n Hn; simpl; [constructor|].
  constructor.
  - pose proof (Z.mod_pos_bound n 10 ltac:(lia)) as Hm.
    unfold decimalDigit, digitChar.
    destruct (Z.ltb_spec (n mod 10) 10); lia.
  - destruct (n / 10 =? 0); [constructor|].
    apply IH. apply Z.div_pos; lia.
Qed.

Lemma digitsValue_snoc (R : Z) (ds : list Z) (d : Z) :
  digitsValue R (ds ++ [d]) = digitsValue R ds * R + d.
Proof. unfold digitsValue. rewrite fold_left_app. reflexivity. Qed.

Lemma digitsRev_value (fuel : nat) (n : Z) :
  0 <= n < 2 ^ Z.of_nat fuel ->
  digitsValue 10 (map digitOf (rev (digitsRev fuel 10 n))) = n.
Proof.
  revert n. induction fuel as [|fuel IH]; intros n Hn.
  - simpl in *. unfold digitsValue. simpl. lia.
  - simpl digitsRev. simpl rev. rewrite map_app.
    change (map digitOf [digitChar (n mod 10)])
      with [digitOf (digitChar (n mod 10))].
    rewrite digitsValue_snoc.
    pose proof (Z.mod_pos_bound n 10 ltac:(lia)) as Hm.
    assert (Hd : digitOf (digitChar (n mod 10)) = n mod 10).
    { unfold digitOf, digitChar. destruct (Z.ltb_spec (n mod 10) 10); lia. }
    rewrite Hd.
    assert (Hq : digitsValue 10
                   (map digitOf
                      (rev (if n / 10 =? 0 then []
                            else digitsRev fuel 10 (n / 10)))) = n / 10).
    { destruct (Z.eqb_spec (n / 10) 0) as [E|E].
      - rewrite E. reflexivity.
      - apply IH. split; [apply Z.div_pos; lia|].
        rewrite Nat2Z.inj_succ, Z.pow_succ_r in Hn by lia.
        apply Z.div_lt_upper_bound; lia. }
    rewrite Hq. pose proof (Z.div_mod n 10 ltac:(lia)). lia.
Qed.

Lemma digitsRev_length (fuel : nat) (n : Z) (k : nat) :
  0 <= n < 10 ^ Z.of_nat (S k) ->
  (length (digitsRev fuel 10 n) <= S k)%nat.
Proof.
  revert n k. induction fuel as [|fuel IH]; intros n k Hn; simpl; [lia|].
  destruct (Z.eqb_spec (n / 10) 0) as [E|E]; simpl; [lia|].
  destruct k as [|k].
  - exfalso. apply E. apply Z.div_small. simpl in Hn. lia.
  - apply le_n_S, IH. split; [apply Z.div_pos; lia|].
    rewrite (Nat2Z.inj_succ (S k)), Z.pow_succ_r in Hn by lia.
    apply Z.div_lt_upper_bound; lia.
Qed.

Lemma toString_fuel (n : Z) :
  0 <= n -> n < 2 ^ Z.of_nat (S (Z.to_nat (Z.log2 n))).
Proof.
  intros Hn. rewrite Nat2Z.inj_succ, Z2Nat.id by apply Z.log2_nonneg.
  destruct (Z.eq_dec n 0) as [-> | Hne]; [reflexivity|].
  apply Z.log2_spec. lia.
Qed.

Lemma toString_decimal (n : Z) :
  0 <= n ->
  toString n 10 <> []
  /\ Forall decimalDigit (toString n 10)
  /\ digitsValue 10 (map digitOf (toString n 10)) = n.
Proof.
  intros Hn. unfold toString. repeat split.
  - simpl. intros E. apply (f_equal (@length Z)) in E.
    rewrite length_app in E. simpl in E. lia.
  - apply Forall_rev. now apply digitsRev_decimal.
  - apply digitsRev_value. split; [assumption|now apply toString_fuel].
Qed.

Lemma toString_decimal_length (n : Z) :
  0 <= n < 10 ^ 16 -> (length (toString n 10) <= 16)%nat.
Proof.
  intros Hn. unfold toString. rewrite length_rev.
  apply digitsRev_length. exact Hn.
Qed.

Lemma decimalDigit_not_space (c : Z) :
  decimalDigit c -> isWhiteSpace c = false.
Proof.
  unfold decimalDigit, isWhiteSpace, isLineTerminator. intros Hc.
  repeat match goal with
         | |- context [?a =? ?b] => rewrite (proj2 (Z.eqb_neq a b)) by lia
         end.
  rewrite (proj2 (Z.leb_gt 8192 c)) by lia. reflexivity.
Qed.

Lemma radixDigits_decimal (s : jsstring) :
  Forall decimalDigit s -> radixDigits 10 s = map digitOf s.
Proof.
  induction 1 as [|c s Hc Hs IH]; [reflexivity|].
  simpl. unfold digitValue, decimalDigit in *.
  rewrite (proj2 (Z.leb_le 48 c)), (proj2 (Z.leb_le c 57)) by lia. simpl.
  rewrite (proj2 (Z.ltb_lt (c - 48) 10)) by lia.
  now rewrite IH.
Qed.

(** [parseInt] of a non-empty string of decimal digits, one argument. *)
Lemma parseInt_decimal (s : jsstring) :
  s <> [] -> Forall decimalDigit s ->
  parseInt s None = Some (digitsValue 10 (map digitOf s)).
Proof.
  intros Hne Hs. destruct s as [|c t]; [congruence|].
  inversion Hs as [|? ? Hc Ht]; subst.
  unfold parseInt. simpl trimStart.
  rewrite (decimalDigit_not_space c Hc).
  unfold decimalDigit in Hc.
  rewrite (proj2 (Z.eqb_neq c 45)), (proj2 (Z.eqb_neq c 43)) by lia.
  simpl negb. simpl andb. cbv iota.
  assert (Hp : match t with
               | [] => (if 0 =? 0 then 10 else 0, c :: t)
               | c1 :: t0 =>
                   if (c =? 48) && ((c1 =? 120) || (c1 =? 88))
                   then (16, t0)
                   else (if 0 =? 0 then 10 else 0, c :: t)
               end = (10, c :: t)).
  { destruct t as [|c1 t1]; [reflexivity|].
    inversion Ht as [|? ? Hc1 _]; subst. unfold decimalDigit in Hc1.
    rewrite (proj2 (Z.eqb_neq c1 120)), (proj2 (Z.eqb_neq c1 88)) by lia.
    rewrite andb_false_r. reflexivity. }
  rewrite Hp. rewrite radixDigits_decimal by assumption.
  simpl map. f_equal. destruct (digitsValue 10 _); reflexivity.
Qed.

Lemma padStart_length_ge (target : nat) (pad : Z) (s : jsstring) :
  (target <= length (padStart target pad s))%nat.
Proof. unfold padStart. rewrite length_app, repeat_length. lia. Qed.

Lemma padStart_length (target : nat) (pad : Z) (s : jsstring) :
  (length s <= target)%nat -> length (padStart target pad s) = target.
Proof. intros H. unfold padStart. rewrite length_app, repeat_length. lia. Qed.

Lemma digitsValue_zeros (R : Z) (k : nat) (ds : list Z) :
  digitsValue R (repeat 0 k ++ ds) = digitsValue R ds.
Proof.
  unfold digitsValue. rewrite fold_left_app. f_equal.
  induction k as [|k IH]; [reflexivity|]. simpl. exact IH.
Qed.

(** The length prefix of a message: sixteen digits that [parseInt] reads
    back as the length. *)
Lemma lengthPrefix_spec (message : jsstring) :
  Z.of_nat (length message) < 10 ^ 16 ->
  length (lengthPrefix message) = 16%nat
  /\ Forall decimalDigit (lengthPrefix message)
  /\ parseInt (lengthPrefix message) None = Some (Z.of_nat (length message)).
Proof.
  intros Hlen. set (n := Z.of_nat (length message)) in *.
  destruct (toString_decimal n ltac:(lia)) as (Hne & Hdig & Hval).
  pose proof (toString_decimal_length n ltac:(lia)) as Hle.
  unfold lengthPrefix. fold n.
  assert (Hall : Forall decimalDigit (padStart 16 48 (toString n 10))).
  { unfold padStart. apply Forall_app. split; [|assumption].
    apply List.Forall_forall. intros x Hx. apply repeat_spec in Hx. subst.
    unfold decimalDigit. lia. }
  repeat split.
  - now apply padStart_length.
  - exact Hall.
  - rewrite parseInt_decimal; [|intros E; apply (f_equal (@length Z)) in E;
      rewrite padStart_length in E by assumption; discriminate|assumption].
    f_equal. unfold padStart. rewrite map_app, map_repeat.
    change (digitOf 48) with 0. rewrite digitsValue_zeros. exact Hval.
Qed.

End Decimal.

(** ** The payload and its capacity check *)

Section Payload.

Lemma stringToBinary_app (a b : jsstring) :
  stringToBinary (a ++ b) = stringToBinary a ++ stringToBinary b.
Proof. unfold stringToBinary. now rewrite map_app, concat_app. Qed.

Lemma stringToBinary_length (s : jsstring) :
  latin1 s -> length (stringToBinary s) = (8 * length s)%nat.
Proof.
  induction 1 as [|c s Hc Hs IH]; [reflexivity|].
  change (stringToBinary (c :: s))
    with (padStart 8 48 (toString c 2) ++ stringToBinary s).
  rewrite length_app, IH.
  destruct (byteGroup_spec c Hc) as (-> & _). simpl. lia.
Qed.

Lemma stringToBinary_length_ge (s : jsstring) :
  (8 * length s <= length (stringToBinary s))%nat.
Proof.
  induction s as [|c s IH]; [simpl; lia|].
  change (stringToBinary (c :: s))
    with (padStart 8 48 (toString c 2) ++ stringToBinary s).
  rewrite length_app.
  pose proof (padStart_length_ge 8 48 (toString c 2)). simpl length. lia.
Qed.

Lemma stringToBinary_binary (s : jsstring) :
  latin1 s -> Forall binaryChar (stringToBinary s).
Proof.
  intros H. unfold stringToBinary. apply Forall_concat.
  eapply List.Forall_impl; [|apply stringToBinary_groups, H].
  now intros g [_ Hg].
Qed.

Lemma decimal_latin1 (s : jsstring) : Forall decimalDigit s -> latin1 s.
Proof.
  intros H. eapply List.Forall_impl; [|exact H].
  unfold decimalDigit. intros; lia.
Qed.

Lemma payload_length_ge (message : jsstring) :
  (128 + 8 * length message <= length (payload message))%nat.
Proof.
  unfold payload. rewrite stringToBinary_app, length_app.
  pose proof (stringToBinary_length_ge (lengthPrefix message)).
  pose proof (stringToBinary_length_ge message).
  pose proof (padStart_length_ge 16 48
                (toString (Z.of_nat (length message)) 10)).
  unfold lengthPrefix in *. lia.
Qed.

Lemma payload_spec (message : jsstring) :
  latin1 message -> Z.of_nat (length message) <= maxStringLength ->
  payload message
  = stringToBinary (lengthPrefix message) ++ stringToBinary message
  /\ length (stringToBinary (lengthPrefix message)) = 128%nat
  /\ length (payload message) = (128 + 8 * length message)%nat
  /\ Forall binaryChar (payload message).
Proof.
  intros Hm Hlen.
  assert (Hlen' : Z.of_nat (length message) < 10 ^ 16)
    by (unfold maxStringLength in Hlen; lia).
  destruct (lengthPrefix_spec message Hlen') as (H16 & Hdig & _).
  pose proof (decimal_latin1 _ Hdig) as Hpl.
  assert (H128 : length (stringToBinary (lengthPrefix message)) = 128%nat)
    by (rewrite stringToBinary_length, H16 by assumption; reflexivity).
  unfold payload. rewrite stringToBinary_app. repeat split.
  - exact H128.
  - rewrite length_app, H128, stringToBinary_length by assumption.
    reflexivity.
  - apply Forall_app. split; now apply stringToBinary_binary.
Qed.

(** The decision of [embedMessage], on the decoded bytes. *)
Lemma embedBits_fits (data : list Z) (message : jsstring) :
  (length (payload message) <= length data)%nat ->
  embedBits data message
  = (data, Ok (embedLoop (payload message) data, payload message)).
Proof.
  intros H. unfold embedBits. fold (payload message).
  destruct (Z.ltb_spec (Z.of_nat (length data))
              (Z.of_nat (length (payload message)))); [lia|reflexivity].
Qed.

Lemma embedBits_overflow (data : list Z) (message : jsstring) :
  (length data < length (payload message))%nat ->
  embedBits data message
  = (data, Throw (MessageTooLong (Z.of_nat (length data) / 8)
                    (Z.of_nat (length message)))).
Proof.
  intros H. unfold embedBits. fold (payload message).
  destruct (Z.ltb_spec (Z.of_nat (length data))
              (Z.of_nat (length (payload message)))); [reflexivity|lia].
Qed.

Lemma embedLoop_length (messageBinary : jsstring) (data : list Z) :
  length (embedLoop messageBinary data) = length data.
Proof. apply (embedPrefix_length messageBinary). Qed.

End Payload.

Section EmbedMessage.
Context {buffer : Type} `{SharpLaws buffer}.

(** When the payload fits, [embedMessage] returns a stego image that
    decodes to the bytes the loop wrote. *)
Lemma embedMessage_fits (cover : buffer) (data : list Z) (i : info)
    (message : jsstring) :
  ensureAlphaRaw cover = Ok (data, i) ->
  (length (payload message) <= length data)%nat ->
  exists stego meta,
    embedMessage cover message = Ok (stego, meta)
    /\ ensureAlphaRaw stego = Ok (embedLoop (payload message) data, i).
Proof.
  intros Hraw Hfit.
  destruct (decodable_metadata cover data i Hraw) as [m Hm].
  destruct (png_lossless cover data (embedLoop (payload message) data) i
              Hraw (embedLoop_length _ _)) as (png & Hpng & Hback).
  unfold embedMessage. rewrite Hm, Hraw. simpl.
  rewrite embedBits_fits by assumption. simpl. rewrite Hpng. simpl.
  eauto.
Qed.

Lemma embedMessage_overflow (cover : buffer) (data : list Z) (i : info)
    (message : jsstring) :
  ensureAlphaRaw cover = Ok (data, i) ->
  (length data < length (payload message))%nat ->
  embedMessage cover message
  = Throw (MessageTooLong (Z.of_nat (length data) / 8)
             (Z.of_nat (length message))).
Proof.
  intros Hraw Hover.
  destruct (decodable_metadata cover data i Hraw) as [m Hm].
  unfold embedMessage. rewrite Hm, Hraw. simpl.
  rewrite embedBits_overflow by assumption. reflexivity.
Qed.

End EmbedMessage.

#[export] Instance rawSharpLaws : SharpLaws (list Z).
Proof.
  split.
  - intros b data0 data i Hraw Hlen. exists data. split; [reflexivity|].
    simpl in *. injection Hraw as <- <-.
    unfold RawCodec.infoOf. now rewrite Hlen.
  - intros b data i _. eexists. reflexivity.
Qed.

(** C3, as amended.  For a cover that decodes to [data]: a message of
    code points 0..255 whose payload, 128 bits of header and 8 bits per
    character, is at most the number of raw bytes (equality included) is
    embedded; any message whose payload so counted exceeds the number of
    raw bytes is refused with the 'Message too long' error, and the decoded
    cover is then as it was.  For any message, the test is on the binary
    string built, which is longer when a code unit exceeds 255. *)
Theorem embed_capacity {buffer : Type} `{SharpLaws buffer}
    (cover : buffer) (data : list Z) (i : info) (message : jsstring) :
  ensureAlphaRaw cover = Ok (data, i) ->
  (latin1 message -> Z.of_nat (length message) <= maxStringLength ->
   (128 + 8 * length message <= length data)%nat ->
   exists stego meta, embedMessage cover message = Ok (stego, meta))
  /\ ((length data < 128 + 8 * length message)%nat ->
      embedMessage cover message
      = Throw (MessageTooLong (Z.of_nat (length data) / 8)
                 (Z.of_nat (length message)))
      /\ fst (embedBits data message) = data)
  /\ ((exists stego meta, embedMessage cover message = Ok (stego, meta))
      <-> (length (payload message) <= length data)%nat).
Proof.
  intros Hraw. split; [|split].
  - intros Hm Hmax Hfit.
    destruct (payload_spec message Hm Hmax) as (_ & _ & Hlen & _).
    destruct (embedMessage_fits cover data i message Hraw ltac:(lia))
      as (stego & meta & Hok & _).
    eauto.
  - intros Hover. pose proof (payload_length_ge message) as Hge.
    split.
    + apply (embedMessage_overflow cover data i); [assumption|lia].
    + rewrite embedBits_overflow by lia. reflexivity.
  - split.
    + intros (stego & meta & Hok).
      destruct (Nat.le_gt_cases (length (payload message)) (length data))
        as [Hfit|Hover]; [exact Hfit|].
      rewrite (embedMessage_overflow cover data i message Hraw Hover) in Hok.
      discriminate.
    + intros Hfit.
      destruct (embedMessage_fits cover data i message Hraw Hfit)
        as (stego & meta & Hok & _).
      eauto.
Qed.

Lemma embed_capacity_witness :
  (exists stego meta,
      embedMessage (repeat 255 136) [65] = Ok (stego, meta))
  /\ embedMessage (repeat 255 135) [65] = Throw (MessageTooLong 16 1)
  /\ fst (embedBits (repeat 255 135) [65]) = repeat 255 135.
Proof.
  assert (Hraw : forall b : list Z, ensureAlphaRaw b = Ok (b, infoOf b))
    by reflexivity.
  split.
  - apply (proj1 (embed_capacity (repeat 255 136) _ _ [65] (Hraw _))).
    + repeat constructor; lia.
    + vm_compute. discriminate.
    + simpl. lia.
  - apply (proj1 (proj2 (embed_capacity (repeat 255 135) _ _ [65] (Hraw _)))).
    simpl. lia.
Defined.

(** C3, as stated, fails on a message with a code unit above 255: the
    euro sign takes 14 bits, so a cover of 136 raw bytes, enough for
    128 + 8 bits, is refused. *)
Lemma embed_capacity_counterexample :
  128 + 8 * Z.of_nat (length [8364]) <= Z.of_nat (length (repeat 255 136))
  /\ embedMessage (repeat 255 136) [8364] = Throw (MessageTooLong 17 1).
Proof. split; [vm_compute; discriminate | vm_compute; reflexivity]. Qed.

(** ** Extraction *)

Section Extraction.

Lemma readLength_range (data : list Z) (L : Z) :
  readLength data = Some L -> 0 < L <= 10000.
Proof.
  unfold readLength. destruct (parseInt _ None) as [n|]; [|discriminate].
  destruct (Z.leb_spec n 0); simpl; [discriminate|].
  destruct (Z.ltb_spec 10000 n); simpl; [discriminate|].
  intros [= <-]. lia.
Qed.

Lemma extractBits_strict (data : list Z) (L : Z) :
  readLength data = Some L ->
  extractBits data false
  = Ok {| message := binaryToString (bodyBits data L);
          recoveryScore := 1;
          bitsRecovered := Z.of_nat (length (bodyBits data L));
          wasCorrupted := false |}.
Proof. intros Hr. unfold extractBits. rewrite Hr. reflexivity. Qed.

Lemma extractBits_tolerant_clean (data : list Z) (L : Z) :
  readLength data = Some L ->
  (0 < length (binaryToString (bodyBits data L)))%nat ->
  (7 # 10 <= printableRatio (binaryToString (bodyBits data L)))%Q ->
  extractBits data true
  = Ok {| message := binaryToString (bodyBits data L);
          recoveryScore :=
            recoveryAssessment (binaryToString (bodyBits data L));
          bitsRecovered := Z.of_nat (length (bodyBits data L));
          wasCorrupted := false |}.
Proof.
  intros Hr Hpos Hratio. unfold extractBits. rewrite Hr. simpl bind.
  fold (bodyBits data L).
  rewrite (proj2 (Nat.ltb_lt _ _) Hpos). simpl andb.
  unfold Qltb. rewrite (proj2 (Qle_bool_iff _ _) Hratio). reflexivity.
Qed.

Lemma seq_blocks (a n : nat) :
  seq a (8 * n) = concat (map (fun k => seq (a + 8 * k) 8) (seq 0 n)).
Proof.
  induction n as [|n IH]; [reflexivity|].
  replace (8 * S n)%nat with (8 * n + 8)%nat by lia.
  rewrite seq_app, IH, (seq_S n 0), map_app, concat_app.
  f_equal.
Qed.

Lemma bodyGroup_byteGroup (data : list Z) (k : nat) :
  byteGroup (bodyGroup data k).
Proof.
  split; [reflexivity|]. unfold bodyGroup.
  apply List.Forall_map, List.Forall_forall. intros i _.
  apply lsbChar_binary.
Qed.

Lemma bodyBits_groups (data : list Z) (n : nat) :
  bodyBits data (Z.of_nat n) = concat (map (bodyGroup data) (seq 0 n)).
Proof.
  unfold bodyBits. replace (Z.to_nat (Z.of_nat n * 8)) with (8 * n)%nat by lia.
  rewrite seq_blocks, concat_map, map_map. reflexivity.
Qed.

Lemma body_decoded (data : list Z) (n : nat) :
  binaryToString (bodyBits data (Z.of_nat n))
  = map (fun k => fromCharCode (parseInt (bodyGroup data k) (Some 2)))
      (seq 0 n).
Proof.
  rewrite bodyBits_groups, binaryToString_groups, map_map; [reflexivity|].
  apply List.Forall_map, List.Forall_forall. intros k _.
  apply bodyGroup_byteGroup.
Qed.

Lemma bodyGroup_outside (data : list Z) (k : nat) :
  (length data <= 128 + 8 * k)%nat -> bodyGroup data k = repeat 48 8.
Proof.
  intros Hk. unfold bodyGroup. simpl.
  rewrite !lsbChar_outside by lia. reflexivity.
Qed.

End Extraction.

(** C10.  When the header of a buffer decodes to a valid length [L] but the
    buffer has fewer than [128 + 8 * L] bytes, strict extraction returns
    normally, with the [8 * L] bits of the header's length (no recovered
    length): a bit past the end of the buffer reads as ['0'], the message
    has exactly [L] characters, and each character that lies wholly past
    the end is NUL. *)
Theorem short_buffer_reads_zero {buffer : Type} `{Sharp buffer}
    (stego : buffer) (data : list Z) (i : info) (L : Z) :
  ensureAlphaRaw stego = Ok (data, i) ->
  readLength data = Some L ->
  Z.of_nat (length data) < 128 + 8 * L ->
  0 < L <= 10000
  /\ (forall j : nat, (length data <= j)%nat -> lsbChar data j = 48)
  /\ exists r,
      extractMessage stego false = Ok r
      /\ bitsRecovered r = 8 * L
      /\ Z.of_nat (length (message r)) = L
      /\ forall k : nat,
          (k < length (message r))%nat ->
          (length data <= 128 + 8 * k)%nat ->
          message r !! k = Some 0.
Proof.
  intros Hraw Hread Hshort.
  pose proof (readLength_range data L Hread) as HL.
  split; [exact HL|]. split; [apply lsbChar_outside|].
  unfold extractMessage. rewrite Hraw. simpl bind.
  rewrite (extractBits_strict data L Hread).
  eexists. split; [reflexivity|]. simpl.
  replace L with (Z.of_nat (Z.to_nat L)) in * by lia.
  set (n := Z.to_nat L) in *.
  rewrite body_decoded. repeat split.
  - unfold bodyBits. rewrite length_map, length_seq. lia.
  - rewrite length_map, length_seq. reflexivity.
  - intros k Hk Hout. rewrite length_map, length_seq in Hk.
    rewrite list_lookup_fmap, lookup_seq_lt by assumption. simpl.
    rewrite bodyGroup_outside by assumption. reflexivity.
Qed.

Lemma short_buffer_reads_zero_witness :
  ensureAlphaRaw [0; 0; 1; 1; 0; 1; 0; 1]
  = Ok ([0; 0; 1; 1; 0; 1; 0; 1], infoOf [0; 0; 1; 1; 0; 1; 0; 1])
  /\ readLength [0; 0; 1; 1; 0; 1; 0; 1] = Some 5
  /\ Z.of_nat (length [0; 0; 1; 1; 0; 1; 0; 1]) < 128 + 8 * 5
  /\ exists r,
      extractMessage [0; 0; 1; 1; 0; 1; 0; 1] false = Ok r
      /\ message r = [0; 0; 0; 0; 0].
Proof.
  assert (Hraw : ensureAlphaRaw [0; 0; 1; 1; 0; 1; 0; 1]
                 = Ok ([0; 0; 1; 1; 0; 1; 0; 1],
                       infoOf [0; 0; 1; 1; 0; 1; 0; 1])) by reflexivity.
  assert (Hread : readLength [0; 0; 1; 1; 0; 1; 0; 1] = Some 5)
    by (vm_compute; reflexivity).
  assert (Hshort : Z.of_nat (length [0; 0; 1; 1; 0; 1; 0; 1]) < 128 + 8 * 5)
    by (simpl; lia).
  repeat split; try assumption.
  destruct (short_buffer_reads_zero _ _ _ _ Hraw Hread Hshort)
    as (_ & _ & r & Hext & _).
  exists r. split; [exact Hext|].
  vm_compute in Hext. now injection Hext as <-.
Defined.

(** ** Embedding, then extracting *)

Section RoundTrip.

Variable data : list Z.
Variable message : jsstring.
Hypothesis message_latin1 : latin1 message.
Hypothesis message_length : 1 <= Z.of_nat (length message) <= 10000.
Hypothesis message_fits : (128 + 8 * length message <= length data)%nat.

Local Abbreviation stegoData := (embedLoop (payload message) data).

Lemma message_below_max : Z.of_nat (length message) <= maxStringLength.
Proof. unfold maxStringLength. lia. Qed.

Lemma payload_fits : (length (payload message) <= length data)%nat.
Proof.
  destruct (payload_spec message message_latin1 message_below_max)
    as (_ & _ & -> & _).
  exact message_fits.
Qed.

(** The stego bytes carry the header in their first 128 least
    significant bits and the message in the next [8 * length]. *)
Lemma embedded_bits :
  map (lsbChar stegoData) (seq 0 128)
  = stringToBinary (lengthPrefix message)
  /\ bodyBits stegoData (Z.of_nat (length message))
     = stringToBinary message.
Proof.
  destruct (payload_spec message message_latin1 message_below_max)
    as (Hsplit & H128 & Hlen & Hbin).
  pose proof (embedLoop_read (payload message) Hbin data payload_fits)
    as Hread.
  remember stegoData as stego eqn:Hstego.
  rewrite Hlen, seq_app, map_app, Hsplit in Hread.
  apply app_inj_1 in Hread as [Hh Hb].
  - split; [exact Hh|]. unfold bodyBits.
    replace (Z.to_nat (Z.of_nat (length message) * 8))
      with (8 * length message)%nat by lia.
    exact Hb.
  - now rewrite length_map, length_seq, H128.
Qed.

Lemma embedded_readLength :
  readLength stegoData = Some (Z.of_nat (length message)).
Proof.
  destruct embedded_bits as [Hh _].
  assert (Hlt : Z.of_nat (length message) < 10 ^ 16) by lia.
  destruct (lengthPrefix_spec message Hlt) as (_ & Hdig & Hparse).
  unfold readLength. rewrite Hh.
  rewrite codec_inverse by now apply decimal_latin1.
  rewrite Hparse.
  destruct (Z.leb_spec (Z.of_nat (length message)) 0); [lia|].
  destruct (Z.ltb_spec 10000 (Z.of_nat (length message))); [lia|].
  reflexivity.
Qed.

Lemma embedded_body :
  binaryToString (bodyBits stegoData (Z.of_nat (length message))) = message.
Proof.
  destruct embedded_bits as [_ ->]. now apply codec_inverse.
Qed.

Lemma embedded_strict :
  exists r, extractBits stegoData false = Ok r
            /\ Lsb.message r = message /\ recoveryScore r = 1%Q.
Proof.
  rewrite (extractBits_strict _ _ embedded_readLength), embedded_body.
  eexists. repeat split.
Qed.

End RoundTrip.

Section RoundTripCodec.
Context {buffer : Type} `{SharpLaws buffer}.

(** A successful [embedMessage] had room for the payload, and its result
    decodes to the bytes of the embedding loop. *)
Lemma embedMessage_inv (cover stego : buffer) (data : list Z) (i : info)
    (message : jsstring) (meta : embedMetadata) :
  ensureAlphaRaw cover = Ok (data, i) ->
  embedMessage cover message = Ok (stego, meta) ->
  (length (payload message) <= length data)%nat
  /\ ensureAlphaRaw stego = Ok (embedLoop (payload message) data, i).
Proof.
  intros Hraw Hok.
  destruct (Nat.le_gt_cases (length (payload message)) (length data))
    as [Hfit|Hover].
  - split; [exact Hfit|].
    destruct (embedMessage_fits cover data i message Hraw Hfit)
      as (stego' & meta' & Hok' & Hback).
    rewrite Hok in Hok'. now injection Hok' as -> _.
  - rewrite (embedMessage_overflow cover data i message Hraw Hover) in Hok.
    discriminate.
Qed.

Lemma strict_roundtrip (cover : buffer) (data : list Z) (i : info)
    (message : jsstring) :
  ensureAlphaRaw cover = Ok (data, i) ->
  latin1 message ->
  1 <= Z.of_nat (length message) <= 10000 ->
  (128 + 8 * length message <= length data)%nat ->
  exists stego meta r,
    embedMessage cover message = Ok (stego, meta)
    /\ extractMessage stego false = Ok r
    /\ Lsb.message r = message
    /\ recoveryScore r = 1%Q.
Proof.
  intros Hraw Hm Hlen Hfit.
  pose proof (payload_fits data message Hm Hlen Hfit) as Hp.
  destruct (embedMessage_fits cover data i message Hraw Hp)
    as (stego & meta & Hok & Hback).
  destruct (embedded_strict data message Hm Hlen Hfit) as (r & Hr & Hmsg & Hs).
  exists stego, meta, r. split; [exact Hok|].
  unfold extractMessage. rewrite Hback. simpl bind. auto.
Qed.

End RoundTripCodec.

(** C1, as amended.  For every cover and every message of 1 to 10000
    characters with code points 0..255 whose payload (128 bits of header
    and 8 bits per character) is at most the number of raw bytes of the
    cover, strict extraction from the stego image that [embedMessage]
    returns gives the message back, with a recovery score of 1. *)
Theorem embed_extract_roundtrip {buffer : Type} `{SharpLaws buffer}
    (cover : buffer) (data : list Z) (i : info) (message : jsstring) :
  ensureAlphaRaw cover = Ok (data, i) ->
  latin1 message ->
  1 <= Z.of_nat (length message) <= 10000 ->
  (128 + 8 * length message <= length data)%nat ->
  exists stego meta r,
    embedMessage cover message = Ok (stego, meta)
    /\ extractMessage stego false = Ok r
    /\ Lsb.message r = message
    /\ (recoveryScore r == 1)%Q.
Proof.
  intros Hraw Hm Hlen Hfit.
  destruct (strict_roundtrip cover data i message Hraw Hm Hlen Hfit)
    as (stego & meta & r & H1 & H2 & H3 & H4).
  exists stego, meta, r. rewrite H4. repeat split; assumption.
Qed.

Lemma embed_extract_roundtrip_witness :
  exists stego meta r,
    embedMessage (repeat 255 200) [72; 69; 76; 76; 79] = Ok (stego, meta)
    /\ extractMessage stego false = Ok r
    /\ Lsb.message r = [72; 69; 76; 76; 79]
    /\ (recoveryScore r == 1)%Q.
Proof.
  assert (Hraw : ensureAlphaRaw (repeat 255 200)
                 = Ok (repeat 255 200, infoOf (repeat 255 200)))
    by reflexivity.
  assert (Hm : latin1 [72; 69; 76; 76; 79]) by (repeat constructor; lia).
  assert (Hlen : 1 <= Z.of_nat (length [72; 69; 76; 76; 79]) <= 10000)
    by (simpl; lia).
  assert (Hfit : (128 + 8 * length [72; 69; 76; 76; 79]
                  <= length (repeat 255 200))%nat)
    by (rewrite repeat_length; simpl; lia).
  exact (embed_extract_roundtrip _ _ _ _ Hraw Hm Hlen Hfit).
Defined.

(** C1, as stated, fails on the empty message: it fits any cover of 128
    raw bytes and is embedded, and strict extraction then rejects the
    length 0 it reads. *)
Lemma embed_extract_roundtrip_counterexample :
  latin1 []
  /\ 128 + 8 * Z.of_nat (length (@nil Z)) <= Z.of_nat (length (repeat 255 128))
  /\ exists stego meta,
      embedMessage (repeat 255 128) [] = Ok (stego, meta)
      /\ extractMessage stego false = Throw InvalidLength.
Proof.
  split; [constructor|]. split; [vm_compute; discriminate|].
  exists (concat (repeat [254; 254; 255; 255; 254; 254; 254; 254] 16)).
  exists {| originalSize := 128; stegoSize := 128; em_messageLength := 0;
            bitsUsed := 128; capacity := 128 |}.
  split; vm_compute; reflexivity.
Qed.

(** ** The recovery score of tolerant mode *)

Section RecoveryScore.

Lemma ofNat_nonneg (n : nat) : (0 <= ofNat n)%Q.
Proof. unfold ofNat, Qle. simpl. lia. Qed.

Lemma ofNat_pos (n : nat) : (0 < n)%nat -> (0 < ofNat n)%Q.
Proof. intros Hn. unfold ofNat, Qlt. simpl. lia. Qed.

Lemma printableRatio_nonneg (message : jsstring) :
  (0 <= printableRatio message)%Q.
Proof.
  unfold printableRatio.
  destruct (length message) as [|n] eqn:E.
  - unfold Qdiv, Qinv. simpl. rewrite Qmult_0_r. apply Qle_refl.
  - apply Qle_shift_div_l; [apply ofNat_pos; lia|].
    rewrite Qmult_0_l. apply ofNat_nonneg.
Qed.

(** The score is never negative. *)
Lemma recoveryAssessment_nonneg (message : jsstring) :
  (0 <= recoveryAssessment message)%Q.
Proof.
  unfold recoveryAssessment.
  set (p := if (0 <? length message)%nat then printableRatio message else 0%Q).
  assert (Hp : (0 <= p)%Q).
  { unfold p. destruct (0 <? length message)%nat;
      [apply printableRatio_nonneg|apply Qle_refl]. }
  assert (Hl : (0 <= ofNat (length message) / 30)%Q).
  { apply Qle_shift_div_l; [reflexivity|].
    rewrite Qmult_0_l. apply ofNat_nonneg. }
  destruct (Qgeb p (9 # 10)).
  - unfold mathMin. destruct (Qle_bool 1 _) eqn:E; [discriminate|].
    apply Qle_shift_div_l; [apply ofNat_pos; lia|].
    rewrite Qmult_0_l. apply ofNat_nonneg.
  - destruct (Qgeb p (5 # 10)); nra.
Qed.




End RecoveryScore.

(** ** Bit corruption at rate 0 *)

Section ZeroCorruption.
Context {buffer : Type} `{SharpLaws buffer}.
Variable rnd : entropy.




(** Through the dispatcher a rate of 0 is falsy: [transform.rate ||
    params.rate || 0.3] turns it into the default 0.3. *)
Lemma dispatch_rate_zero (b : buffer) (k : nat) :
  Transforms.dispatch rnd b (step "bit-corruption" None (Some 0%Q)) k
  = Transforms.applyBitCorruption rnd b (3 # 10) k.
Proof. reflexivity. Qed.

End ZeroCorruption.




(** C6: the score of tolerant mode can exceed 1.  A message of 50
    characters, 40 printable and 10 not (the letter e with an acute
    accent), is extracted intact; with a printable ratio of 0.8 it takes
    the middle branch, which has no upper clamp, and scores
    0.8 * 0.6 + (50 / 30) * 0.4, about 1.147. *)
Theorem recovery_score_exceeds_one :
  exists stego meta r,
    embedMessage (repeat 0 528) (repeat 65 40 ++ repeat 233 10)
    = Ok (stego, meta)
    /\ extractMessage stego true = Ok r
    /\ Lsb.message r = repeat 65 40 ++ repeat 233 10
    /\ (recoveryScore r == 172 # 150)%Q
    /\ (1 < recoveryScore r)%Q.
Proof.
  exists (embedLoop (payload (repeat 65 40 ++ repeat 233 10)) (repeat 0 528)).
  exists {| originalSize := 528; stegoSize := 528; em_messageLength := 50;
            bitsUsed := 528; capacity := 528 |}.
  exists {| message := repeat 65 40 ++ repeat 233 10;
            recoveryScore := 172000 # 150000;
            bitsRecovered := 400; wasCorrupted := false |}.
  by_evaluation.
Qed.

(** ** The robustness runner *)

Import Transforms Runner.

Section RunnerFacts.
Context {buffer : Type} `{Sharp buffer}.
Variable rnd : entropy.
Variable demoText : jsstring.

Lemma extractBits_tolerant_score (data : list Z) (ext : extraction) :
  extractBits data true = Ok ext ->
  exists m, recoveryScore ext = recoveryAssessment m.
Proof.
  unfold extractBits.
  generalize (attemptLengthRecovery data). intros recover.
  destruct (readLength data) as [n|]; cbv beta iota zeta delta [bind];
    (destruct (negb false && true && _);
     [destruct (Qltb _ _); [destruct (0 <? _)%nat|]|]);
    intros [= <-]; eexists; cbn [recoveryScore]; reflexivity.
Qed.

Lemma extractMessage_tolerant_nonneg (b : buffer) (ext : extraction) :
  extractMessage b true = Ok ext -> (0 <= recoveryScore ext)%Q.
Proof.
  unfold extractMessage. destruct (ensureAlphaRaw b) as [[data i]|e];
    simpl bind; [|discriminate].
  intros Hext. destruct (extractBits_tolerant_score data ext Hext) as [m ->].
  apply recoveryAssessment_nonneg.
Qed.

Lemma transformLoop_steps (hidden : option jsstring) (todo : list transform) :
  forall (current : imageObject buffer) (pushed steps : list stepRecord)
         (k k' : nat),
    transformLoop rnd hidden todo current pushed k = Ok (steps, k') ->
    exists new, steps = pushed ++ new /\ Forall2 (recorded hidden) todo new.
Proof.
  induction todo as [|t todo IH]; intros current pushed steps k k'; simpl.
  - intros [= <- <-]. exists []. rewrite app_nil_r. split; constructor.
  - destruct (applyTransform rnd current t k) as [[image k1]|e];
      simpl bind; [|discriminate].
    intros Hloop. destruct (IH _ _ _ _ _ Hloop) as (new & -> & Hnew).
    eexists (_ :: new). rewrite <- app_assoc. split; [reflexivity|].
    constructor; [|exact Hnew]. eexists. reflexivity.
Qed.

Lemma recorded_params (hidden : option jsstring) (todo : list transform)
    (new : list stepRecord) :
  Forall2 (recorded hidden) todo new -> map s_params new = todo.
Proof.
  induction 1 as [|t r todo new [b ->] _ IH]; [reflexivity|].
  simpl. rewrite IH. f_equal.
  destruct (extractMessage b true); reflexivity.
Qed.

Lemma recorded_names (hidden : option jsstring) (todo : list transform)
    (new : list stepRecord) :
  Forall2 (recorded hidden) todo new -> map s_name new = map name todo.
Proof.
  induction 1 as [|t r todo new [b ->] _ IH]; [reflexivity|].
  simpl. rewrite IH. f_equal.
  destruct (extractMessage b true); reflexivity.
Qed.

Lemma processSample_steps (cfg : config) (i : nat)
    (image : imageObject buffer) (k k' : nat) (s : sample) :
  processSample rnd demoText cfg i image k = Ok (s, k') ->
  hiddenMessage s <> Some []
  /\ Forall2 (recorded (hiddenMessage s)) (cfg_transforms cfg) (transforms s)
  /\ robustnessScore s
     = (if (0 <? length (cfg_transforms cfg))%nat
        then (totalRecoveryScore (transforms s)
              / ofNat (length (cfg_transforms cfg)))%Q
        else 1%Q).
Proof.
  unfold processSample.
  destruct (dryRun rnd demoText image (cfg_message cfg) k) as [sr k1].
  destruct (transformLoop rnd _ _ _ [] k1) as [[steps k2]|e] eqn:Hloop;
    simpl bind; [|discriminate].
  intros [= <- <-]. simpl.
  destruct (transformLoop_steps _ _ _ _ _ _ _ Hloop) as (new & -> & Hnew).
  repeat split.
  - unfold truthy. destruct (originalMessage sr) as [[|c m]|]; discriminate.
  - exact Hnew.
Qed.

(** Every sample pushed by the loop over the images satisfies what
    [processSample] guarantees. *)
Lemma sampleLoop_samples (cfg : config) (P : sample -> Prop) :
  (forall i image k s k',
      processSample rnd demoText cfg i image k = Ok (s, k') -> P s) ->
  forall images i pushed k,
    Forall P pushed ->
    Forall P (fst (sampleLoop rnd demoText cfg images i pushed k)).
Proof.
  intros Hstep. induction images as [|image images IH];
    intros i pushed k Hpushed; simpl; [exact Hpushed|].
  destruct (processSample rnd demoText cfg i image k) as [[s k']|e] eqn:Hs;
    [|exact Hpushed].
  apply IH. apply Forall_app. split; [exact Hpushed|].
  constructor; [|constructor]. exact (Hstep _ _ _ _ _ Hs).
Qed.

Lemma runDryRun_samples (cfg : config) (P : sample -> Prop) :
  (forall i image k s k',
      processSample rnd demoText cfg i image k = Ok (s, k') -> P s) ->
  forall dataset k,
    Forall P (samples (resultsOf (runDryRun rnd demoText cfg dataset k))).
Proof.
  intros Hstep dataset k. unfold runDryRun.
  destruct dataset as [images|e]; [|constructor].
  pose proof (sampleLoop_samples cfg P Hstep images 0%nat [] k
                (List.Forall_nil P)) as Hall.
  destruct (sampleLoop rnd demoText cfg images 0 [] k) as [pushed [e|]];
    exact Hall.
Qed.

End RunnerFacts.

(** C5.  In the results of a run, returned or saved on failure, every
    sample's list of step results has exactly one entry per configured
    transform, in the configured order, whatever each extraction gave. *)
Theorem step_results_follow_chain {buffer : Type} `{Sharp buffer}
    (rnd : entropy) (demoText : jsstring) (cfg : config)
    (dataset : result (list (imageObject buffer))) (k : nat) (s : sample) :
  In s (samples (resultsOf (runDryRun rnd demoText cfg dataset k))) ->
  length (transforms s) = length (cfg_transforms cfg)
  /\ map s_params (transforms s) = cfg_transforms cfg
  /\ map s_name (transforms s) = map name (cfg_transforms cfg).
Proof.
  revert s. apply List.Forall_forall.
  apply runDryRun_samples. intros i image k0 s k' Hs.
  destruct (processSample_steps rnd demoText cfg i image k0 k' s Hs)
    as (_ & Hrec & _).
  split; [symmetry; exact (Forall2_length _ _ _ Hrec)|].
  split; [exact (recorded_params _ _ _ Hrec)|exact (recorded_names _ _ _ Hrec)].
Qed.

Section RobustnessScore.
Context {buffer : Type} `{Sharp buffer}.

(** On a recorded step, the flags the loop reads and the texts the step
    records give the same contribution. *)
Lemma addContribution_recorded (hidden : option jsstring) (t : transform)
    (r : stepRecord) (total : Q) :
  hidden <> Some [] -> recorded hidden t r ->
  (addContribution total r == total + stepContribution r)%Q.
Proof.
  intros Hhidden [b ->]. unfold addContribution, stepContribution.
  destruct (extractMessage b true) as [ext|err] eqn:Hext; simpl.
  - pose proof (extractMessage_tolerant_nonneg b ext Hext) as Hscore.
    destruct (message ext) as [|c m] eqn:Hm.
    + rewrite bool_decide_eq_false_2 by congruence. simpl. ring.
    + destruct (decide (Some (c :: m) = hidden)) as [E|E].
      * rewrite !bool_decide_eq_true_2 by congruence. reflexivity.
      * rewrite !bool_decide_eq_false_2 by congruence. simpl.
        unfold Qltb. destruct (Qle_bool (recoveryScore ext) 0) eqn:Hle; simpl.
        -- apply Qle_bool_iff in Hle.
           assert (recoveryScore ext == 0)%Q by (apply Qle_antisym; assumption).
           lra.
        -- reflexivity.
  - ring.
Qed.

Lemma fold_addContribution (hidden : option jsstring)
    (todo : list transform) (steps : list stepRecord) :
  hidden <> Some [] -> Forall2 (recorded hidden) todo steps ->
  forall total,
    (fold_left addContribution steps total
     == total + sumQ (map stepContribution steps))%Q.
Proof.
  intros Hhidden. induction 1 as [|t r todo steps Hr _ IH]; intros total; simpl.
  - ring.
  - rewrite IH, (addContribution_recorded hidden t r total Hhidden Hr). ring.
Qed.

Lemma processSample_score (rnd : entropy) (demoText : jsstring)
    (cfg : config) (i : nat) (image : imageObject buffer) (k k' : nat)
    (s : sample) :
  processSample rnd demoText cfg i image k = Ok (s, k') ->
  length (transforms s) = length (cfg_transforms cfg)
  /\ (length (cfg_transforms cfg) = 0%nat -> (robustnessScore s == 1)%Q)
  /\ ((0 < length (cfg_transforms cfg))%nat ->
      (robustnessScore s
       == sumQ (map stepContribution (transforms s))
          / ofNat (length (cfg_transforms cfg)))%Q).
Proof.
  intros Hs.
  destruct (processSample_steps rnd demoText cfg i image k k' s Hs)
    as (Hhidden & Hrec & ->).
  split; [symmetry; exact (Forall2_length _ _ _ Hrec)|]. split.
  - intros ->. reflexivity.
  - intros Hpos. rewrite (proj2 (Nat.ltb_lt _ _) Hpos).
    unfold totalRecoveryScore.
    rewrite (fold_addContribution _ _ _ Hhidden Hrec 0%Q).
    rewrite Qplus_0_l. reflexivity.
Qed.

End RobustnessScore.

(** C8.  For every sample of a run with [N] configured transforms, the
    robustness score is the sum over the recorded steps of the step's
    contribution (1 when the extracted text is the hidden message, the
    recovery score when it is another non-empty text, 0 when extraction
    failed or returned nothing) divided by [N]; it is 1 when [N = 0]. *)
Theorem robustness_score_mean {buffer : Type} `{Sharp buffer}
    (rnd : entropy) (demoText : jsstring) (cfg : config)
    (dataset : result (list (imageObject buffer))) (k : nat) (s : sample) :
  In s (samples (resultsOf (runDryRun rnd demoText cfg dataset k))) ->
  length (transforms s) = length (cfg_transforms cfg)
  /\ (length (cfg_transforms cfg) = 0%nat -> (robustnessScore s == 1)%Q)
  /\ ((0 < length (cfg_transforms cfg))%nat ->
      (robustnessScore s
       == sumQ (map stepContribution (transforms s))
          / ofNat (length (cfg_transforms cfg)))%Q).
Proof.
  revert s. apply List.Forall_forall.
  apply runDryRun_samples. intros i image k0 s k' Hs.
  exact (processSample_score rnd demoText cfg i image k0 k' s Hs).
Qed.

(** ** Failures during a run *)

Section RunFailures.
Context {buffer : Type} `{Sharp buffer}.
Variable rnd : entropy.
Variable demoText : jsstring.

(** The loop over the images stops at the first sample that throws: the
    samples pushed are those of the images before it. *)
Lemma sampleLoop_thrown (cfg : config) (images : list (imageObject buffer)) :
  forall (i : nat) (pushed saved : list sample) (k : nat) (e : error),
    sampleLoop rnd demoText cfg images i pushed k = (saved, Some e) ->
    exists before image after k1,
      images = before ++ image :: after
      /\ processSample rnd demoText cfg (i + length before) image k1
         = Throw e
      /\ length saved = (length pushed + length before)%nat.
Proof.
  induction images as [|image images IH]; intros i pushed saved k e; simpl.
  - discriminate.
  - destruct (processSample rnd demoText cfg i image k) as [[s k']|e'] eqn:Hs.
    + intros Hloop.
      destruct (IH _ _ _ _ _ Hloop)
        as (before & image' & after & k1 & -> & Hthrow & Hlen).
      exists (image :: before), image', after, k1. simpl.
      split; [reflexivity|]. split.
      * rewrite <- Hthrow. f_equal. lia.
      * rewrite Hlen, length_app. simpl. lia.
    + intros [= <- <-]. exists [], image, images, k. simpl.
      rewrite Nat.add_0_r. repeat split; [exact Hs|lia].
Qed.

(** A sample throws only where a transform application does. *)
Lemma transformLoop_thrown (hidden : option jsstring)
    (todo : list transform) :
  forall (current : imageObject buffer) (pushed : list stepRecord)
         (k : nat) (e : error),
    transformLoop rnd hidden todo current pushed k = Throw e ->
    exists t image k0,
      In t todo /\ applyTransform rnd image t k0 = Throw e.
Proof.
  induction todo as [|t todo IH]; intros current pushed k e; simpl.
  - discriminate.
  - destruct (applyTransform rnd current t k) as [[image k1]|e'] eqn:Ht;
      simpl bind.
    + intros Hloop. destruct (IH _ _ _ _ Hloop) as (t' & im & k0 & Hin & Hth).
      exists t', im, k0. split; [right; exact Hin|exact Hth].
    + intros [= <-]. exists t, current, k. split; [left; reflexivity|exact Ht].
Qed.

Lemma processSample_thrown (cfg : config) (i : nat)
    (image : imageObject buffer) (k : nat) (e : error) :
  processSample rnd demoText cfg i image k = Throw e ->
  exists t current k0,
    In t (cfg_transforms cfg) /\ applyTransform rnd current t k0 = Throw e.
Proof.
  unfold processSample.
  destruct (dryRun rnd demoText image (cfg_message cfg) k) as [sr k1].
  destruct (transformLoop rnd _ _ _ [] k1) as [[steps k2]|e'] eqn:Hloop;
    simpl bind; [discriminate|].
  intros [= <-]. exact (transformLoop_thrown _ _ _ _ _ _ Hloop).
Qed.

Lemma runDryRun_thrown (cfg : config) (images : list (imageObject buffer))
    (k : nat) (e : error) (saved : results) :
  runDryRun rnd demoText cfg (Ok images) k = Thrown e saved ->
  r_status saved = failed
  /\ r_error saved = Some e
  /\ exists before image after k1,
      images = before ++ image :: after
      /\ processSample rnd demoText cfg (length before) image k1 = Throw e
      /\ length (samples saved) = length before.
Proof.
  unfold runDryRun.
  destruct (sampleLoop rnd demoText cfg images 0 [] k) as [pushed [e'|]] eqn:Hl;
    [|discriminate].
  intros [= <- <-]. simpl. repeat split.
  destruct (sampleLoop_thrown _ _ _ _ _ _ _ Hl)
    as (before & image & after & k1 & Himg & Hthrow & Hlen).
  exists before, image, after, k1. auto.
Qed.

(** An extraction that throws is recorded and the chain goes on. *)
Lemma transformLoop_extraction_error (hidden : option jsstring)
    (t : transform) (todo : list transform)
    (current image : imageObject buffer) (pushed : list stepRecord)
    (k k1 : nat) (err : error) :
  applyTransform rnd current t k = Ok (image, k1) ->
  extractMessage (io_buffer image) true = Throw err ->
  transformLoop rnd hidden (t :: todo) current pushed k
  = transformLoop rnd hidden todo image
      (pushed ++ [recordStep hidden t (Throw err)]) k1
  /\ s_error (recordStep hidden t (Throw err)) = Some err
  /\ extractionSuccess (recordStep hidden t (Throw err)) = false.
Proof.
  intros Ht Hext. simpl. rewrite Ht. simpl bind. rewrite Hext.
  repeat split.
Qed.

(** A JPEG quality outside 1..100 (and not 0, which is read as absent)
    makes the transform application throw. *)
Lemma applyTransform_jpeg_range (image : imageObject buffer) (q : Q)
    (k : nat) :
  (q < 1 \/ 100 < q)%Q -> ~ (q == 0)%Q ->
  applyTransform rnd image
    {| name := Some "jpeg"%string; type := None; params := None;
       quality := Some q; sigma := None; scale := None;
       t_width := None; t_height := None; rate := None |} k
  = Throw JpegQualityRange.
Proof.
  intros Hq Hnz. unfold applyTransform, dispatch. simpl.
  unfold orDefault, orElse.
  assert (Hz : Qeq_bool q 0 = false).
  { destruct (Qeq_bool q 0) eqn:E; [|reflexivity].
    apply Qeq_bool_iff in E. contradiction. }
  rewrite Hz. simpl. rewrite Hz. unfold applyJpeg, Transforms.pure, Qltb.
  assert (Hr : negb (Qle_bool 1 q) || negb (Qle_bool q 100) = true).
  { destruct Hq as [Hq|Hq].
    - destruct (Qle_bool 1 q) eqn:E; [|reflexivity].
      apply Qle_bool_iff in E. lra.
    - destruct (Qle_bool q 100) eqn:E; [|apply orb_true_r].
      apply Qle_bool_iff in E. lra. }
  rewrite Hr. reflexivity.
Qed.

(** The other direction: an application that throws ends the chain of
    its sample, and a sample that throws ends the run. *)
Lemma transformLoop_prefix (hidden : option jsstring)
    (before rest : list transform) :
  forall (current mid : imageObject buffer) (pushed : list stepRecord)
         (results chain : list (Chain.applied buffer)) (k k2 : nat),
    Chain.chainLoop rnd before current results k = Ok (mid, chain, k2) ->
    exists new,
      transformLoop rnd hidden (before ++ rest) current pushed k
      = transformLoop rnd hidden rest mid (pushed ++ new) k2.
Proof.
  induction before as [|t before IH];
    intros current mid pushed results chain k k2 Hchain.
  - cbn [Chain.chainLoop] in Hchain. injection Hchain as -> _ ->.
    exists []. now rewrite app_nil_r.
  - cbn [Chain.chainLoop] in Hchain. unfold Chain.applyTransformResult in Hchain.
    cbn [app transformLoop].
    destruct (applyTransform rnd current t k) as [[image k1]|e];
      cbn [bind] in Hchain |- *; [|discriminate].
    cbn [Chain.a_image] in Hchain.
    destruct (IH _ _ (pushed ++ [recordStep hidden t
                                   (extractMessage (io_buffer image) true)])
                 _ _ _ _ Hchain) as [new Hnew].
    eexists. rewrite Hnew, <- app_assoc. reflexivity.
Qed.

Lemma transformLoop_throws (hidden : option jsstring)
    (before after : list transform) (t : transform)
    (current mid : imageObject buffer) (pushed : list stepRecord)
    (chain : list (Chain.applied buffer)) (k k2 : nat) (e : error) :
  Chain.applyTransformChain rnd current before k = Ok (mid, chain, k2) ->
  applyTransform rnd mid t k2 = Throw e ->
  transformLoop rnd hidden (before ++ t :: after) current pushed k = Throw e.
Proof.
  intros Hchain Ht.
  destruct (transformLoop_prefix hidden before (t :: after) _ _ pushed _ _
              _ _ Hchain) as [new ->].
  cbn [transformLoop]. rewrite Ht. reflexivity.
Qed.

Lemma processSample_throws (cfg : config) (i : nat)
    (image mid : imageObject buffer) (k k1 k2 : nat)
    (sr : stegoResult buffer) (before after : list transform)
    (t : transform) (chain : list (Chain.applied buffer)) (e : error) :
  dryRun rnd demoText image (cfg_message cfg) k = (sr, k1) ->
  cfg_transforms cfg = before ++ t :: after ->
  Chain.applyTransformChain rnd
    match stegoImage sr with
    | Some b => {| io_name := io_name image; io_buffer := b |}
    | None => image
    end before k1 = Ok (mid, chain, k2) ->
  applyTransform rnd mid t k2 = Throw e ->
  processSample rnd demoText cfg i image k = Throw e.
Proof.
  intros Hdry Hsplit Hchain Ht. unfold processSample.
  rewrite Hdry, Hsplit.
  rewrite (transformLoop_throws _ before after t _ mid [] chain k1 k2 e
             Hchain Ht).
  reflexivity.
Qed.

Lemma sampleLoop_app (cfg : config)
    (before rest : list (imageObject buffer)) :
  forall (i : nat) (pushed : list sample) (k : nat),
    sampleLoop rnd demoText cfg (before ++ rest) i pushed k
    = match sampleLoop rnd demoText cfg before i pushed k with
      | (done, None) =>
          sampleLoop rnd demoText cfg rest (i + length before) done
            (RunParts.drawsAfter rnd demoText cfg before i k)
      | (done, Some e) => (done, Some e)
      end.
Proof.
  induction before as [|image before IH]; intros i pushed k.
  - cbn. now rewrite Nat.add_0_r.
  - cbn [app sampleLoop RunParts.drawsAfter length].
    destruct (processSample rnd demoText cfg i image k) as [[s k']|e];
      [|reflexivity].
    rewrite IH. replace (S i + length before)%nat
      with (i + S (length before))%nat by lia.
    reflexivity.
Qed.

Lemma runDryRun_throws (cfg : config)
    (before after : list (imageObject buffer)) (image : imageObject buffer)
    (k : nat) (e : error) (r : results) :
  runDryRun rnd demoText cfg (Ok before) k = Returned r ->
  processSample rnd demoText cfg (length before) image
    (RunParts.drawsAfter rnd demoText cfg before 0 k) = Throw e ->
  runDryRun rnd demoText cfg (Ok (before ++ image :: after)) k
  = Thrown e {| samples := samples r; r_status := failed;
                r_error := Some e |}.
Proof.
  unfold runDryRun. rewrite sampleLoop_app.
  destruct (sampleLoop rnd demoText cfg before 0 [] k) as [done [e'|]];
    [discriminate|].
  intros [= <-] Hthrow. cbn [sampleLoop Nat.add samples].
  rewrite Hthrow. reflexivity.
Qed.

End RunFailures.

(** C4, as amended.  In a run over several samples, an extraction that
    fails after a transform is caught at that step: the step is recorded
    with the error and the chain continues.  A failure thrown by a
    transform application, such as a JPEG quality outside 1..100, is not
    caught at the sample's boundary.  Whenever an application throws, after
    any number of transforms that went through, the sample throws the same
    error; whenever a sample throws, after any number of samples that
    completed, the run throws it too, saves its results with status failed
    and the error, holding only the samples completed before, and is the
    same whatever images follow: they are not processed.  Conversely a
    sample throws only where a transform application does, and a run only
    where a sample does. *)
Theorem transform_failure_ends_run {buffer : Type} `{Sharp buffer}
    (rnd : entropy) (demoText : jsstring) (cfg : config) :
  (forall hidden t todo (current image : imageObject buffer) pushed k k1 err,
      applyTransform rnd current t k = Ok (image, k1) ->
      extractMessage (io_buffer image) true = Throw err ->
      transformLoop rnd hidden (t :: todo) current pushed k
      = transformLoop rnd hidden todo image
          (pushed ++ [recordStep hidden t (Throw err)]) k1
      /\ s_error (recordStep hidden t (Throw err)) = Some err
      /\ extractionSuccess (recordStep hidden t (Throw err)) = false)
  /\ (forall (image : imageObject buffer) q k,
         (q < 1 \/ 100 < q)%Q -> ~ (q == 0)%Q ->
         applyTransform rnd image
           {| name := Some "jpeg"%string; type := None; params := None;
              quality := Some q; sigma := None; scale := None;
              t_width := None; t_height := None; rate := None |} k
         = Throw JpegQualityRange)
  /\ (forall i (image : imageObject buffer) k e,
         processSample rnd demoText cfg i image k = Throw e ->
         exists t current k0,
           In t (cfg_transforms cfg)
           /\ applyTransform rnd current t k0 = Throw e)
  /\ (forall (images : list (imageObject buffer)) k e saved,
         runDryRun rnd demoText cfg (Ok images) k = Thrown e saved ->
         r_status saved = failed
         /\ r_error saved = Some e
         /\ exists before image after k1,
             images = before ++ image :: after
             /\ processSample rnd demoText cfg (length before) image k1
                = Throw e
             /\ length (samples saved) = length before)
  /\ (forall i (image mid : imageObject buffer) k k1 k2 sr before t after
            chain e,
         dryRun rnd demoText image (cfg_message cfg) k = (sr, k1) ->
         cfg_transforms cfg = before ++ t :: after ->
         Chain.applyTransformChain rnd
           match stegoImage sr with
           | Some b => {| io_name := io_name image; io_buffer := b |}
           | None => image
           end before k1 = Ok (mid, chain, k2) ->
         applyTransform rnd mid t k2 = Throw e ->
         processSample rnd demoText cfg i image k = Throw e)
  /\ (forall (before after : list (imageObject buffer))
            (image : imageObject buffer) k e r,
         runDryRun rnd demoText cfg (Ok before) k = Returned r ->
         processSample rnd demoText cfg (length before) image
           (RunParts.drawsAfter rnd demoText cfg before 0 k) = Throw e ->
         runDryRun rnd demoText cfg (Ok (before ++ image :: after)) k
         = Thrown e {| samples := samples r; r_status := failed;
                       r_error := Some e |}).
Proof.
  split; [|split; [|split; [|split; [|split]]]].
  - intros. eapply transformLoop_extraction_error; eassumption.
  - intros. now apply applyTransform_jpeg_range.
  - intros. eapply processSample_thrown; eassumption.
  - intros. eapply runDryRun_thrown; eassumption.
  - intros. eapply processSample_throws; eassumption.
  - intros. eapply runDryRun_throws; eassumption.
Qed.

(** ** Image metrics on identical buffers *)

Import Metrics.

Section MetricsFacts.

Lemma squaredError_same (data : list Z) (n : nat) :
  (n <= length data)%nat ->
  fold_left (squaredErrorStep data data) (seq 0 n) (Some 0) = Some 0.
Proof.
  induction n as [|n IH]; intros Hn; [reflexivity|].
  rewrite seq_S, fold_left_app, IH by lia. simpl.
  unfold squaredErrorStep.
  destruct (lookup_lt_is_Some_2 data n ltac:(lia)) as [a ->].
  f_equal. lia.
Qed.

Lemma meanSquaredError_same (data : list Z) :
  data <> [] -> exists m, meanSquaredError data data = Some m /\ (m == 0)%Q.
Proof.
  intros Hne. unfold meanSquaredError.
  rewrite squaredError_same by lia.
  destruct data as [|a data]; [congruence|]. simpl Nat.eqb.
  eexists. split; [reflexivity|].
  unfold Qdiv. simpl inject_Z. apply Qmult_0_l.
Qed.

(** [Infinity] is returned exactly when the mean squared error is 0;
    otherwise the result is [10 * log10(255^2 / mse)], or NaN with it. *)
Lemma psnrOfMse_spec (mse : option Q) :
  (psnrOfMse mse = PsnrInfinity <-> exists m, mse = Some m /\ (m == 0)%Q)
  /\ (forall ratio, psnrOfMse mse = PsnrDecibels ratio ->
        exists m, mse = Some m /\ ~ (m == 0)%Q
                  /\ ratio = ((255 * 255) / m)%Q).
Proof.
  unfold psnrOfMse. destruct mse as [m|].
  - destruct (Qeq_bool m 0) eqn:E.
    + apply Qeq_bool_iff in E. split; [|discriminate].
      split; [eauto|reflexivity].
    + apply Qeq_bool_neq in E. split.
      * split; [discriminate|]. intros (m' & [= <-] & H0). contradiction.
      * intros ratio [= <-]. eauto.
  - split; [|discriminate].
    split; [discriminate|]. intros (m & Hm & _). discriminate.
Qed.

Lemma Qsquare_nonneg (d : Q) : (0 <= d * d)%Q.
Proof.
  destruct (Qlt_le_dec d 0) as [Hn|Hp].
  - assert (E : (d * d == (- d) * (- d))%Q) by ring.
    rewrite E. apply Qmult_le_0_compat; lra.
  - now apply Qmult_le_0_compat.
Qed.

Lemma sums_same (data : list Z) (n : nat) :
  (n <= length data)%nat ->
  exists total,
    fold_left (sumStep data data) (seq 0 n) (Some (0, 0))
    = Some (total, total).
Proof.
  induction n as [|n IH]; intros Hn; [exists 0; reflexivity|].
  destruct (IH ltac:(lia)) as [total Htotal].
  rewrite seq_S, fold_left_app, Htotal. simpl. unfold sumStep.
  destruct (lookup_lt_is_Some_2 data n ltac:(lia)) as [a ->].
  eexists. reflexivity.
Qed.

Lemma deviations_same (data : list Z) (mean : Q) (n : nat) :
  (n <= length data)%nat ->
  exists total,
    fold_left (deviationStep data data mean mean) (seq 0 n)
      (Some (0%Q, 0%Q, 0%Q))
    = Some (total, total, total)
    /\ (0 <= total)%Q.
Proof.
  induction n as [|n IH]; intros Hn.
  - exists 0%Q. split; [reflexivity|apply Qle_refl].
  - destruct (IH ltac:(lia)) as (total & Htotal & Hpos).
    rewrite seq_S, fold_left_app, Htotal. simpl. unfold deviationStep.
    destruct (lookup_lt_is_Some_2 data n ltac:(lia)) as [a ->].
    eexists. split; [reflexivity|].
    pose proof (Qsquare_nonneg (inject_Z a - mean)). lra.
Qed.

Lemma ssimOfRaw_same (data : list Z) :
  data <> [] -> ssimOfRaw data data = Some 1%Q.
Proof.
  intros Hne. unfold ssimOfRaw.
  destruct (sums_same data (length data) (Nat.le_refl _)) as [total ->].
  assert (Hn : (0 < length data)%nat) by (destruct data; [congruence|simpl; lia]).
  rewrite (proj2 (Nat.eqb_neq (length data) 0)) by lia.
  set (mean := (inject_Z total / ofNat (length data))%Q).
  destruct (deviations_same data mean (length data) (Nat.le_refl _))
    as (dev & -> & Hdev).
  set (var := (dev / ofNat (length data))%Q).
  assert (Hvar : (0 <= var)%Q).
  { unfold var. apply Qle_shift_div_l; [now apply ofNat_pos|].
    now rewrite Qmult_0_l. }
  assert (HC1 : (0 < C1)%Q) by reflexivity.
  assert (HC2 : (0 < C2)%Q) by reflexivity.
  assert (Hden : (0 < (mean * mean + mean * mean + C1) * (var + var + C2))%Q).
  { pose proof (Qsquare_nonneg mean).
    apply Qmult_lt_0_compat; lra. }
  assert (Hssim : (((2 * mean * mean + C1) * (2 * var + C2))
                   / ((mean * mean + mean * mean + C1) * (var + var + C2))
                   == 1)%Q).
  { assert (E : ((2 * mean * mean + C1) * (2 * var + C2)
                 == (mean * mean + mean * mean + C1) * (var + var + C2))%Q)
      by ring.
    rewrite E. unfold Qdiv. apply Qmult_inv_r. lra. }
  unfold mathMin, mathMax.
  assert (H1 : Qle_bool 1 (((2 * mean * mean + C1) * (2 * var + C2))
                           / ((mean * mean + mean * mean + C1)
                              * (var + var + C2))) = true).
  { apply Qle_bool_iff. rewrite Hssim. apply Qle_refl. }
  rewrite H1. reflexivity.
Qed.

End MetricsFacts.

Section MetricsCodec.
Context {buffer : Type} `{Sharp buffer}.

Lemma decodePair_same (x : buffer) (m i : info) (data : list Z) :
  metadata x = Ok m -> raw x = Ok (data, i) ->
  decodePair x x = Ok (data, data).
Proof.
  intros Hm Hraw. unfold decodePair. rewrite Hm. simpl bind.
  rewrite !Z.eqb_refl. simpl. rewrite Hraw. reflexivity.
Qed.

End MetricsCodec.

(** ** The mean squared error, from the bytes *)

Section ImageMetrics.
Import Metrics Parts.

Lemma squaredError_NaN (a b : list Z) (l : list nat) :
  fold_left (squaredErrorStep a b) l None = None.
Proof. induction l as [|i l IH]; [reflexivity|exact IH]. Qed.

Lemma squaredError_shift (x y : Z) (a b : list Z) (l : list nat)
    (acc : option Z) :
  fold_left (squaredErrorStep (x :: a) (y :: b)) (map S l) acc
  = fold_left (squaredErrorStep a b) l acc.
Proof.
  revert acc. induction l as [|i l IH]; intros acc; [reflexivity|].
  cbn [map fold_left]. rewrite IH. reflexivity.
Qed.

Lemma squaredError_fold (a b : list Z) (m : Z) :
  fold_left (squaredErrorStep a b) (seq 0 (length a)) (Some m)
  = match sumSquares a b with
    | Some t => Some (m + t)
    | None => None
    end.
Proof.
  revert b m. induction a as [|x a IH]; intros b m.
  - cbn. f_equal. lia.
  - destruct b as [|y b].
    + cbn [length seq fold_left sumSquares]. apply squaredError_NaN.
    + cbn [length seq fold_left sumSquares].
      rewrite <- seq_shift, squaredError_shift.
      change (squaredErrorStep (x :: a) (y :: b) (Some m) 0)
        with (Some (m + (x - y) * (x - y))).
      rewrite IH. destruct (sumSquares a b) as [t|]; [|reflexivity].
      f_equal. lia.
Qed.

Lemma sumSquares_NaN (a b : list Z) :
  sumSquares a b = None <-> (length b < length a)%nat.
Proof.
  revert b. induction a as [|x a IH]; intros [|y b]; cbn [sumSquares length].
  - split; [discriminate|lia].
  - split; [discriminate|lia].
  - split; [lia|reflexivity].
  - specialize (IH b). destruct (sumSquares a b).
    + split; [discriminate|]. intros Hlt.
      assert (Hlt' : (length b < length a)%nat) by lia.
      apply IH in Hlt'. discriminate.
    + split; [|reflexivity]. intros _.
      pose proof (proj1 IH eq_refl). lia.
Qed.

Lemma sumSquares_value (a b : list Z) (t : Z) :
  sumSquares a b = Some t ->
  0 <= t
  /\ (t = 0 <-> take (length a) b = a)
  /\ (bytes a -> bytes b -> t <= 65025 * Z.of_nat (length a)).
Proof.
  revert b t. induction a as [|x a IH]; intros [|y b] t;
    cbn [sumSquares length take]; try discriminate.
  - intros [= <-]. repeat split; lia.
  - intros [= <-]. repeat split; lia.
  - destruct (sumSquares a b) as [t'|] eqn:E; [|discriminate].
    intros [= <-]. destruct (IH b t' E) as (H0 & Hz & Hb).
    pose proof (Z.square_nonneg (x - y)) as Hsq.
    split; [lia|]. split; [split|].
    + intros Hsum.
      assert (Hxy : (x - y) * (x - y) = 0) by lia.
      assert (Ht : t' = 0) by lia.
      apply Z.mul_eq_0 in Hxy. f_equal; [lia|]. apply Hz. exact Ht.
    + intros [= -> Heq]. apply Hz in Heq. lia.
    + intros Ha Hb'. unfold bytes in Ha, Hb'.
      apply List.Forall_cons_iff in Ha as [Hx Ha].
      apply List.Forall_cons_iff in Hb' as [Hy Hb'].
      specialize (Hb Ha Hb'). nia.
Qed.

Lemma meanSquaredError_spec (a b : list Z) :
  meanSquaredError a b
  = match sumSquares a b with
    | Some t =>
        if (length a =? 0)%nat then None
        else Some (inject_Z t / ofNat (length a))%Q
    | None => None
    end.
Proof.
  unfold meanSquaredError. rewrite squaredError_fold.
  destruct (sumSquares a b); reflexivity.
Qed.

Lemma psnr_cases (a b : list Z) :
  (psnrOfMse (meanSquaredError a b) = PsnrNaN
   <-> a = [] \/ (length b < length a)%nat)
  /\ (psnrOfMse (meanSquaredError a b) = PsnrInfinity
      <-> a <> [] /\ take (length a) b = a)
  /\ (forall ratio,
        psnrOfMse (meanSquaredError a b) = PsnrDecibels ratio ->
        bytes a -> bytes b -> (1 <= ratio)%Q).
Proof.
  rewrite meanSquaredError_spec.
  destruct (sumSquares a b) as [t|] eqn:E.
  - destruct (sumSquares_value a b t E) as (H0 & Hz & Hb).
    assert (Hlen : ~ (length b < length a)%nat).
    { intros Hlt. apply sumSquares_NaN in Hlt. congruence. }
    destruct a as [|x a].
    + cbn [length Nat.eqb psnrOfMse].
      split; [split; auto|]. split; [|discriminate].
      split; [discriminate|]. intros [Hne _]. congruence.
    + change (length (x :: a) =? 0)%nat with false. cbv iota.
      set (n := length (x :: a)) in *.
      assert (Hn : (0 < ofNat n)%Q) by (apply ofNat_pos; unfold n; cbn; lia).
      unfold psnrOfMse.
      destruct (Qeq_bool (inject_Z t / ofNat n) 0) eqn:Q0.
      * apply Qeq_bool_iff in Q0.
        assert (Ht : t = 0).
        { assert (Q1 : (inject_Z t == 0)%Q).
          { rewrite <- (Qmult_div_r (inject_Z t) (ofNat n)) by lra.
            rewrite Q0. ring. }
          unfold Qeq, inject_Z in Q1. cbn [Qnum Qden] in Q1. lia. }
        split; [split; [discriminate|intros [?|?]; [discriminate|lia]]|].
        split; [|discriminate].
        split; [intros _; split; [discriminate|apply Hz; exact Ht]
               |reflexivity].
      * apply Qeq_bool_neq in Q0.
        split; [split; [discriminate|intros [?|?]; [discriminate|lia]]|].
        split.
        { split; [discriminate|]. intros [_ Heq]. apply Hz in Heq.
          exfalso. apply Q0. rewrite Heq. unfold Qdiv. apply Qmult_0_l. }
        intros ratio [= <-] Ha Hb'. specialize (Hb Ha Hb').
        assert (Hq : (0 <= inject_Z t / ofNat n)%Q).
        { apply Qle_shift_div_l; [exact Hn|]. rewrite Qmult_0_l.
          change 0%Q with (inject_Z 0). rewrite <- Zle_Qle. exact H0. }
        assert (Hq' : (0 < inject_Z t / ofNat n)%Q).
        { apply Qle_lteq in Hq as [Hlt|Heq]; [exact Hlt|].
          exfalso. apply Q0. symmetry. exact Heq. }
        apply Qle_shift_div_l; [exact Hq'|]. rewrite Qmult_1_l.
        apply Qle_shift_div_r; [exact Hn|].
        unfold ofNat. change (255 * 255)%Q with (inject_Z 65025).
        rewrite <- inject_Z_mult, <- Zle_Qle. fold n in Hb. exact Hb.
  - apply sumSquares_NaN in E. cbn [psnrOfMse].
    split; [split; auto|]. split; [|discriminate].
    split; [discriminate|]. intros [_ Heq].
    apply (f_equal (@length _)) in Heq. rewrite length_take in Heq. lia.
Qed.

End ImageMetrics.

(** C9.  For an image [x] that decodes (to at least one byte),
    [computePSNR(x, x)] returns [Infinity] and [computeSSIM(x, x)] returns
    1.  For any pair of images, [computePSNR] returns [Infinity] exactly
    when the mean squared error is 0, and otherwise
    [10 * log10(255^2 / MSE)]; the mean squared error is the sum of the
    squared differences of the decoded bytes divided by their number, so
    [Infinity] is returned exactly when every byte compared is the same. *)
Theorem metrics_of_identical_images {buffer : Type} `{Sharp buffer}
    (x : buffer) (m i : info) (data : list Z) :
  metadata x = Ok m -> raw x = Ok (data, i) -> data <> [] ->
  computePSNR x x = Ok PsnrInfinity
  /\ (exists ssim, computeSSIM x x = Ok (Some ssim) /\ (ssim == 1)%Q)
  /\ (forall (a b : buffer) (p : psnr),
         computePSNR a b = Ok p ->
         exists mse, computeMSE a b = Ok mse
           /\ (p = PsnrInfinity <-> exists v, mse = Some v /\ (v == 0)%Q)
           /\ (forall ratio, p = PsnrDecibels ratio ->
                 exists v, mse = Some v /\ ~ (v == 0)%Q
                           /\ ratio = ((255 * 255) / v)%Q))
  /\ (forall (a b : buffer) (dataA dataB : list Z),
         decodePair a b = Ok (dataA, dataB) ->
         computeMSE a b
         = Ok (match Parts.sumSquares dataA dataB with
               | Some total =>
                   if (length dataA =? 0)%nat then None
                   else Some (inject_Z total / ofNat (length dataA))%Q
               | None => None
               end)
         /\ (computePSNR a b = Ok PsnrInfinity
             <-> dataA <> [] /\ take (length dataA) dataB = dataA)).
Proof.
  intros Hm Hraw Hne.
  pose proof (decodePair_same x m i data Hm Hraw) as Hpair.
  split; [|split; [|split]].
  - unfold computePSNR. rewrite Hpair. simpl bind.
    destruct (meanSquaredError_same data Hne) as (v & -> & Hv).
    f_equal. apply (proj1 (psnrOfMse_spec (Some v))). eauto.
  - exists 1%Q. split; [|reflexivity].
    unfold computeSSIM. rewrite Hpair. simpl bind.
    now rewrite ssimOfRaw_same.
  - intros a b p. unfold computePSNR, computeMSE.
    destruct (decodePair a b) as [[dataA dataB]|e]; simpl bind; [|discriminate].
    intros [= <-]. eexists. split; [reflexivity|].
    apply psnrOfMse_spec.
  - intros a b dataA dataB Hab. unfold computePSNR, computeMSE.
    rewrite Hab. cbn [bind]. split.
    + f_equal. apply meanSquaredError_spec.
    + destruct (psnr_cases dataA dataB) as (_ & Hinf & _).
      rewrite <- Hinf. split; [intros [= E]; exact E|intros ->; reflexivity].
Qed.

Lemma metrics_of_identical_images_witness :
  computePSNR [10; 20; 30; 255] [10; 20; 30; 255] = Ok PsnrInfinity
  /\ exists ssim,
      computeSSIM [10; 20; 30; 255] [10; 20; 30; 255] = Ok (Some ssim)
      /\ (ssim == 1)%Q.
Proof.
  assert (Hm : metadata [10; 20; 30; 255]
               = Ok (infoOf [10; 20; 30; 255])) by reflexivity.
  assert (Hraw : raw [10; 20; 30; 255]
                 = Ok ([10; 20; 30; 255], infoOf [10; 20; 30; 255]))
    by reflexivity.
  assert (Hne : [10; 20; 30; 255] <> []) by discriminate.
  destruct (metrics_of_identical_images _ _ _ _ Hm Hraw Hne) as (H1 & H2 & _).
  split; [exact H1|exact H2].
Defined.

(** ** The statements on a concrete run *)

Lemma step_results_follow_chain_witness :
  exists s,
    In s (samples (resultsOf
                     (runDryRun still demo goodChain (Ok twoPictures) 0)))
    /\ length (transforms s) = length (cfg_transforms goodChain)
    /\ map s_params (transforms s) = cfg_transforms goodChain
    /\ map s_name (transforms s) = map name (cfg_transforms goodChain).
Proof.
  assert (E : exists s rest,
             samples (resultsOf
                        (runDryRun still demo goodChain (Ok twoPictures) 0))
             = s :: rest).
  { vm_compute. eexists. eexists. reflexivity. }
  destruct E as (s & rest & E).
  assert (Hin : In s (samples (resultsOf
                                 (runDryRun still demo goodChain
                                    (Ok twoPictures) 0))))
    by (rewrite E; left; reflexivity).
  exists s. split; [exact Hin|].
  exact (step_results_follow_chain still demo goodChain (Ok twoPictures)
           0%nat s Hin).
Defined.

Lemma robustness_score_mean_witness :
  exists s,
    In s (samples (resultsOf
                     (runDryRun still demo goodChain (Ok twoPictures) 0)))
    /\ ((0 < length (cfg_transforms goodChain))%nat ->
        (robustnessScore s
         == sumQ (map stepContribution (transforms s))
            / ofNat (length (cfg_transforms goodChain)))%Q).
Proof.
  assert (E : exists s rest,
             samples (resultsOf
                        (runDryRun still demo goodChain (Ok twoPictures) 0))
             = s :: rest).
  { vm_compute. eexists. eexists. reflexivity. }
  destruct E as (s & rest & E).
  assert (Hin : In s (samples (resultsOf
                                 (runDryRun still demo goodChain
                                    (Ok twoPictures) 0))))
    by (rewrite E; left; reflexivity).
  exists s. split; [exact Hin|].
  exact (proj2 (proj2 (robustness_score_mean still demo goodChain
                         (Ok twoPictures) 0%nat s Hin))).
Defined.

Lemma transform_failure_ends_run_witness :
  runDryRun still demo badChain (Ok twoPictures) 0
  = Thrown JpegQualityRange
      {| samples := []; r_status := failed;
         r_error := Some JpegQualityRange |}
  /\ exists before image after k1,
      twoPictures = before ++ image :: after
      /\ processSample still demo badChain (length before) image k1
         = Throw JpegQualityRange
      /\ length (@nil sample) = length before.
Proof.
  destruct (transform_failure_ends_run still demo badChain)
    as (_ & _ & _ & Hend & _ & Hforward).
  assert (Hbefore : runDryRun still demo badChain (Ok []) 0
                    = Returned {| samples := []; r_status := completed;
                                  r_error := None |})
    by reflexivity.
  assert (Hthrow : processSample still demo badChain
                     (length (@nil (imageObject (list Z))))
                     (picture "a.png")
                     (RunParts.drawsAfter still demo badChain [] 0 0)
                   = Throw JpegQualityRange)
    by (vm_compute; reflexivity).
  pose proof (Hforward [] [picture "b.png"] (picture "a.png") 0%nat _ _
                Hbefore Hthrow) as Hrun.
  change (runDryRun still demo badChain (Ok twoPictures) 0
          = Thrown JpegQualityRange
              {| samples := []; r_status := failed;
                 r_error := Some JpegQualityRange |}) in Hrun.
  split; [exact Hrun|].
  destruct (Hend twoPictures 0%nat _ _ Hrun) as (_ & _ & Hsplit).
  exact Hsplit.
Defined.

(** C4, as stated, fails on a run over two pictures whose chain holds a
    JPEG step of quality 101: the first sample throws, the run throws with
    it, no sample is in the saved results and the second picture is never
    processed. *)
Lemma transform_failure_ends_run_counterexample :
  runDryRun still demo badChain (Ok twoPictures) 0
  = Thrown JpegQualityRange
      {| samples := []; r_status := failed;
         r_error := Some JpegQualityRange |}
  /\ processSample still demo badChain 0 (picture "a.png") 0
     = Throw JpegQualityRange.
Proof. by_evaluation. Qed.

(** * Further properties of the sources *)

Import Parts.

(** ** The bit codec on arbitrary bit strings *)

Section CodecMore.

Lemma takeDots_binary (k : nat) (b : jsstring) :
  Forall binaryChar b -> takeDots k b = (take k b, drop k b).
Proof.
  revert b. induction k as [|k IH]; intros b Hb.
  - destruct b; reflexivity.
  - destruct Hb as [|c b Hc Hb]; [reflexivity|]. simpl.
    rewrite (binaryChar_not_terminator c Hc), (IH b Hb). reflexivity.
Qed.

Lemma ceil8_step (n : nat) :
  Nat.div (S n + 7) 8 = S (Nat.div (n - 7 + 7) 8).
Proof.
  destruct (Nat.le_gt_cases 7 n) as [Hn|Hn].
  - replace (S n + 7)%nat with (n - 7 + 7 + 1 * 8)%nat by lia.
    rewrite Nat.div_add by lia. lia.
  - replace (n - 7)%nat with 0%nat by lia.
    rewrite (Nat.div_small (0 + 7) 8) by lia.
    replace (S n + 7)%nat with (n + 1 * 8)%nat by lia.
    rewrite Nat.div_add, Nat.div_small by lia. reflexivity.
Qed.

Lemma matchDotLoop_count (fuel : nat) :
  forall b : jsstring,
    Forall binaryChar b -> (length b <= fuel)%nat ->
    length (matchDotLoop fuel b) = Nat.div (length b + 7) 8.
Proof.
  induction fuel as [|fuel IH]; intros b Hb Hfuel.
  - destruct b; [reflexivity|simpl in Hfuel; lia].
  - destruct b as [|c t]; [reflexivity|].
    change (matchDotLoop (S fuel) (c :: t))
      with (match takeDots 8 (c :: t) with
            | ([], _) => matchDotLoop fuel t
            | (m, r) => m :: matchDotLoop fuel r
            end).
    rewrite (takeDots_binary 8 (c :: t) Hb).
    change (take 8 (c :: t)) with (c :: take 7 t).
    change (drop 8 (c :: t)) with (drop 7 t).
    cbv iota. simpl length.
    rewrite IH.
    + rewrite length_drop. apply eq_sym, ceil8_step.
    + apply Forall_drop. now inversion Hb.
    + rewrite length_drop. simpl in Hfuel. lia.
Qed.

Lemma matchDotLoop_tail (gs : list jsstring) (tail : jsstring) :
  Forall byteGroup gs -> Forall binaryChar tail ->
  (0 < length tail <= 8)%nat ->
  forall fuel, (length (concat gs ++ tail) <= fuel)%nat ->
  matchDotLoop fuel (concat gs ++ tail) = gs ++ [tail].
Proof.
  intros Hgs Htail Hlen. induction Hgs as [|g gs [Hg Hbin] Hgs IH];
    intros fuel Hfuel.
  - simpl in *. destruct fuel as [|fuel]; [lia|].
    destruct tail as [|c t]; [simpl in Hlen; lia|].
    change (matchDotLoop (S fuel) (c :: t))
      with (match takeDots 8 (c :: t) with
            | ([], _) => matchDotLoop fuel t
            | (m, r) => m :: matchDotLoop fuel r
            end).
    rewrite (takeDots_binary 8 (c :: t) Htail).
    rewrite take_ge, drop_ge by lia.
    destruct fuel; reflexivity.
  - simpl concat in *. rewrite <- app_assoc in *.
    rewrite length_app, Hg in Hfuel.
    destruct fuel as [|fuel]; [lia|].
    destruct g as [|c g']; [discriminate|].
    change (matchDotLoop (S fuel) ((c :: g') ++ concat gs ++ tail))
      with (match takeDots 8 ((c :: g') ++ concat gs ++ tail) with
            | ([], _) => matchDotLoop fuel (g' ++ concat gs ++ tail)
            | (m, r) => m :: matchDotLoop fuel r
            end).
    rewrite <- Hg, takeDots_group by assumption.
    simpl. f_equal. apply IH. lia.
Qed.

End CodecMore.

(** X1.  [binaryToString] does not drop a short last group: a string of
    ['0'] and ['1'] of any length [n] decodes to [ceil(n / 8)] characters,
    and after the bits of a text of code points 0..255, a tail of 1 to 7
    bits adds one more character, the value of the tail. *)
Theorem binaryToString_keeps_short_tail (b s tail : jsstring) :
  Forall binaryChar b -> latin1 s -> Forall binaryChar tail ->
  (0 < length tail < 8)%nat ->
  length (binaryToString b) = Nat.div (length b + 7) 8
  /\ binaryToString (stringToBinary s ++ tail)
     = s ++ [fromCharCode (parseInt tail (Some 2))].
Proof.
  intros Hb Hs Htail Hlen. split.
  - unfold binaryToString, matchDot1to8. rewrite length_map.
    now apply matchDotLoop_count.
  - unfold binaryToString, matchDot1to8, stringToBinary.
    rewrite (matchDotLoop_tail _ tail (stringToBinary_groups s Hs) Htail)
      by lia.
    rewrite map_app, map_map. simpl. f_equal.
    rewrite <- (map_id s) at 2. apply map_ext_in. intros c Hc.
    unfold latin1 in Hs. rewrite List.Forall_forall in Hs.
    now destruct (byteGroup_spec c (Hs c Hc)) as (_ & _ & ->).
Qed.

Lemma binaryToString_keeps_short_tail_witness :
  length (binaryToString [49; 48; 49]) = Nat.div (length [49; 48; 49] + 7) 8
  /\ binaryToString (stringToBinary [72; 105] ++ [49; 48; 49])
     = [72; 105] ++ [fromCharCode (parseInt [49; 48; 49] (Some 2))].
Proof.
  assert (Hb : Forall binaryChar [49; 48; 49])
    by (repeat constructor; unfold binaryChar; lia).
  assert (Hs : latin1 [72; 105]) by (repeat constructor; lia).
  assert (Hl : (0 < length [49; 48; 49] < 8)%nat) by (simpl; lia).
  exact (binaryToString_keeps_short_tail _ _ _ Hb Hs Hb Hl).
Defined.

(** ** Message recovery *)

Section MessageRecovery.

Lemma messageRecoveryStep_group (messageBinary recovered : jsstring)
    (i : nat) :
  messageRecoveryStep messageBinary recovered i
  = recoverGroup (take 8 (drop i messageBinary)) recovered.
Proof. reflexivity. Qed.

Lemma closest_fold_printable (char8bits : jsstring) (codes : list nat) :
  Forall (fun n => (32 <= n <= 126)%nat) codes ->
  forall best : jsstring * Z,
    printable (fst best) /\ (length (fst best) <= 1)%nat ->
    printable (fst (fold_left (closestStep char8bits) codes best))
    /\ (length (fst (fold_left (closestStep char8bits) codes best)) <= 1)%nat.
Proof.
  induction 1 as [|n codes Hn _ IH]; intros best Hbest; [exact Hbest|].
  cbn [fold_left]. apply IH. destruct best as [bm bd]. unfold closestStep.
  destruct (Z.ltb _ bd); [|exact Hbest]. cbn [fst length]. split; [|lia].
  constructor; [|constructor].
  unfold fromCharCode. rewrite Z.mod_small; lia.
Qed.

Lemma printable_codes : Forall (fun n => (32 <= n <= 126)%nat) (seq 32 95).
Proof. apply List.Forall_forall. intros n Hn. apply in_seq in Hn. lia. Qed.

Lemma printable_app (a b : jsstring) :
  printable a -> printable b -> printable (a ++ b).
Proof. intros Ha Hb. apply Forall_app. now split. Qed.

Lemma recoverGroup_sound (char8bits recovered : jsstring) :
  printable recovered ->
  printable (recoverGroup char8bits recovered)
  /\ (length (recoverGroup char8bits recovered) <= S (length recovered))%nat
  /\ (length char8bits <> 8%nat ->
      recoverGroup char8bits recovered = recovered).
Proof.
  intros Hrec. unfold recoverGroup.
  destruct (Nat.eqb_spec (length char8bits) 8) as [H8|H8];
    [|repeat split; [assumption|lia]].
  destruct (closest_fold_printable char8bits _ printable_codes ([], 8))
    as [Hp1 Hl1]; [split; [constructor|simpl; lia]|].
  remember (fold_left (closestStep char8bits) (seq 32 95) ([], 8))
    as best eqn:Hbest.
  clear Hbest. destruct best as [bm bd]. cbn [fst] in Hp1, Hl1.
  assert (Hcode : isPrintableCode (parseInt char8bits (Some 2)) = true ->
                  printable [fromCharCode (parseInt char8bits (Some 2))]).
  { destruct (parseInt char8bits (Some 2)) as [v|]; [|discriminate].
    cbn [isPrintableCode fromCharCode]. intros Hp.
    apply andb_prop in Hp as [H1 H2].
    apply Z.leb_le in H1. apply Z.leb_le in H2.
    constructor; [|constructor]. rewrite Z.mod_small; lia. }
  destruct (isPrintableCode (parseInt char8bits (Some 2))).
  - split; [apply printable_app; auto|].
    split; [rewrite length_app; simpl; lia|congruence].
  - destruct (bd <=? 3).
    + split; [now apply printable_app|].
      split; [rewrite length_app; lia|congruence].
    + destruct (length recovered =? 0)%nat.
      * split; [now apply printable_app|].
        split; [rewrite length_app; lia|congruence].
      * split; [assumption|]. split; [lia|congruence].
Qed.

(** The loop after its first [j] rounds. *)
Lemma recovery_rounds (messageBinary : jsstring) (j : nat) :
  let recovered :=
    fold_left (messageRecoveryStep messageBinary)
      (map (fun k => (8 * k)%nat) (seq 0 j)) [] in
  printable recovered
  /\ (length recovered <= j)%nat
  /\ (8 * length recovered <= length messageBinary)%nat.
Proof.
  induction j as [|j (Hp & Hj & Hlen)];
    [cbn [seq map fold_left length]; repeat split; try lia; constructor|].
  rewrite seq_S, map_app, fold_left_app. cbn [map fold_left].
  rewrite Nat.add_0_l, messageRecoveryStep_group.
  set (recovered := fold_left _ _ _) in *.
  destruct (recoverGroup_sound (take 8 (drop (8 * j) messageBinary))
              recovered Hp) as (Hp' & Hl' & Hsame).
  split; [exact Hp'|]. split; [lia|].
  destruct (Nat.eq_dec (length (take 8 (drop (8 * j) messageBinary))) 8%nat)
    as [H8|H8].
  - rewrite length_take, length_drop in H8. lia.
  - rewrite (Hsame H8). exact Hlen.
Qed.

Lemma recovery_exact_groups (f : jsstring -> Z) (gs : list jsstring) :
  Forall (fun g => length g = 8%nat
                   /\ forall recovered,
                       recoverGroup g recovered = recovered ++ [f g]) gs ->
  forall (pre recovered : jsstring) (j : nat),
    length pre = (8 * j)%nat ->
    fold_left (messageRecoveryStep (pre ++ concat gs))
      (map (fun k => (8 * k)%nat) (seq j (length gs))) recovered
    = recovered ++ map f gs.
Proof.
  induction 1 as [|g gs [Hg Hrec] _ IH]; intros pre recovered j Hpre.
  - cbn [length seq map fold_left]. now rewrite app_nil_r.
  - cbn [length seq map fold_left concat].
    rewrite messageRecoveryStep_group.
    rewrite <- Hpre, drop_app_length.
    replace (take 8 (g ++ concat gs)) with g
      by (rewrite <- Hg, take_app_length; reflexivity).
    rewrite Hrec.
    replace (pre ++ g ++ concat gs) with ((pre ++ g) ++ concat gs)
      by now rewrite <- app_assoc.
    rewrite (IH (pre ++ g) (recovered ++ [f g]) (S j))
      by (rewrite length_app; lia).
    now rewrite <- app_assoc.
Qed.

Lemma attemptMessageRecovery_groups (f : jsstring -> Z)
    (gs : list jsstring) :
  Forall (fun g => length g = 8%nat
                   /\ forall recovered,
                       recoverGroup g recovered = recovered ++ [f g]) gs ->
  attemptMessageRecovery (concat gs) = map f gs.
Proof.
  intros Hgs. unfold attemptMessageRecovery.
  assert (Hlen : length (concat gs) = (8 * length gs)%nat).
  { induction Hgs as [|g gs [Hg _] _ IH]; [reflexivity|].
    simpl. rewrite length_app, Hg, IH. lia. }
  rewrite Hlen.
  replace (Nat.div (8 * length gs + 7) 8) with (length gs).
  - exact (recovery_exact_groups f gs Hgs [] [] 0%nat eq_refl).
  - symmetry. rewrite Nat.mul_comm, Nat.div_add_l by lia.
    rewrite (Nat.div_small 7 8) by lia. lia.
Qed.

Lemma parsesBack_all : forallb parsesBack (map Z.of_nat (seq 0 256)) = true.
Proof. vm_compute. reflexivity. Qed.

Lemma closestIsUnflipped_all :
  forallb closestIsUnflipped (map Z.of_nat (seq 32 95)) = true.
Proof. vm_compute. reflexivity. Qed.

Lemma in_range (lo n : nat) (c : Z) :
  Z.of_nat lo <= c < Z.of_nat (lo + n) -> In c (map Z.of_nat (seq lo n)).
Proof.
  intros Hc. replace c with (Z.of_nat (Z.to_nat c)) by lia.
  apply in_map, in_seq. lia.
Qed.

Lemma recoverGroup_printable (c : Z) (recovered : jsstring) :
  32 <= c <= 126 -> recoverGroup (bitsOf c) recovered = recovered ++ [c].
Proof.
  intros Hc. pose proof parsesBack_all as Hall.
  rewrite forallb_forall in Hall.
  specialize (Hall c (in_range 0 256 c ltac:(lia))).
  unfold parsesBack in Hall.
  destruct (byteGroup_spec c ltac:(lia)) as (H8 & _ & _).
  fold (bitsOf c) in H8. unfold recoverGroup. rewrite H8.
  change (8 =? 8)%nat with true. cbv iota.
  destruct (parseInt (bitsOf c) (Some 2)) as [v|]; [|discriminate].
  apply Z.eqb_eq in Hall. subst v. cbn [isPrintableCode fromCharCode].
  rewrite (proj2 (Z.leb_le 32 c)), (proj2 (Z.leb_le c 126)) by lia.
  cbn [andb]. rewrite Z.mod_small by lia. reflexivity.
Qed.

Lemma recoverGroup_flipped (c : Z) (recovered : jsstring) :
  32 <= c <= 126 ->
  recoverGroup (bitsOf (c + 128)) recovered = recovered ++ [c].
Proof.
  intros Hc. pose proof parsesBack_all as Hall.
  rewrite forallb_forall in Hall.
  specialize (Hall (c + 128) (in_range 0 256 (c + 128) ltac:(lia))).
  pose proof closestIsUnflipped_all as Hclose.
  rewrite forallb_forall in Hclose.
  specialize (Hclose c (in_range 32 95 c ltac:(lia))).
  unfold parsesBack in Hall. unfold closestIsUnflipped in Hclose.
  destruct (byteGroup_spec (c + 128) ltac:(lia)) as (H8 & _ & _).
  fold (bitsOf (c + 128)) in H8. unfold recoverGroup. rewrite H8.
  change (8 =? 8)%nat with true. cbv iota.
  destruct (parseInt (bitsOf (c + 128)) (Some 2)) as [v|]; [|discriminate].
  apply Z.eqb_eq in Hall. subst v. cbn [isPrintableCode].
  rewrite (proj2 (Z.leb_gt (c + 128) 126)) by lia. rewrite andb_false_r.
  remember (fold_left (closestStep (bitsOf (c + 128))) (seq 32 95) ([], 8))
    as best eqn:Hbest.
  clear Hbest. destruct best as [[|m [|m' bm]] bd]; try discriminate.
  apply andb_prop in Hclose as [Hm Hd].
  apply Z.eqb_eq in Hm. apply Z.eqb_eq in Hd. subst. reflexivity.
Qed.

Lemma attemptMessageRecovery_printable_text (s : jsstring) :
  printable s -> attemptMessageRecovery (stringToBinary s) = s.
Proof.
  intros Hs. unfold stringToBinary.
  rewrite (attemptMessageRecovery_groups
             (fun g => fromCharCode (parseInt g (Some 2)))).
  - rewrite map_map. rewrite <- (map_id s) at 2.
    apply map_ext_in. intros c Hc.
    unfold printable in Hs. rewrite List.Forall_forall in Hs.
    specialize (Hs c Hc).
    now destruct (byteGroup_spec c ltac:(lia)) as (_ & _ & ->).
  - apply List.Forall_map. eapply List.Forall_impl; [|exact Hs].
    intros c Hc. cbv beta in Hc |- *.
    destruct (byteGroup_spec c ltac:(lia)) as (H8 & _ & Hv).
    split; [exact H8|]. intros recovered.
    rewrite Hv. exact (recoverGroup_printable c recovered Hc).
Qed.

Lemma attemptMessageRecovery_flipped_text (s : jsstring) :
  printable s ->
  attemptMessageRecovery (stringToBinary (map (fun c => c + 128) s)) = s.
Proof.
  intros Hs. unfold stringToBinary.
  rewrite (attemptMessageRecovery_groups
             (fun g => fromCharCode (parseInt g (Some 2)) - 128)).
  - rewrite !map_map. rewrite <- (map_id s) at 2.
    apply map_ext_in. intros c Hc.
    unfold printable in Hs. rewrite List.Forall_forall in Hs.
    specialize (Hs c Hc).
    destruct (byteGroup_spec (c + 128) ltac:(lia)) as (_ & _ & ->). lia.
  - rewrite map_map. apply List.Forall_map.
    eapply List.Forall_impl; [|exact Hs].
    intros c Hc. cbv beta in Hc |- *.
    destruct (byteGroup_spec (c + 128) ltac:(lia)) as (H8 & _ & Hv).
    split; [exact H8|]. intros recovered.
    rewrite Hv. replace (c + 128 - 128) with c by lia.
    exact (recoverGroup_flipped c recovered Hc).
Qed.

End MessageRecovery.

Lemma message_recovery_sound (messageBinary : jsstring) :
  printable (attemptMessageRecovery messageBinary).
Proof.
  now destruct (recovery_rounds messageBinary
                  (Nat.div (length messageBinary + 7) 8)) as (Hp & _).
Qed.

(** X2.  Whatever bits it is given, [attemptMessageRecovery] returns
    printable ASCII only, and at most one character per complete group of
    eight bits. *)
Theorem message_recovery_is_printable (messageBinary : jsstring) :
  printable (attemptMessageRecovery messageBinary)
  /\ (8 * length (attemptMessageRecovery messageBinary)
      <= length messageBinary)%nat.
Proof.
  destruct (recovery_rounds messageBinary
              (Nat.div (length messageBinary + 7) 8)) as (Hp & _ & Hl).
  split; [exact Hp|exact Hl].
Qed.

(** X3.  [attemptMessageRecovery] returns a printable text unchanged from
    its bits, and restores it exactly when the top bit of every character
    was flipped: the original is then the only printable character at
    Hamming distance 1. *)
Theorem message_recovery_restores_text (s : jsstring) :
  printable s ->
  attemptMessageRecovery (stringToBinary s) = s
  /\ attemptMessageRecovery (stringToBinary (map (fun c => c + 128) s)) = s.
Proof.
  intros Hs. split.
  - now apply attemptMessageRecovery_printable_text.
  - now apply attemptMessageRecovery_flipped_text.
Qed.

Lemma message_recovery_restores_text_witness :
  attemptMessageRecovery (stringToBinary [72; 105; 33]) = [72; 105; 33]
  /\ attemptMessageRecovery
       (stringToBinary (map (fun c => c + 128) [72; 105; 33]))
     = [72; 105; 33].
Proof.
  assert (Hs : printable [72; 105; 33]) by (repeat constructor; lia).
  exact (message_recovery_restores_text _ Hs).
Defined.

(** ** Length recovery *)

Section LengthRecovery.
Variable data : list Z.

Lemma candidateScore_nonneg (L : nat) : (0 <= candidateScore data L)%Q.
Proof.
  unfold candidateScore. destruct L as [|L].
  - unfold Qdiv, Qinv. simpl. rewrite Qmult_0_r. apply Qle_refl.
  - apply Qle_shift_div_l; [apply ofNat_pos; lia|].
    rewrite Qmult_0_l. apply ofNat_nonneg.
Qed.

Lemma lengthRecoveryStep_score (best : Z * Q) (L : nat) :
  (0 < L)%nat ->
  lengthRecoveryStep data best L
  = if Qltb (snd best) (candidateScore data L)
    then (Z.of_nat L, candidateScore data L) else best.
Proof.
  intros HL. destruct best as [bl bs]. unfold lengthRecoveryStep.
  rewrite (proj2 (Nat.ltb_lt 0 L) HL). reflexivity.
Qed.

Lemma Qltb_spec (a b : Q) :
  (Qltb a b = true /\ (a < b)%Q) \/ (Qltb a b = false /\ (b <= a)%Q).
Proof.
  unfold Qltb. destruct (Qle_bool b a) eqn:E.
  - right. split; [reflexivity|]. now apply Qle_bool_iff.
  - left. split; [reflexivity|]. apply Qnot_le_lt. intros H.
    apply Qle_bool_iff in H. congruence.
Qed.

Lemma lengthRecovery_rounds (k : nat) :
  exists n,
    fold_left (lengthRecoveryStep data) (seq 1 (S k)) (10, (-1)%Q)
    = (Z.of_nat n, candidateScore data n)
    /\ firstBest data (S k) n.
Proof.
  induction k as [|k (n & Hfold & Hrange & Hbest)].
  - exists 1%nat. cbn [seq fold_left].
    rewrite lengthRecoveryStep_score by lia. cbn [snd].
    destruct (Qltb_spec (-1) (candidateScore data 1)) as [[-> _]|[_ Hle]].
    + split; [reflexivity|]. split; [lia|].
      intros m Hm. replace m with 1%nat by lia.
      split; [apply Qle_refl|lia].
    + pose proof (candidateScore_nonneg 1). exfalso. lra.
  - rewrite seq_S, fold_left_app, Hfold. cbn [fold_left].
    rewrite lengthRecoveryStep_score by lia. cbn [snd].
    replace (1 + S k)%nat with (S (S k)) by lia.
    destruct (Qltb_spec (candidateScore data n) (candidateScore data (S (S k))))
      as [[-> Hlt]|[-> Hle]].
    + exists (S (S k)). split; [reflexivity|]. split; [lia|].
      intros m Hm. destruct (Nat.eq_dec m (S (S k))) as [->|Hne].
      * split; [apply Qle_refl|lia].
      * destruct (Hbest m ltac:(lia)) as [Hm1 _].
        split; [|intros _]; lra.
    + exists n. split; [reflexivity|]. split; [lia|].
      intros m Hm. destruct (Nat.eq_dec m (S (S k))) as [->|Hne].
      * split; [exact Hle|lia].
      * exact (Hbest m ltac:(lia)).
Qed.

Lemma recoveryCount_short (L : nat) :
  (length data < 136)%nat -> recoveryCount data L 0 0 = 0%nat.
Proof.
  intros Hshort. destruct L as [|L]; [reflexivity|].
  cbn [recoveryCount].
  destruct (Nat.leb_spec (128 + 0 * 8 + 8) (length data)); [lia|reflexivity].
Qed.

End LengthRecovery.

Lemma length_recovery_range (data : list Z) :
  exists n, attemptLengthRecovery data = Z.of_nat n /\ (1 <= n <= 100)%nat.
Proof.
  destruct (lengthRecovery_rounds data 99) as (n & Hfold & Hrange & _).
  exists n. unfold attemptLengthRecovery.
  change 100%nat with (S 99). rewrite Hfold. split; [reflexivity|exact Hrange].
Qed.

(** X4.  [attemptLengthRecovery] returns a length between 1 and 100 (never
    its default guess of 10 as such): the candidate whose fraction of
    printable characters is highest, the lowest one among equals.  On a
    buffer too short to hold one character after the header it returns
    1. *)
Theorem length_recovery_picks_first_best (data : list Z) :
  exists n,
    attemptLengthRecovery data = Z.of_nat n
    /\ (1 <= n <= 100)%nat
    /\ (forall m, (1 <= m <= 100)%nat ->
          (candidateScore data m <= candidateScore data n)%Q
          /\ ((m < n)%nat ->
              (candidateScore data m < candidateScore data n)%Q))
    /\ ((length data < 136)%nat -> n = 1%nat).
Proof.
  destruct (lengthRecovery_rounds data 99) as (n & Hfold & Hrange & Hbest).
  exists n. unfold attemptLengthRecovery.
  change 100%nat with (S 99). rewrite Hfold.
  split; [reflexivity|]. split; [exact Hrange|]. split; [exact Hbest|].
  intros Hshort.
  destruct (Nat.eq_dec n 1%nat) as [->|Hne]; [reflexivity|].
  destruct (Hbest 1%nat ltac:(lia)) as [_ Hlt].
  specialize (Hlt ltac:(lia)).
  unfold candidateScore in Hlt.
  rewrite !(recoveryCount_short data _ Hshort) in Hlt.
  exfalso. unfold Qdiv in Hlt. change (ofNat 0) with 0%Q in Hlt.
  rewrite !Qmult_0_l in Hlt. now apply Qlt_irrefl in Hlt.
Qed.

(** ** Tolerant and strict extraction *)

Section TolerantExtraction.

(** What tolerant extraction returns, by cases on what it found. *)
Lemma extractBits_tolerant_cases (data : list Z) :
  let L := effectiveLength data in
  let bits := bodyBits data L in
  let decoded := binaryToString bits in
  let recovered := attemptMessageRecovery bits in
  exists r,
    extractBits data true = Ok r
    /\ recoveryScore r = recoveryAssessment (message r)
    /\ bitsRecovered r = Z.of_nat (length bits)
    /\ ((wasCorrupted r = false /\ message r = decoded)
        \/ (wasCorrupted r = true /\ (0 < length recovered)%nat
            /\ message r = recovered)
        \/ (wasCorrupted r = true /\ length recovered = 0%nat
            /\ message r = decoded)).
Proof.
  unfold effectiveLength, extractBits.
  generalize (attemptLengthRecovery data). intros guess.
  destruct (readLength data) as [n|]; cbv beta iota zeta delta [bind].
  - fold (bodyBits data n).
    destruct (negb false && true && _);
      [destruct (Qltb _ _);
       [destruct (Nat.ltb_spec 0 (length (attemptMessageRecovery
                                            (bodyBits data n))))|]|];
      eexists; (split; [reflexivity|]);
      cbn [message recoveryScore bitsRecovered wasCorrupted];
      (split; [reflexivity|]); (split; [reflexivity|]);
      [right; left|right; right|left|left]; repeat split; lia.
  - fold (bodyBits data guess).
    destruct (negb false && true && _);
      [destruct (Qltb _ _);
       [destruct (Nat.ltb_spec 0 (length (attemptMessageRecovery
                                            (bodyBits data guess))))|]|];
      eexists; (split; [reflexivity|]);
      cbn [message recoveryScore bitsRecovered wasCorrupted];
      (split; [reflexivity|]); (split; [reflexivity|]);
      [right; left|right; right|left|left]; repeat split; lia.
Qed.

Lemma effectiveLength_range (data : list Z) :
  1 <= effectiveLength data <= 10000.
Proof.
  unfold effectiveLength. destruct (readLength data) as [n|] eqn:Hr.
  - pose proof (readLength_range data n Hr). lia.
  - destruct (length_recovery_range data) as (n & -> & Hn). lia.
Qed.

Lemma decoded_length (data : list Z) (L : Z) :
  0 <= L -> length (binaryToString (bodyBits data L)) = Z.to_nat L.
Proof.
  intros HL. replace L with (Z.of_nat (Z.to_nat L)) at 1 by lia.
  rewrite body_decoded, length_map, length_seq. reflexivity.
Qed.

Lemma bodyBits_length (data : list Z) (L : Z) :
  length (bodyBits data L) = Z.to_nat (L * 8).
Proof. unfold bodyBits. now rewrite length_map, length_seq. Qed.

Lemma bodyBits_binary (data : list Z) (L : Z) :
  Forall binaryChar (bodyBits data L).
Proof.
  unfold bodyBits. apply List.Forall_map, List.Forall_forall.
  intros i _. apply lsbChar_binary.
Qed.

End TolerantExtraction.

Section RecoveryNonEmpty.

Lemma byteGroup_bitsOf (g : jsstring) :
  byteGroup g -> exists c, 0 <= c <= 255 /\ g = bitsOf c.
Proof.
  intros [Hlen Hbin].
  do 8 (destruct g as [|? g]; [discriminate|]).
  destruct g; [|discriminate].
  repeat match goal with
         | H : Forall binaryChar (_ :: _) |- _ =>
             apply Forall_cons_1 in H; destruct H as [[-> | ->] H]
         end;
    match goal with
    | |- exists c, _ /\ ?g = bitsOf c =>
        exists (fromCharCode (parseInt g (Some 2)))
    end;
    (split; [vm_compute; split; intro; discriminate|vm_compute; reflexivity]).
Qed.

Lemma recoversFirst_all :
  forallb recoversFirst (map Z.of_nat (seq 0 256)) = true.
Proof. vm_compute. reflexivity. Qed.

Lemma recoverGroup_first (g : jsstring) :
  byteGroup g -> (0 < length (recoverGroup g []))%nat.
Proof.
  intros Hg. destruct (byteGroup_bitsOf g Hg) as (c & Hc & ->).
  pose proof recoversFirst_all as Hall. rewrite forallb_forall in Hall.
  specialize (Hall c (in_range 0 256 c ltac:(lia))).
  now apply Nat.ltb_lt in Hall.
Qed.

Lemma recoverGroup_grows (char8bits recovered : jsstring) :
  (length recovered <= length (recoverGroup char8bits recovered))%nat.
Proof.
  unfold recoverGroup.
  remember (fold_left (closestStep char8bits) (seq 32 95) ([], 8))
    as best eqn:Hbest.
  clear Hbest. destruct best as [bm bd].
  destruct (length char8bits =? 8)%nat; [|lia].
  destruct (isPrintableCode _); [rewrite length_app; lia|].
  destruct (bd <=? 3); [rewrite length_app; lia|].
  destruct (length recovered =? 0)%nat; [rewrite length_app; lia|lia].
Qed.

Lemma recovery_fold_grows (messageBinary : jsstring) (indices : list nat)
    (recovered : jsstring) :
  (length recovered
   <= length (fold_left (messageRecoveryStep messageBinary) indices
                recovered))%nat.
Proof.
  revert recovered. induction indices as [|i indices IH]; intros recovered;
    cbn [fold_left]; [lia|].
  eapply Nat.le_trans; [|apply IH].
  rewrite messageRecoveryStep_group. apply recoverGroup_grows.
Qed.

(** With at least eight bits to work on, recovery returns something. *)
Lemma attemptMessageRecovery_nonempty (messageBinary : jsstring) :
  Forall binaryChar messageBinary -> (8 <= length messageBinary)%nat ->
  (0 < length (attemptMessageRecovery messageBinary))%nat.
Proof.
  intros Hbin Hlen. unfold attemptMessageRecovery.
  destruct (Nat.div (length messageBinary + 7) 8) as [|n] eqn:Hn.
  - exfalso.
    assert (1 <= Nat.div (length messageBinary + 7) 8)%nat
      by (apply Nat.div_le_lower_bound; lia).
    lia.
  - cbn [seq map fold_left]. rewrite messageRecoveryStep_group.
    eapply Nat.lt_le_trans; [|apply recovery_fold_grows].
    apply recoverGroup_first. split.
    + rewrite length_take, length_drop. lia.
    + apply Forall_take, Forall_drop. exact Hbin.
Qed.

Lemma countPrintable_printable (s : jsstring) :
  printable s -> countPrintable s = length s.
Proof.
  intros Hs. unfold countPrintable. f_equal.
  induction Hs as [|c s Hc _ IH]; [reflexivity|].
  cbn [List.filter]. unfold isPrintable at 1.
  rewrite (proj2 (Z.leb_le 32 c)), (proj2 (Z.leb_le c 126)) by lia.
  cbn [andb]. now rewrite IH.
Qed.

Lemma recoveryAssessment_printable (m : jsstring) :
  printable m -> (0 < length m)%nat ->
  recoveryAssessment m
  = mathMin 1 (ofNat (length m) / ofNat (Nat.max (length m) 30)).
Proof.
  intros Hp Hlen. unfold recoveryAssessment, printableRatio.
  rewrite (proj2 (Nat.ltb_lt _ _) Hlen), (countPrintable_printable m Hp).
  assert (H1 : (ofNat (length m) / ofNat (length m) == 1)%Q).
  { unfold Qdiv. apply Qmult_inv_r.
    pose proof (ofNat_pos (length m) Hlen). lra. }
  unfold Qgeb.
  assert (H9 : Qle_bool (9 # 10) (ofNat (length m) / ofNat (length m)) = true).
  { apply Qle_bool_iff. rewrite H1. unfold Qle. simpl. lia. }
  now rewrite H9.
Qed.

Lemma mathMin_le_l (a b : Q) : (mathMin a b <= a)%Q.
Proof.
  unfold mathMin. destruct (Qle_bool a b) eqn:E; [apply Qle_refl|].
  destruct (Qlt_le_dec b a) as [H|H]; [now apply Qlt_le_weak|].
  apply Qle_bool_iff in H. congruence.
Qed.

(** The score is at most 1 outside the middle branch, and in it for a
    message of at most 30 characters. *)
Lemma recoveryAssessment_le_1 (m : jsstring) :
  (length m <= 30)%nat -> (recoveryAssessment m <= 1)%Q.
Proof.
  intros Hlen. unfold recoveryAssessment.
  set (p := if (0 <? length m)%nat then printableRatio m else 0%Q).
  assert (Hp : (0 <= p)%Q).
  { unfold p. destruct (0 <? length m)%nat;
      [apply printableRatio_nonneg|apply Qle_refl]. }
  unfold Qgeb.
  destruct (Qle_bool (9 # 10) p) eqn:E9; [apply mathMin_le_l|].
  assert (H9 : (p < 9 # 10)%Q).
  { apply Qnot_le_lt. intros H. apply Qle_bool_iff in H. congruence. }
  assert (Hl : (ofNat (length m) / 30 <= 1)%Q).
  { apply Qle_shift_div_r; [reflexivity|]. rewrite Qmult_1_l.
    unfold ofNat, Qle. simpl. lia. }
  destruct (Qle_bool (5 # 10) p); lra.
Qed.

End RecoveryNonEmpty.

Section ExtractionResults.
Context {buffer : Type} `{Sharp buffer}.

Lemma tolerant_result (b : buffer) (data : list Z) (i : info) :
  ensureAlphaRaw b = Ok (data, i) ->
  exists r,
    extractMessage b true = Ok r
    /\ recoveryScore r = recoveryAssessment (message r)
    /\ bitsRecovered r = 8 * effectiveLength data
    /\ (0 < length (message r))%nat
    /\ ((wasCorrupted r = false
         /\ message r
            = binaryToString (bodyBits data (effectiveLength data)))
        \/ (wasCorrupted r = true /\ printable (message r))).
Proof.
  intros Hraw. unfold extractMessage. rewrite Hraw. cbn [bind].
  pose proof (effectiveLength_range data) as HL.
  destruct (extractBits_tolerant_cases data)
    as (r & Hr & Hscore & Hbits & Hcases).
  exists r. split; [exact Hr|]. split; [exact Hscore|].
  rewrite bodyBits_length in Hbits.
  pose proof (decoded_length data (effectiveLength data) ltac:(lia)) as Hdec.
  pose proof (attemptMessageRecovery_nonempty
                (bodyBits data (effectiveLength data))
                (bodyBits_binary _ _)
                ltac:(rewrite bodyBits_length; lia)) as Hrec.
  split; [lia|].
  destruct Hcases as [[Hw Hm]|[(Hw & _ & Hm)|(Hw & Hempty & _)]].
  - split; [rewrite Hm, Hdec; lia|]. left. now split.
  - split; [rewrite Hm; exact Hrec|]. right. split; [exact Hw|].
    rewrite Hm. apply message_recovery_sound.
  - lia.
Qed.

End ExtractionResults.

(** X5.  Tolerant extraction of an image that decodes never throws: it
    returns a non-empty message read from 8 to 80000 bits after the
    header, with a score that is not negative. *)
Theorem tolerant_extraction_answers {buffer : Type} `{Sharp buffer}
    (b : buffer) (data : list Z) (i : info) :
  ensureAlphaRaw b = Ok (data, i) ->
  exists r,
    extractMessage b true = Ok r
    /\ message r <> []
    /\ 8 <= bitsRecovered r <= 80000
    /\ (0 <= recoveryScore r)%Q.
Proof.
  intros Hraw.
  destruct (tolerant_result b data i Hraw)
    as (r & Hr & Hscore & Hbits & Hlen & _).
  pose proof (effectiveLength_range data).
  exists r. split; [exact Hr|]. split.
  - intros E. rewrite E in Hlen. simpl in Hlen. lia.
  - split; [lia|]. rewrite Hscore. apply recoveryAssessment_nonneg.
Qed.

Lemma tolerant_extraction_answers_witness :
  exists r,
    extractMessage (repeat 255 16) true = Ok r
    /\ message r <> []
    /\ 8 <= bitsRecovered r <= 80000
    /\ (0 <= recoveryScore r)%Q.
Proof.
  assert (Hraw : ensureAlphaRaw (repeat 255 16)
                 = Ok (repeat 255 16, infoOf (repeat 255 16)))
    by reflexivity.
  exact (tolerant_extraction_answers _ _ _ Hraw).
Defined.

(** X6.  A tolerant result flagged [wasCorrupted] went through character
    recovery: its message is printable ASCII only, and its score is
    [min(1, length / max(length, 30))], above 0 and at most 1. *)
Theorem flagged_result_is_printable {buffer : Type} `{Sharp buffer}
    (b : buffer) (r : extraction) :
  extractMessage b true = Ok r -> wasCorrupted r = true ->
  printable (message r)
  /\ recoveryScore r
     = mathMin 1 (ofNat (length (message r))
                  / ofNat (Nat.max (length (message r)) 30))
  /\ (0 < recoveryScore r <= 1)%Q.
Proof.
  intros Hext Hflag.
  destruct (ensureAlphaRaw b) as [[data i]|e] eqn:Hraw;
    [|unfold extractMessage in Hext; rewrite Hraw in Hext; discriminate].
  destruct (tolerant_result b data i Hraw)
    as (r' & Hr & Hscore & _ & Hlen & Hcases).
  rewrite Hext in Hr. injection Hr as <-.
  destruct Hcases as [[Hw _]|[_ Hp]]; [congruence|].
  split; [exact Hp|].
  rewrite Hscore, (recoveryAssessment_printable _ Hp Hlen).
  split; [reflexivity|]. split; [|apply mathMin_le_l].
  unfold mathMin. destruct (Qle_bool 1 _); [reflexivity|].
  apply Qlt_shift_div_l; [apply ofNat_pos; lia|].
  rewrite Qmult_0_l. now apply ofNat_pos.
Qed.

Lemma flagged_result_is_printable_witness :
  exists r,
    extractMessage (repeat 255 200) true = Ok r
    /\ wasCorrupted r = true
    /\ printable (message r)
    /\ (0 < recoveryScore r <= 1)%Q.
Proof.
  assert (Hext : extractMessage (repeat 255 200) true
                 = Ok {| message := [63]; recoveryScore := 1 # 30;
                         bitsRecovered := 8; wasCorrupted := true |})
    by (vm_compute; reflexivity).
  assert (Hflag : wasCorrupted {| message := [63]; recoveryScore := 1 # 30;
                                  bitsRecovered := 8; wasCorrupted := true |}
                  = true) by reflexivity.
  destruct (flagged_result_is_printable _ _ Hext Hflag) as (Hp & _ & Hs).
  eexists. split; [exact Hext|]. split; [exact Hflag|].
  split; [exact Hp|exact Hs].
Defined.

(** X7.  The score of tolerant extraction is never negative; it is at
    most 1 whenever the message returned has at most 30 characters; a
    score above 1 comes only with an unflagged message of more than 30
    characters. *)
Theorem tolerant_score_bounds {buffer : Type} `{Sharp buffer}
    (b : buffer) (r : extraction) :
  extractMessage b true = Ok r ->
  (0 <= recoveryScore r)%Q
  /\ ((length (message r) <= 30)%nat -> (recoveryScore r <= 1)%Q)
  /\ ((1 < recoveryScore r)%Q ->
      wasCorrupted r = false /\ (30 < length (message r))%nat).
Proof.
  intros Hext.
  destruct (ensureAlphaRaw b) as [[data i]|e] eqn:Hraw;
    [|unfold extractMessage in Hext; rewrite Hraw in Hext; discriminate].
  destruct (tolerant_result b data i Hraw)
    as (r' & Hr & Hscore & _ & Hlen & Hcases).
  rewrite Hext in Hr. injection Hr as <-.
  assert (Hshort : (length (message r) <= 30)%nat ->
                   (recoveryScore r <= 1)%Q).
  { intros Hl. rewrite Hscore. now apply recoveryAssessment_le_1. }
  split; [rewrite Hscore; apply recoveryAssessment_nonneg|].
  split; [exact Hshort|].
  intros Hbig. split.
  - destruct Hcases as [[Hw _]|[_ Hp]]; [exact Hw|].
    exfalso. rewrite Hscore, (recoveryAssessment_printable _ Hp Hlen) in Hbig.
    pose proof (mathMin_le_l 1 (ofNat (length (message r))
                                / ofNat (Nat.max (length (message r)) 30))).
    lra.
  - destruct (Nat.le_gt_cases (length (message r)) 30) as [Hl|Hl];
      [|exact Hl].
    specialize (Hshort Hl). lra.
Qed.

Lemma tolerant_score_bounds_witness :
  exists r,
    extractMessage (repeat 255 200) true = Ok r
    /\ (0 <= recoveryScore r)%Q
    /\ ((length (message r) <= 30)%nat -> (recoveryScore r <= 1)%Q).
Proof.
  assert (Hext : extractMessage (repeat 255 200) true
                 = Ok {| message := [63]; recoveryScore := 1 # 30;
                         bitsRecovered := 8; wasCorrupted := true |})
    by (vm_compute; reflexivity).
  destruct (tolerant_score_bounds _ _ Hext) as (H1 & H2 & _).
  eexists. split; [exact Hext|]. split; [exact H1|exact H2].
Defined.

Section StrictExtraction.
Context {buffer : Type} `{Sharp buffer}.

Lemma strict_result (b : buffer) (data : list Z) (i : info) :
  ensureAlphaRaw b = Ok (data, i) ->
  match readLength data with
  | None => extractMessage b false = Throw InvalidLength
  | Some L =>
      extractMessage b false
      = Ok {| message := binaryToString (bodyBits data L);
              recoveryScore := 1;
              bitsRecovered := Z.of_nat (length (bodyBits data L));
              wasCorrupted := false |}
  end.
Proof.
  intros Hraw. unfold extractMessage. rewrite Hraw. cbn [bind].
  destruct (readLength data) as [L|] eqn:Hr.
  - exact (extractBits_strict data L Hr).
  - unfold extractBits. rewrite Hr. reflexivity.
Qed.

End StrictExtraction.

(** X8.  Strict extraction of an image that decodes either throws the
    invalid-length error or returns between 1 and 10000 characters with
    score 1, unflagged; tolerant extraction of the same image then returns
    the same message unless it flags it as corrupted. *)
Theorem strict_extraction_outcomes {buffer : Type} `{Sharp buffer}
    (b : buffer) (data : list Z) (i : info) :
  ensureAlphaRaw b = Ok (data, i) ->
  extractMessage b false = Throw InvalidLength
  \/ exists r,
      extractMessage b false = Ok r
      /\ 1 <= Z.of_nat (length (message r)) <= 10000
      /\ bitsRecovered r = 8 * Z.of_nat (length (message r))
      /\ recoveryScore r = 1%Q
      /\ wasCorrupted r = false
      /\ forall r',
          extractMessage b true = Ok r' -> wasCorrupted r' = false ->
          message r' = message r.
Proof.
  intros Hraw. pose proof (strict_result b data i Hraw) as Hstrict.
  destruct (readLength data) as [L|] eqn:Hr; [right|left; exact Hstrict].
  pose proof (readLength_range data L Hr) as HL.
  eexists. split; [exact Hstrict|]. cbn [message recoveryScore
    bitsRecovered wasCorrupted].
  rewrite (decoded_length data L ltac:(lia)), bodyBits_length.
  split; [lia|]. split; [lia|]. split; [reflexivity|].
  split; [reflexivity|].
  intros r' Hr' Hflag.
  destruct (tolerant_result b data i Hraw)
    as (r'' & Hr'' & _ & _ & _ & Hcases).
  rewrite Hr' in Hr''. injection Hr'' as <-.
  destruct Hcases as [[_ Hm]|[Hw _]]; [|congruence].
  rewrite Hm. unfold effectiveLength. now rewrite Hr.
Qed.

Lemma strict_extraction_outcomes_witness :
  extractMessage (repeat 255 16) false = Throw InvalidLength
  \/ exists r,
      extractMessage (repeat 255 16) false = Ok r
      /\ 1 <= Z.of_nat (length (message r)) <= 10000.
Proof.
  assert (Hraw : ensureAlphaRaw (repeat 255 16)
                 = Ok (repeat 255 16, infoOf (repeat 255 16)))
    by reflexivity.
  destruct (strict_extraction_outcomes _ _ _ Hraw)
    as [Hthrow|(r & Hr & Hlen & _)].
  - left. exact Hthrow.
  - right. exists r. split; [exact Hr|exact Hlen].
Defined.

(** ** What embedding changes *)

Section EmbedChanges.

Lemma embedPrefix_value (messageBinary : jsstring) (n : nat)
    (data : list Z) (i : nat) (d : Z) :
  (i < n)%nat -> data !! i = Some d ->
  embedPrefix messageBinary n data !! i
  = Some (toUint8 (Z.lor (Z.land d 254) (bitAt messageBinary i))).
Proof.
  intros Hi Hd. pose proof (lookup_lt_Some _ _ _ Hd) as Hlt.
  induction n as [|n IH]; [lia|].
  rewrite embedPrefix_S. unfold embedStep.
  destruct (decide (i = n)) as [-> | Hne].
  - rewrite list_lookup_insert_eq
      by (rewrite (embedPrefix_length messageBinary); lia).
    rewrite (embedPrefix_untouched messageBinary n data n) by lia.
    rewrite Hd. reflexivity.
  - rewrite list_lookup_insert_ne by lia. apply IH. lia.
Qed.

Lemma storesBit_all :
  forallb (fun d => storesBit d 0 && storesBit d 1)
    (map Z.of_nat (seq 0 256)) = true.
Proof. vm_compute. reflexivity. Qed.

Lemma storesBit_spec (d b : Z) :
  0 <= d <= 255 -> b = 0 \/ b = 1 ->
  let v := toUint8 (Z.lor (Z.land d 254) b) in
  v / 2 = d / 2 /\ v mod 2 = b /\ 0 <= v <= 255.
Proof.
  intros Hd Hb. pose proof storesBit_all as Hall.
  rewrite forallb_forall in Hall.
  specialize (Hall d (in_range 0 256 d ltac:(lia))).
  apply andb_prop in Hall as [H0 H1].
  assert (Hs : storesBit d b = true) by (destruct Hb as [-> | ->]; assumption).
  unfold storesBit in Hs.
  apply andb_prop in Hs as [Hs H4]. apply andb_prop in Hs as [Hs H3].
  apply andb_prop in Hs as [Hs1 Hs2].
  apply Z.eqb_eq in Hs1. apply Z.eqb_eq in Hs2.
  apply Z.leb_le in H3. apply Z.leb_le in H4. cbv zeta. lia.
Qed.

(** The bytes of the stego buffer, against those of the cover. *)
Lemma embedLoop_bytes (messageBinary : jsstring) (data : list Z) :
  Forall binaryChar messageBinary -> bytes data ->
  (length messageBinary <= length data)%nat ->
  forall (j : nat) (d : Z),
    data !! j = Some d ->
    exists d',
      embedLoop messageBinary data !! j = Some d'
      /\ 0 <= d' <= 255
      /\ d' / 2 = d / 2
      /\ (forall c, messageBinary !! j = Some c -> 48 + d' mod 2 = c)
      /\ ((length messageBinary <= j)%nat -> d' = d).
Proof.
  intros Hbin Hbytes Hfit j d Hd.
  assert (Hrange : 0 <= d <= 255).
  { unfold bytes in Hbytes. rewrite List.Forall_forall in Hbytes.
    apply Hbytes. eapply list_elem_of_In, list_elem_of_lookup_2, Hd. }
  unfold embedLoop. fold (embedPrefix messageBinary (length messageBinary) data).
  destruct (Nat.lt_ge_cases j (length messageBinary)) as [Hj|Hj].
  - destruct (lookup_lt_is_Some_2 messageBinary j Hj) as [c Hc].
    assert (Hb : binaryChar c).
    { rewrite List.Forall_forall in Hbin. apply Hbin.
      eapply list_elem_of_In, list_elem_of_lookup_2, Hc. }
    destruct (bitAt_binary _ _ _ Hc Hb) as [H01 Hchar].
    destruct (storesBit_spec d (bitAt messageBinary j) Hrange H01)
      as (Hhigh & Hlow & Hv).
    eexists. split; [exact (embedPrefix_value _ _ _ _ _ Hj Hd)|].
    split; [exact Hv|]. split; [exact Hhigh|]. split; [|lia].
    intros c' Hc'. rewrite Hc in Hc'. injection Hc' as <-.
    cbv zeta in Hlow. rewrite Hlow. exact Hchar.
  - exists d. split; [rewrite embedPrefix_untouched by lia; exact Hd|].
    split; [exact Hrange|]. split; [reflexivity|]. split; [|reflexivity].
    intros c Hc. apply lookup_lt_Some in Hc. lia.
Qed.

End EmbedChanges.

(** X9.  [embedMessage] changes nothing but least significant bits: the
    stego image decodes to as many bytes as the cover; each byte keeps its
    seven high bits; within the payload its lowest bit is the payload bit;
    past the payload it is the cover's byte.  The metadata reports the
    payload length as [bitsUsed] and the raw byte count as [capacity]. *)
Theorem embed_changes_low_bits_only {buffer : Type} `{SharpLaws buffer}
    (cover stego : buffer) (data : list Z) (i : info) (message : jsstring)
    (meta : embedMetadata) :
  ensureAlphaRaw cover = Ok (data, i) -> bytes data ->
  latin1 message -> Z.of_nat (length message) <= maxStringLength ->
  embedMessage cover message = Ok (stego, meta) ->
  bitsUsed meta = 128 + 8 * Z.of_nat (length message)
  /\ capacity meta = Z.of_nat (length data)
  /\ exists stegoData,
      ensureAlphaRaw stego = Ok (stegoData, i)
      /\ length stegoData = length data
      /\ forall (j : nat) (d : Z),
          data !! j = Some d ->
          exists d',
            stegoData !! j = Some d'
            /\ 0 <= d' <= 255
            /\ d' / 2 = d / 2
            /\ (forall c, payload message !! j = Some c -> 48 + d' mod 2 = c)
            /\ ((128 + 8 * length message <= j)%nat -> d' = d).
Proof.
  intros Hraw Hbytes Hm Hmax Hok.
  destruct (embedMessage_inv cover stego data i message meta Hraw Hok)
    as [Hfit Hstego].
  destruct (payload_spec message Hm Hmax) as (_ & _ & Hlen & Hbin).
  assert (Hmeta : bitsUsed meta = Z.of_nat (length (payload message))
                  /\ capacity meta = Z.of_nat (length data)).
  { unfold embedMessage in Hok.
    destruct (metadata cover); [|discriminate]. rewrite Hraw in Hok.
    cbn [bind] in Hok. rewrite embedBits_fits in Hok by assumption.
    cbn [bind snd] in Hok.
    destruct (pngFromRaw _ i); [|discriminate].
    cbn [bind] in Hok. injection Hok as _ <-. split; reflexivity. }
  destruct Hmeta as [Hused Hcap].
  split; [rewrite Hused, Hlen; lia|]. split; [exact Hcap|].
  exists (embedLoop (payload message) data).
  split; [exact Hstego|]. split; [apply embedLoop_length|].
  intros j d Hd.
  destruct (embedLoop_bytes (payload message) data Hbin Hbytes Hfit j d Hd)
    as (d' & H1 & H2 & H3 & H4 & H5).
  exists d'. rewrite Hlen in H5. auto.
Qed.

Lemma embed_changes_low_bits_only_witness :
  exists stego meta stegoData,
    embedMessage (repeat 255 200) hello = Ok (stego, meta)
    /\ bitsUsed meta = 128 + 8 * Z.of_nat (length hello)
    /\ ensureAlphaRaw stego = Ok (stegoData, infoOf (repeat 255 200))
    /\ length stegoData = length (repeat 255 200).
Proof.
  assert (Hraw : ensureAlphaRaw (repeat 255 200)
                 = Ok (repeat 255 200, infoOf (repeat 255 200)))
    by reflexivity.
  assert (Hbytes : bytes (repeat 255 200)).
  { apply List.Forall_forall. intros x Hx. apply repeat_spec in Hx. lia. }
  assert (Hm : latin1 hello) by (repeat constructor; lia).
  assert (Hmax : Z.of_nat (length hello) <= maxStringLength)
    by (vm_compute; discriminate).
  assert (Hok : embedMessage (repeat 255 200) hello
                = Ok (embedLoop (payload hello) (repeat 255 200),
                      {| originalSize := 200; stegoSize := 200;
                         em_messageLength := 5; bitsUsed := 168;
                         capacity := 200 |}))
    by (vm_compute; reflexivity).
  destruct (embed_changes_low_bits_only _ _ _ _ _ _ Hraw Hbytes Hm Hmax Hok)
    as (Hused & _ & stegoData & Hstego & Hlen & _).
  eexists. eexists. exists stegoData.
  split; [exact Hok|]. split; [exact Hused|]. split; [exact Hstego|exact Hlen].
Defined.

(** ** Bit corruption *)

Lemma differing_same (a : list Z) : differing a a = 0%nat.
Proof.
  induction a as [|x a IH]; [reflexivity|].
  cbn [differing]. rewrite Z.eqb_refl, IH. reflexivity.
Qed.


Lemma differing_zero (a b : list Z) :
  length a = length b -> differing a b = 0%nat -> a = b.
Proof.
  revert b. induction a as [|x a IH]; intros [|y b] Hlen Hd;
    try discriminate; [reflexivity|].
  cbn [differing] in Hd. destruct (Z.eqb_spec x y) as [->|]; [|lia].
  f_equal. apply IH; [now injection Hlen|lia].
Qed.

Lemma bytes_insert (data : list Z) (j : nat) (v : Z) :
  bytes data -> 0 <= v <= 255 -> bytes (<[ j := v ]> data).
Proof.
  unfold bytes. intros Hd Hv. revert j.
  induction Hd as [|x l Hx Hl IH]; intros [|j]; simpl;
    constructor; auto.
Qed.

Section BitCorruption.
Context {buffer : Type} `{SharpLaws buffer}.
Variable rnd : entropy.




End BitCorruption.



(** ** Gaussian noise *)

Lemma bytes_lookup (data : list Z) (j : nat) (v : Z) :
  bytes data -> data !! j = Some v -> 0 <= v <= 255.
Proof.
  unfold bytes. rewrite List.Forall_forall. intros Hb Hv.
  apply Hb. eapply list_elem_of_In, list_elem_of_lookup_2, Hv.
Qed.

Lemma noisyByte_range (v : Z) (noise : Q) : 0 <= noisyByte v noise <= 255.
Proof.
  unfold noisyByte, toUint8.
  pose proof (Z.mod_pos_bound
    (Qfloor (mathMax 0 (mathMin 255 (inject_Z v + noise)))) 256). lia.
Qed.

Lemma noisyByte_flat (v : Z) (noise : Q) :
  0 <= v <= 255 -> (noise == 0)%Q -> noisyByte v noise = v.
Proof.
  intros Hv Hn.
  assert (Hlo : (0 <= inject_Z v)%Q)
    by (change 0%Q with (inject_Z 0); rewrite <- Zle_Qle; lia).
  assert (Hhi : (inject_Z v <= 255)%Q)
    by (change 255%Q with (inject_Z 255); rewrite <- Zle_Qle; lia).
  assert (E : (mathMax 0 (mathMin 255 (inject_Z v + noise)) == inject_Z v)%Q).
  { unfold mathMax, mathMin.
    destruct (Qle_bool 255 (inject_Z v + noise)) eqn:E1.
    - apply Qle_bool_iff in E1.
      destruct (Qle_bool 0 255) eqn:E2; [lra|discriminate E2].
    - destruct (Qle_bool 0 (inject_Z v + noise)) eqn:E2.
      + lra.
      + exfalso.
        assert (H0 : (0 <= inject_Z v + noise)%Q) by lra.
        apply Qle_bool_iff in H0. congruence. }
  unfold noisyByte, toUint8. rewrite E, Qfloor_Z.
  apply Z.mod_small. lia.
Qed.

Section GaussianNoise.
Context {buffer : Type} `{Sharp buffer}.
Variable rnd : entropy.
Variable sigma : Q.
Variable data : list Z.

Lemma noiseWrite_spec (j : nat) (cur : list Z) (k : nat) :
  exists cur',
    Transforms.noiseWrite rnd sigma data j (cur, k) = (cur', S (S k))
    /\ length cur' = length cur
    /\ (forall j', j' <> j -> cur' !! j' = cur !! j')
    /\ (bytes cur -> bytes cur')
    /\ ((sigma == 0)%Q -> bytes data -> cur = data -> cur' = data).
Proof.
  unfold Transforms.noiseWrite.
  set (noise := (boxMuller rnd _ _ * sigma * 255)%Q).
  destruct (data !! j) as [v|] eqn:Hv.
  - eexists. split; [reflexivity|].
    split; [apply length_insert|].
    split; [intros j' Hne; apply list_lookup_insert_ne; congruence|].
    split; [intros Hb; apply bytes_insert; [exact Hb|apply noisyByte_range]|].
    intros Hs Hb ->.
    rewrite noisyByte_flat;
      [apply list_insert_id; exact Hv
      |exact (bytes_lookup _ _ _ Hb Hv)
      |unfold noise; rewrite Hs; ring].
  - exists cur. repeat split; auto.
Qed.

Lemma noiseStep_spec (channels : Z) (cur : list Z) (k i : nat) :
  exists cur',
    Transforms.noiseStep rnd sigma channels data (cur, k) i
    = (cur', (k + 6)%nat)
    /\ length cur' = length cur
    /\ (forall j', j' <> i -> j' <> (i + 1)%nat -> j' <> (i + 2)%nat ->
        cur !! j' = data !! j' -> cur' !! j' = data !! j')
    /\ (bytes data -> bytes cur -> bytes cur')
    /\ ((sigma == 0)%Q -> bytes data -> cur = data -> cur' = data).
Proof.
  unfold Transforms.noiseStep.
  destruct (noiseWrite_spec i cur k) as (c1 & -> & L1 & K1 & B1 & S1).
  destruct (noiseWrite_spec (i + 1) c1 (S (S k)))
    as (c2 & -> & L2 & K2 & B2 & S2).
  destruct (noiseWrite_spec (i + 2) c2 (S (S (S (S k)))))
    as (c3 & -> & L3 & K3 & B3 & S3).
  replace (S (S (S (S (S (S k)))))) with (k + 6)%nat by lia.
  assert (Keep : forall j', j' <> i -> j' <> (i + 1)%nat ->
                   j' <> (i + 2)%nat -> c3 !! j' = cur !! j').
  { intros j' H0 H1 H2. rewrite K3, K2, K1 by assumption. reflexivity. }
  destruct (channels =? 4); [destruct (data !! (i + 3)%nat) as [v|] eqn:Hv|].
  - eexists. split; [reflexivity|].
    split; [rewrite length_insert; congruence|].
    split.
    { intros j' H0 H1 H2 Hj.
      destruct (decide (j' = (i + 3)%nat)) as [-> | Hne].
      - rewrite Hv. apply list_lookup_insert_eq.
        rewrite L3, L2, L1. rewrite Hv in Hj.
        eapply lookup_lt_Some, Hj.
      - rewrite list_lookup_insert_ne by congruence.
        rewrite Keep by assumption. exact Hj. }
    split.
    { intros Hd Hc. apply bytes_insert; [auto|].
      exact (bytes_lookup _ _ _ Hd Hv). }
    intros Hs Hd Hc.
    rewrite (S3 Hs Hd (S2 Hs Hd (S1 Hs Hd Hc))).
    apply list_insert_id. exact Hv.
  - exists c3. split; [reflexivity|]. split; [congruence|].
    split; [intros j' H0 H1 H2 Hj; rewrite Keep by assumption; exact Hj|].
    split; [auto|]. intros Hs Hd Hc. auto.
  - exists c3. split; [reflexivity|]. split; [congruence|].
    split; [intros j' H0 H1 H2 Hj; rewrite Keep by assumption; exact Hj|].
    split; [auto|]. intros Hs Hd Hc. auto.
Qed.

(** The loop, over pixel offsets that are multiples of [step]. *)
Lemma noiseLoop_spec (channels : Z) (step rounds : nat) (k : nat) :
  exists noisy,
    fold_left (Transforms.noiseStep rnd sigma channels data)
      (map (fun r => (r * step)%nat) (seq 0 rounds)) (data, k)
    = (noisy, (k + 6 * rounds)%nat)
    /\ length noisy = length data
    /\ (step = 4%nat ->
        forall q, noisy !! (4 * q + 3)%nat = data !! (4 * q + 3)%nat)
    /\ (bytes data -> bytes noisy)
    /\ ((sigma == 0)%Q -> bytes data -> noisy = data).
Proof.
  induction rounds as [|n (cur & Hfold & Hlen & Halpha & Hbytes & Hflat)].
  - exists data. cbn [seq map fold_left]. rewrite Nat.add_0_r.
    repeat split; auto.
  - rewrite (seq_S n 0), map_app, fold_left_app, Hfold.
    cbn [map fold_left Nat.add].
    destruct (noiseStep_spec channels cur (k + 6 * n) (n * step))
      as (cur' & -> & L & K & B & S0).
    exists cur'. split; [f_equal; lia|]. split; [congruence|].
    split.
    { intros Hstep q. subst step.
      apply K; try lia. apply Halpha. reflexivity. }
    split; [auto|]. intros Hs Hd. auto.
Qed.

End GaussianNoise.

(** X11.  [applyGaussianNoise] with sigma in [0, 1], on an image of bytes
    with a positive channel count: the buffer handed to the PNG encoder
    has the size of the decoded image and holds bytes; six random draws are
    made per pixel; with four channels every alpha byte is the original
    one.  With sigma 0 the buffer is the decoded image, provided no draw
    is 0 (the noise of a draw of 0 is not a finite number, and its product
    with 0 is stored as the byte 0). *)
Theorem gaussian_noise_keeps_shape {buffer : Type} `{Sharp buffer}
    (rnd : entropy) (b : buffer) (m i0 : info) (data : list Z) (sigma : Q)
    (k : nat) :
  metadata b = Ok m -> raw b = Ok (data, i0) ->
  0 < channels m -> (0 <= sigma <= 1)%Q -> bytes data ->
  let step := Z.to_nat (channels m) in
  let rounds := Nat.div (length data + step - 1) step in
  exists noisy,
    Transforms.applyGaussianNoise rnd b sigma k
    = Transforms.pure (pngFromRaw noisy m) (k + 6 * rounds)
    /\ length noisy = length data
    /\ bytes noisy
    /\ (channels m = 4 ->
        forall q, noisy !! (4 * q + 3)%nat = data !! (4 * q + 3)%nat)
    /\ ((sigma == 0)%Q -> (forall j, (0 < random rnd j)%Q) ->
        noisy = data).
Proof.
  intros Hmeta Hraw Hch [Hlo Hhi] Hbytes step rounds.
  destruct (noiseLoop_spec rnd sigma data (channels m) step rounds k)
    as (noisy & Hfold & Hlen & Halpha & Hb & Hflat).
  exists noisy. split.
  - unfold Transforms.applyGaussianNoise, Transforms.pure.
    assert (E1 : Qltb sigma 0 = false).
    { unfold Qltb. apply Qle_bool_iff in Hlo. now rewrite Hlo. }
    assert (E2 : Qltb 1 sigma = false).
    { unfold Qltb. apply Qle_bool_iff in Hhi. now rewrite Hhi. }
    rewrite E1, E2, Hmeta, Hraw. cbn [orb bind].
    fold step. fold rounds. rewrite Hfold. reflexivity.
  - split; [exact Hlen|]. split; [auto|]. split; [|auto].
    intros H4. apply Halpha. unfold step. rewrite H4. reflexivity.
Qed.

Lemma gaussian_noise_keeps_shape_witness :
  exists noisy,
    Transforms.applyGaussianNoise still (repeat 255 200) (5 # 100) 0
    = Transforms.pure (pngFromRaw noisy (infoOf (repeat 255 200))) 300
    /\ length noisy = 200%nat.
Proof.
  assert (Hb : bytes (repeat 255 200)).
  { apply List.Forall_forall. intros x Hx. apply repeat_spec in Hx. lia. }
  assert (Hmeta : metadata (repeat 255 200)
                  = Ok (infoOf (repeat 255 200))) by reflexivity.
  assert (Hraw : raw (repeat 255 200)
                 = Ok (repeat 255 200, infoOf (repeat 255 200)))
    by reflexivity.
  assert (Hch : 0 < channels (infoOf (repeat 255 200))) by reflexivity.
  assert (Hs : (0 <= 5 # 100 <= 1)%Q) by (split; discriminate).
  destruct (gaussian_noise_keeps_shape still _ _ _ _ (5 # 100) 0%nat
              Hmeta Hraw Hch Hs Hb)
    as (noisy & Hrun & Hlen & _).
  exists noisy. split; [exact Hrun|]. rewrite Hlen. apply repeat_length.
Defined.

(** ** Cropping *)






(** ** Chains of transforms *)

Section TransformChain.
Import Chain.
Context {buffer : Type} `{Sharp buffer}.
Variable rnd : entropy.

(** The results pushed before the loop starts stay in front. *)
Lemma chainLoop_pushed (transforms : list Transforms.transform)
    (image : Transforms.imageObject buffer) (pushed : list (applied buffer))
    (k : nat) :
  chainLoop rnd transforms image pushed k
  = let* (final, chain, k') := chainLoop rnd transforms image [] k in
    Ok (final, pushed ++ chain, k').
Proof.
  revert image pushed k.
  induction transforms as [|t rest IH]; intros image pushed k.
  - cbn [chainLoop bind]. now rewrite app_nil_r.
  - cbn [chainLoop].
    destruct (applyTransformResult rnd image t k) as [[r k1]|e];
      [|reflexivity].
    cbn [bind]. rewrite (IH _ (pushed ++ [r])), (IH _ ([] ++ [r])).
    destruct (chainLoop rnd rest (a_image r) [] k1) as [[[fin c] k2]|e];
      [|reflexivity].
    cbn [bind]. now rewrite <- app_assoc.
Qed.

Lemma chainLoop_app (first second : list Transforms.transform)
    (image : Transforms.imageObject buffer) (pushed : list (applied buffer))
    (k : nat) :
  chainLoop rnd (first ++ second) image pushed k
  = let* (middle, chain1, k1) := chainLoop rnd first image pushed k in
    chainLoop rnd second middle chain1 k1.
Proof.
  revert image pushed k.
  induction first as [|t rest IH]; intros image pushed k; [reflexivity|].
  cbn [app chainLoop].
  destruct (applyTransformResult rnd image t k) as [[r k1]|e];
    [|reflexivity].
  cbn [bind]. apply IH.
Qed.

Lemma applyTransformChain_app (first second : list Transforms.transform)
    (image : Transforms.imageObject buffer) (k : nat) :
  applyTransformChain rnd image (first ++ second) k
  = let* (middle, chain1, k1) := applyTransformChain rnd image first k in
    let* (final, chain2, k2) := applyTransformChain rnd middle second k1 in
    Ok (final, chain1 ++ chain2, k2).
Proof.
  unfold applyTransformChain. rewrite chainLoop_app.
  destruct (chainLoop rnd first image [] k) as [[[middle c1] k1]|e];
    [|reflexivity].
  cbn [bind]. apply chainLoop_pushed.
Qed.

Lemma applyTransformResult_inv (image : Transforms.imageObject buffer)
    (t : Transforms.transform) (k k' : nat) (r : applied buffer) :
  applyTransformResult rnd image t k = Ok (r, k') ->
  a_type r = Transforms.type t
  /\ a_params r = default Transforms.noParameters (Transforms.params t)
  /\ Transforms.io_name (a_image r)
     = String.append (Transforms.io_name image) (nameSuffix t).
Proof.
  unfold applyTransformResult, Transforms.applyTransform.
  destruct (Transforms.dispatch rnd (Transforms.io_buffer image) t k)
    as [[tb k1]|e]; [|discriminate].
  cbn [bind]. destruct (metadata tb); [|discriminate].
  cbn [bind]. intros E. injection E as <- _. repeat split.
Qed.

Lemma applyTransformChain_shape (transforms : list Transforms.transform)
    (image final : Transforms.imageObject buffer)
    (chain : list (applied buffer)) (k k' : nat) :
  applyTransformChain rnd image transforms k = Ok (final, chain, k') ->
  map a_type chain = map Transforms.type transforms
  /\ map a_params chain
     = map (fun t => default Transforms.noParameters (Transforms.params t))
         transforms
  /\ final = default image (a_image <$> last chain)
  /\ Transforms.io_name final
     = fold_left String.append (map nameSuffix transforms)
         (Transforms.io_name image).
Proof.
  unfold applyTransformChain. revert image final chain k k'.
  induction transforms as [|t rest IH]; intros image final chain k k' Hrun.
  - cbn [chainLoop] in Hrun. injection Hrun as <- <- _. repeat split.
  - cbn [chainLoop] in Hrun.
    destruct (applyTransformResult rnd image t k) as [[r k1]|e] eqn:Hr;
      [|discriminate].
    cbn [bind] in Hrun. rewrite chainLoop_pushed in Hrun.
    destruct (chainLoop rnd rest (a_image r) [] k1) as [[[fin c] k2]|e]
      eqn:Hrest; [|discriminate].
    cbn [bind] in Hrun. injection Hrun as <- <- _.
    destruct (IH _ _ _ _ _ Hrest) as (Ht & Hp & Hfin & Hname).
    destruct (applyTransformResult_inv _ _ _ _ _ Hr) as (Hrt & Hrp & Hrn).
    cbn [app map fold_left]. rewrite Ht, Hp, Hrt, Hrp, Hname, Hrn.
    repeat split. rewrite Hfin.
    destruct c as [|x c]; [reflexivity|].
    change (last (r :: x :: c)) with (last (x :: c)).
    destruct (last (x :: c)) eqn:Elast; [reflexivity|].
    apply last_None in Elast. discriminate.
Qed.

End TransformChain.

(** X13.  [applyTransformChain] composes: running a chain [first ++ second]
    is running [first], then [second] on the image [first] ended on, with
    the random draws continuing; the recorded entries are those of the two
    runs in order, and an error of either part is the error of the whole. *)
Theorem transform_chain_composes {buffer : Type} `{Sharp buffer}
    (rnd : entropy) (first second : list Transforms.transform)
    (image : Transforms.imageObject buffer) (k : nat) :
  Chain.applyTransformChain rnd image (first ++ second) k
  = let* (middle, chain1, k1) :=
      Chain.applyTransformChain rnd image first k in
    let* (final, chain2, k2) :=
      Chain.applyTransformChain rnd middle second k1 in
    Ok (final, chain1 ++ chain2, k2).
Proof. apply applyTransformChain_app. Qed.

(** X14.  A chain that succeeds records one entry per transform, in order,
    with the transform's type and parameters; the final image is the image
    of the last entry (the input image for an empty chain), and its name is
    the input's name followed by one [_type] suffix per transform. *)
Theorem transform_chain_shape {buffer : Type} `{Sharp buffer}
    (rnd : entropy) (transforms : list Transforms.transform)
    (image final : Transforms.imageObject buffer)
    (chain : list (Chain.applied buffer)) (k k' : nat) :
  Chain.applyTransformChain rnd image transforms k = Ok (final, chain, k') ->
  map Chain.a_type chain = map Transforms.type transforms
  /\ map Chain.a_params chain
     = map (fun t => default Transforms.noParameters (Transforms.params t))
         transforms
  /\ final = default image (Chain.a_image <$> last chain)
  /\ Transforms.io_name final
     = fold_left String.append (map Chain.nameSuffix transforms)
         (Transforms.io_name image).
Proof. apply applyTransformChain_shape. Qed.

Lemma transform_chain_shape_witness :
  exists final chain,
    Chain.applyTransformChain still (picture "a.png")
      (Runner.cfg_transforms goodChain) 0
    = Ok (final, chain, 4%nat)
    /\ length chain = 2%nat
    /\ Transforms.io_name final = "a.png_undefined_undefined"%string.
Proof.
  assert (Hrun : exists final chain,
             Chain.applyTransformChain still (picture "a.png")
               (Runner.cfg_transforms goodChain) 0
             = Ok (final, chain, 4%nat)).
  { eexists. eexists. vm_compute. reflexivity. }
  destruct Hrun as (final & chain & Hrun).
  destruct (transform_chain_shape _ _ _ _ _ _ _ Hrun)
    as (Ht & _ & _ & Hname).
  exists final, chain. split; [exact Hrun|]. split.
  - apply (f_equal (@length _)) in Ht. rewrite !length_map in Ht. exact Ht.
  - exact Hname.
Defined.

(** ** Capacity, and the dry run of the model *)

Section Capacity.
Context {buffer : Type} `{SharpLaws buffer}.

Lemma calculateCapacity_spec (b : buffer) (rawData data : list Z)
    (ri i : info) :
  raw b = Ok (rawData, ri) -> ensureAlphaRaw b = Ok (data, i) ->
  calculateCapacity b = Ok ((Z.of_nat (length rawData) - 128) / 8).
Proof.
  intros Hraw Halpha.
  destruct (decodable_metadata b data i Halpha) as [m Hm].
  unfold calculateCapacity. rewrite Hm, Hraw. reflexivity.
Qed.

Lemma capacity_fits (b : buffer) (rawData data : list Z) (ri i : info)
    (message : jsstring) :
  raw b = Ok (rawData, ri) -> ensureAlphaRaw b = Ok (data, i) ->
  (length rawData <= length data)%nat ->
  latin1 message -> Z.of_nat (length message) <= maxStringLength ->
  Z.of_nat (length message) <= (Z.of_nat (length rawData) - 128) / 8 ->
  (length (payload message) <= length data)%nat.
Proof.
  intros Hraw Halpha Hle Hm Hmax Hcap.
  destruct (payload_spec message Hm Hmax) as (_ & _ & -> & _).
  pose proof (Z.mul_div_le (Z.of_nat (length rawData) - 128) 8 ltac:(lia)).
  lia.
Qed.

Lemma capacity_exceeded (b : buffer) (data : list Z) (i : info)
    (message : jsstring) :
  ensureAlphaRaw b = Ok (data, i) ->
  (Z.of_nat (length data) - 128) / 8 < Z.of_nat (length message) ->
  embedMessage b message
  = Throw (MessageTooLong ((Z.of_nat (length data) - 128) / 8 + 16)
             (Z.of_nat (length message))).
Proof.
  intros Halpha Hcap.
  assert (E : (Z.of_nat (length data) - 128) / 8 + 16
              = Z.of_nat (length data) / 8).
  { rewrite <- Z.div_add by lia. f_equal. lia. }
  rewrite E. apply (embedMessage_overflow b data i message Halpha).
  pose proof (payload_length_ge message).
  pose proof (Z.mul_succ_div_gt (Z.of_nat (length data) - 128) 8 ltac:(lia)).
  lia.
Qed.

End Capacity.

(** X15.  The capacity [calculateCapacity] reports is honoured by
    [embedMessage]: a single-byte message of at most [maxChars] characters
    is embedded (adding the alpha channel cannot shrink the raw buffer).
    When the image already has its alpha channel the limit is exact: one
    character more is refused, by an error whose text names
    [maxChars + 16] as the maximum. *)
Theorem capacity_is_honoured {buffer : Type} `{SharpLaws buffer}
    (b : buffer) (rawData data : list Z) (ri i : info)
    (message : jsstring) :
  raw b = Ok (rawData, ri) -> ensureAlphaRaw b = Ok (data, i) ->
  (length rawData <= length data)%nat ->
  latin1 message -> Z.of_nat (length message) <= maxStringLength ->
  exists maxChars,
    calculateCapacity b = Ok maxChars
    /\ maxChars = (Z.of_nat (length rawData) - 128) / 8
    /\ (Z.of_nat (length message) <= maxChars ->
        exists stego meta, embedMessage b message = Ok (stego, meta))
    /\ (length rawData = length data ->
        maxChars < Z.of_nat (length message) ->
        embedMessage b message
        = Throw (MessageTooLong (maxChars + 16)
                   (Z.of_nat (length message)))).
Proof.
  intros Hraw Halpha Hle Hm Hmax.
  eexists. split; [exact (calculateCapacity_spec b _ _ _ _ Hraw Halpha)|].
  split; [reflexivity|]. split.
  - intros Hcap.
    pose proof (capacity_fits b _ _ _ _ message Hraw Halpha Hle Hm Hmax Hcap)
      as Hfit.
    destruct (embedMessage_fits b data i message Halpha Hfit)
      as (stego & meta & Hok & _).
    exists stego, meta. exact Hok.
  - intros Hsame Hcap. rewrite Hsame in *.
    exact (capacity_exceeded b data i message Halpha Hcap).
Qed.

Lemma capacity_is_honoured_witness :
  calculateCapacity (repeat 255 200) = Ok 9
  /\ (exists stego meta,
        embedMessage (repeat 255 200) hello = Ok (stego, meta))
  /\ embedMessage (repeat 255 200) (repeat 65 10)
     = Throw (MessageTooLong 25 10).
Proof.
  assert (Hraw : raw (repeat 255 200)
                 = Ok (repeat 255 200, infoOf (repeat 255 200)))
    by reflexivity.
  assert (Halpha : ensureAlphaRaw (repeat 255 200)
                   = Ok (repeat 255 200, infoOf (repeat 255 200)))
    by reflexivity.
  assert (Hle : (length (repeat 255 200) <= length (repeat 255 200))%nat)
    by lia.
  assert (Hbig : forall m : jsstring,
             (length m <= 10)%nat -> Z.of_nat (length m) <= maxStringLength).
  { intros m Hm. unfold maxStringLength. lia. }
  assert (H5 : latin1 hello) by (repeat constructor; lia).
  assert (H10 : latin1 (repeat 65 10)) by (repeat constructor; lia).
  destruct (capacity_is_honoured _ _ _ _ _ hello Hraw Halpha Hle H5
              (Hbig hello ltac:(cbn; lia)))
    as (c5 & Hc5 & E5 & Hfit & _).
  destruct (capacity_is_honoured _ _ _ _ _ (repeat 65 10) Hraw Halpha Hle
              H10 (Hbig (repeat 65 10) ltac:(cbn; lia)))
    as (c10 & _ & E10 & _ & Hover).
  assert (V : (Z.of_nat (length (repeat 255 200)) - 128) / 8 = 9)
    by (vm_compute; reflexivity).
  rewrite V in E5, E10. subst c5 c10.
  split; [exact Hc5|]. split.
  - apply Hfit. cbn. lia.
  - apply (Hover eq_refl). cbn. lia.
Defined.

Section DryRun.
Context {buffer : Type} `{SharpLaws buffer}.
Variable rnd : entropy.
Variable demoText : jsstring.

Lemma dryRunBody_success (b : buffer) (demoMessage : jsstring) (k : nat)
    (r : Runner.stegoResult buffer) :
  Runner.dryRunBody rnd b demoMessage k = Ok r ->
  Runner.success r = true
  /\ Runner.originalMessage r = Some demoMessage
  /\ Runner.sr_error r = None
  /\ exists stego meta,
      embedMessage b demoMessage = Ok (stego, meta)
      /\ Runner.stegoImage r = Some stego.
Proof.
  unfold Runner.dryRunBody.
  destruct (calculateCapacity b) as [c|e]; [|discriminate].
  cbn [bind].
  destruct (embedMessage b demoMessage) as [[stego meta]|e]; [|discriminate].
  cbn [bind].
  destruct (extractMessage stego false) as [ext|e]; [|discriminate].
  cbn [bind]. intros E. injection E as <-.
  repeat split. exists stego, meta. split; reflexivity.
Qed.

Lemma dryRun_verified (image : Transforms.imageObject buffer)
    (customMessage : option jsstring) (rawData data : list Z) (ri i : info)
    (k : nat) :
  let demoMessage := Runner.orMessage customMessage demoText in
  raw (Transforms.io_buffer image) = Ok (rawData, ri) ->
  ensureAlphaRaw (Transforms.io_buffer image) = Ok (data, i) ->
  latin1 demoMessage ->
  1 <= Z.of_nat (length demoMessage) <= 10000 ->
  (128 + 8 * length demoMessage <= length data)%nat ->
  exists r stego meta,
    Runner.dryRun rnd demoText image customMessage k = (r, (k + 3)%nat)
    /\ embedMessage (Transforms.io_buffer image) demoMessage
       = Ok (stego, meta)
    /\ Runner.success r = true
    /\ Runner.stegoImage r = Some stego
    /\ Runner.originalMessage r = Some demoMessage
    /\ Runner.sr_extractedMessage r = Some demoMessage
    /\ Runner.m_messageVerified (Runner.sr_metrics r) = Some true
    /\ Runner.m_capacity (Runner.sr_metrics r)
       = (Z.of_nat (length rawData) - 128) / 8
    /\ Runner.sr_error r = None.
Proof.
  intros demoMessage Hraw Halpha Hm Hlen Hfit.
  destruct (strict_roundtrip _ data i demoMessage Halpha Hm Hlen Hfit)
    as (stego & meta & ext & Hok & Hext & Hmsg & _).
  unfold Runner.dryRun, Runner.dryRunBody. fold demoMessage.
  rewrite (calculateCapacity_spec _ _ _ _ _ Hraw Halpha). cbn [bind].
  rewrite Hok. cbn [bind]. rewrite Hext. cbn [bind].
  eexists. exists stego, meta. split; [reflexivity|].
  cbn [Runner.success Runner.stegoImage Runner.originalMessage
       Runner.sr_extractedMessage Runner.sr_metrics Runner.sr_error
       Runner.m_messageVerified Runner.m_capacity].
  rewrite Hmsg. rewrite bool_decide_eq_true_2 by reflexivity.
  repeat split.
Qed.

End DryRun.

(** X16.  The dry run of the model on an image with room for the message
    (single-byte characters, 1 to 10000 of them): it succeeds after three
    random draws, returns the stego image of [embedMessage], reports the
    message as both the original and the extracted one with
    [messageVerified] true, and reports [calculateCapacity]'s [maxChars]. *)
Theorem dry_run_verifies_message {buffer : Type} `{SharpLaws buffer}
    (rnd : entropy) (demoText : jsstring)
    (image : Transforms.imageObject buffer)
    (customMessage : option jsstring) (rawData data : list Z) (ri i : info)
    (k : nat) :
  let demoMessage := Runner.orMessage customMessage demoText in
  raw (Transforms.io_buffer image) = Ok (rawData, ri) ->
  ensureAlphaRaw (Transforms.io_buffer image) = Ok (data, i) ->
  latin1 demoMessage ->
  1 <= Z.of_nat (length demoMessage) <= 10000 ->
  (128 + 8 * length demoMessage <= length data)%nat ->
  exists r stego meta,
    Runner.dryRun rnd demoText image customMessage k = (r, (k + 3)%nat)
    /\ embedMessage (Transforms.io_buffer image) demoMessage
       = Ok (stego, meta)
    /\ Runner.success r = true
    /\ Runner.stegoImage r = Some stego
    /\ Runner.originalMessage r = Some demoMessage
    /\ Runner.sr_extractedMessage r = Some demoMessage
    /\ Runner.m_messageVerified (Runner.sr_metrics r) = Some true
    /\ Runner.m_capacity (Runner.sr_metrics r)
       = (Z.of_nat (length rawData) - 128) / 8
    /\ Runner.sr_error r = None.
Proof. apply dryRun_verified. Qed.

Lemma dry_run_verifies_message_witness :
  exists r stego,
    Runner.dryRun still demo (picture "a.png") (Some hello) 0 = (r, 3%nat)
    /\ Runner.stegoImage r = Some stego
    /\ Runner.sr_extractedMessage r = Some hello
    /\ Runner.m_messageVerified (Runner.sr_metrics r) = Some true
    /\ Runner.m_capacity (Runner.sr_metrics r) = 9.
Proof.
  assert (Hraw : raw (Transforms.io_buffer (picture "a.png"))
                 = Ok (repeat 255 200, infoOf (repeat 255 200)))
    by reflexivity.
  assert (Halpha : ensureAlphaRaw (Transforms.io_buffer (picture "a.png"))
                   = Ok (repeat 255 200, infoOf (repeat 255 200)))
    by reflexivity.
  assert (Hm : latin1 (Runner.orMessage (Some hello) demo))
    by (repeat constructor; lia).
  assert (Hlen : 1 <= Z.of_nat (length (Runner.orMessage (Some hello) demo))
                 <= 10000) by (cbn; lia).
  assert (Hfit : (128 + 8 * length (Runner.orMessage (Some hello) demo)
                  <= length (repeat 255 200))%nat)
    by (rewrite repeat_length; cbn; lia).
  destruct (dry_run_verifies_message still demo (picture "a.png")
              (Some hello) _ _ _ _ 0%nat Hraw Halpha Hm Hlen Hfit)
    as (r & stego & meta & Hrun & _ & _ & Hs & _ & He & Hv & Hc & _).
  exists r, stego. split; [exact Hrun|]. split; [exact Hs|].
  split; [exact He|]. split; [exact Hv|]. exact Hc.
Defined.

(** ** What a run records *)

Section StepRecords.
Context {buffer : Type} `{Sharp buffer}.
Variable rnd : entropy.
Variable demoText : jsstring.

(** Tolerant extraction fails only where decoding does. *)
Lemma tolerant_outcomes (b : buffer) :
  (exists r, extractMessage b true = Ok r
             /\ message r <> [] /\ (0 <= recoveryScore r)%Q)
  \/ (exists e, extractMessage b true = Throw e
                /\ ensureAlphaRaw b = Throw e).
Proof.
  destruct (ensureAlphaRaw b) as [[data i]|e] eqn:Hraw.
  - left. destruct (tolerant_result b data i Hraw)
      as (r & Hr & Hscore & _ & Hlen & _).
    exists r. split; [exact Hr|]. split.
    + intros E. rewrite E in Hlen. cbn in Hlen. lia.
    + rewrite Hscore. apply recoveryAssessment_nonneg.
  - right. exists e. split; [|reflexivity].
    unfold extractMessage. rewrite Hraw. reflexivity.
Qed.

Lemma recorded_state (hidden : option jsstring) (t : Transforms.transform)
    (r : Runner.stepRecord) :
  recorded hidden t r ->
  Runner.s_originalMessage r = hidden
  /\ Runner.messageIntact r = Runner.extractionSuccess r
  /\ (0 <= Runner.s_recoveryScore r)%Q
  /\ ((exists m,
         Runner.s_error r = None
         /\ Runner.s_extractedMessage r = Runner.Text m
         /\ m <> []
         /\ Runner.extractionSuccess r = bool_decide (Some m = hidden)
         /\ Runner.partialRecovery r = negb (Runner.extractionSuccess r))
      \/ (exists (e : error) (b : buffer),
            Runner.s_error r = Some e
            /\ ensureAlphaRaw b = Throw e
            /\ Runner.s_extractedMessage r = Runner.ExtractionError
            /\ Runner.extractionSuccess r = false
            /\ Runner.partialRecovery r = false
            /\ Runner.s_recoveryScore r = 0%Q)).
Proof.
  intros [b ->].
  destruct (tolerant_outcomes b) as [(ext & -> & Hne & Hs)|(e & -> & Hraw)].
  - cbn [Runner.recordStep Runner.s_originalMessage Runner.messageIntact
         Runner.extractionSuccess Runner.s_recoveryScore Runner.s_error
         Runner.s_extractedMessage Runner.partialRecovery].
    split; [reflexivity|]. split; [reflexivity|]. split; [exact Hs|].
    left. exists (message ext).
    destruct (message ext) as [|c m]; [congruence|].
    repeat split; try reflexivity. discriminate.
  - cbn [Runner.recordStep Runner.s_originalMessage Runner.messageIntact
         Runner.extractionSuccess Runner.s_recoveryScore Runner.s_error
         Runner.s_extractedMessage Runner.partialRecovery].
    split; [reflexivity|]. split; [reflexivity|]. split; [apply Qle_refl|].
    right. exists e, b. repeat split. exact Hraw.
Qed.

Lemma recorded_each (hidden : option jsstring)
    (todo : list Transforms.transform) (steps : list Runner.stepRecord)
    (r : Runner.stepRecord) :
  Forall2 (recorded hidden) todo steps -> In r steps ->
  exists t, recorded hidden t r.
Proof.
  induction 1 as [|t x todo steps Hx _ IH]; intros Hin; [destruct Hin|].
  destruct Hin as [<- | Hin]; [exists t; exact Hx|auto].
Qed.

(** The sample of an image whose embedding failed. *)
Lemma recorded_unhidden (todo : list Transforms.transform)
    (steps : list Runner.stepRecord) :
  Forall2 (recorded None) todo steps ->
  Forall (fun t => Runner.extractionSuccess t = false
                   /\ Runner.s_originalMessage t = None) steps.
Proof.
  induction 1 as [|t x todo steps [b ->] _ IH]; constructor; [|exact IH].
  destruct (extractMessage b true); split; reflexivity.
Qed.

Lemma dryRun_failed (image : Transforms.imageObject buffer)
    (customMessage : option jsstring) (k : nat) :
  Runner.success (fst (Runner.dryRun rnd demoText image customMessage k))
  = false ->
  Runner.originalMessage
    (fst (Runner.dryRun rnd demoText image customMessage k)) = None
  /\ Runner.stegoImage
       (fst (Runner.dryRun rnd demoText image customMessage k)) = None.
Proof.
  unfold Runner.dryRun, Runner.dryRunBody.
  destruct (calculateCapacity _) as [c|e]; [|split; reflexivity].
  cbn [bind].
  destruct (embedMessage _ _) as [[stego meta]|e]; [|split; reflexivity].
  cbn [bind].
  destruct (extractMessage stego false) as [ext|e]; [|split; reflexivity].
  cbn [bind fst Runner.success]. discriminate.
Qed.

Lemma processSample_unhidden (cfg : Runner.config) (i : nat)
    (image : Transforms.imageObject buffer) (k k' : nat)
    (s : Runner.sample) :
  Runner.success
    (fst (Runner.dryRun rnd demoText image (Runner.cfg_message cfg) k))
  = false ->
  Runner.processSample rnd demoText cfg i image k = Ok (s, k') ->
  Runner.hiddenMessage s = None
  /\ Forall (fun t => Runner.extractionSuccess t = false
                      /\ Runner.s_originalMessage t = None)
       (Runner.transforms s)
  /\ Runner.messageVerified s = Some false
  /\ (Runner.finalMessageVerified s = true
      <-> Runner.cfg_transforms cfg = [])
  /\ (Runner.cfg_transforms cfg = [] ->
      Runner.robustnessScore s = 1%Q /\ Runner.extractedMessage s = None).
Proof.
  intros Hfail Hs.
  destruct (dryRun_failed _ _ _ Hfail) as [Horig Hstego].
  pose proof (processSample_steps rnd demoText cfg i image k k' s Hs)
    as (_ & Hrec & Hscore).
  assert (Hhidden : Runner.hiddenMessage s = None).
  { unfold Runner.processSample in Hs.
    destruct (Runner.dryRun rnd demoText image (Runner.cfg_message cfg) k)
      as [sr k1].
    cbn [fst] in Horig.
    destruct (Runner.transformLoop rnd _ _ _ [] k1) as [[steps k2]|e];
      [|discriminate].
    cbn [bind] in Hs. injection Hs as <- _.
    cbn [Runner.hiddenMessage]. rewrite Horig. reflexivity. }
  rewrite Hhidden in Hrec.
  pose proof (recorded_unhidden _ _ Hrec) as Hall.
  pose proof (Forall2_length _ _ _ Hrec) as Hlen.
  split; [exact Hhidden|]. split; [exact Hall|].
  unfold Runner.processSample in Hs.
  destruct (Runner.dryRun rnd demoText image (Runner.cfg_message cfg) k)
    as [sr k1].
  cbn [fst] in Horig.
  destruct (Runner.transformLoop rnd _ _ _ [] k1) as [[steps k2]|e];
    [|discriminate].
  cbn [bind] in Hs. injection Hs as <- _.
  cbn [Runner.transforms Runner.messageVerified Runner.finalMessageVerified
       Runner.robustnessScore Runner.extractedMessage] in *.
  rewrite Horig. cbn [Runner.truthy]. unfold Runner.lastStep.
  destruct (last steps) as [l|] eqn:Hlast.
  - assert (Hl : Runner.extractionSuccess l = false).
    { apply last_Some in Hlast as [front ->].
      apply Forall_app in Hall as [_ Hl].
      inversion Hl as [|? ? [Hx _] _]; exact Hx. }
    rewrite Hl. split; [reflexivity|]. split.
    + split; [discriminate|]. intros E. rewrite E in Hlen.
      destruct steps; [discriminate Hlast|discriminate Hlen].
    + intros E. rewrite E in Hlen.
      destruct steps; [discriminate Hlast|discriminate Hlen].
  - apply last_None in Hlast. subst steps.
    destruct (Runner.cfg_transforms cfg) as [|t ts]; [|discriminate Hlen].
    repeat split.
Qed.

(** The samples pushed follow the images. *)
Lemma processSample_identity (cfg : Runner.config) (i : nat)
    (image : Transforms.imageObject buffer) (k k' : nat)
    (s : Runner.sample) :
  Runner.processSample rnd demoText cfg i image k = Ok (s, k') ->
  Runner.id s = i /\ Runner.sample_name s = Transforms.io_name image.
Proof.
  unfold Runner.processSample.
  destruct (Runner.dryRun rnd demoText image (Runner.cfg_message cfg) k)
    as [sr k1].
  destruct (Runner.transformLoop rnd _ _ _ [] k1) as [[steps k2]|e];
    [|discriminate].
  cbn [bind]. intros E. injection E as <- _. split; reflexivity.
Qed.

Lemma processSample_no_transforms (cfg : Runner.config) (i : nat)
    (image : Transforms.imageObject buffer) (k : nat) :
  Runner.cfg_transforms cfg = [] ->
  exists s k', Runner.processSample rnd demoText cfg i image k = Ok (s, k').
Proof.
  intros E. unfold Runner.processSample.
  destruct (Runner.dryRun rnd demoText image (Runner.cfg_message cfg) k)
    as [sr k1].
  rewrite E. cbn [Runner.transformLoop bind]. eexists. eexists. reflexivity.
Qed.

Lemma sampleLoop_follows (cfg : Runner.config)
    (images : list (Transforms.imageObject buffer)) :
  forall (i : nat) (pushed : list Runner.sample) (k : nat),
  exists new,
    fst (Runner.sampleLoop rnd demoText cfg images i pushed k)
    = pushed ++ new
    /\ map Runner.sample_name new
       = map Transforms.io_name (take (length new) images)
    /\ map Runner.id new = seq i (length new)
    /\ (length new <= length images)%nat
    /\ (snd (Runner.sampleLoop rnd demoText cfg images i pushed k) = None
        <-> length new = length images)
    /\ (Runner.cfg_transforms cfg = [] -> length new = length images).
Proof.
  induction images as [|image images IH]; intros i pushed k.
  - exists []. cbn. rewrite app_nil_r. repeat split; auto.
  - cbn [Runner.sampleLoop].
    destruct (Runner.processSample rnd demoText cfg i image k)
      as [[s k']|e] eqn:Hs.
    + destruct (IH (S i) (pushed ++ [s]) k')
        as (new & -> & Hnames & Hids & Hle & Hnone & Hempty).
      destruct (processSample_identity _ _ _ _ _ _ Hs) as [Hid Hname].
      exists (s :: new). rewrite <- app_assoc.
      split; [reflexivity|]. cbn [length take map seq].
      rewrite Hnames, Hids, Hid, Hname.
      split; [reflexivity|]. split; [reflexivity|]. split; [lia|].
      split; [rewrite Hnone; lia|]. intros E. rewrite (Hempty E).
      reflexivity.
    + exists []. cbn [fst snd length take map seq]. rewrite app_nil_r.
      split; [reflexivity|]. split; [reflexivity|]. split; [reflexivity|].
      split; [lia|]. split; [split; discriminate|].
      intros E.
      destruct (processSample_no_transforms cfg i image k E)
        as (s & k' & Hok).
      rewrite Hok in Hs. discriminate.
Qed.

Lemma runDryRun_follows (cfg : Runner.config)
    (images : list (Transforms.imageObject buffer)) (k : nat) :
  let r := resultsOf (Runner.runDryRun rnd demoText cfg (Ok images) k) in
  let n := length (Runner.samples r) in
  map Runner.sample_name (Runner.samples r)
  = map Transforms.io_name (take n images)
  /\ map Runner.id (Runner.samples r) = seq 0 n
  /\ (n <= length images)%nat
  /\ (Runner.r_status r = Runner.completed <-> n = length images)
  /\ (Runner.cfg_transforms cfg = [] ->
      Runner.r_status r = Runner.completed).
Proof.
  destruct (sampleLoop_follows cfg images 0 [] k)
    as (new & Hfst & Hnames & Hids & Hle & Hnone & Hempty).
  unfold Runner.runDryRun.
  destruct (Runner.sampleLoop rnd demoText cfg images 0 [] k)
    as [pushed [e|]]; cbn [fst snd] in *; subst pushed;
    cbn [resultsOf Runner.samples Runner.r_status app].
  - split; [exact Hnames|]. split; [exact Hids|]. split; [exact Hle|].
    assert (Hlt : length new <> length images).
    { intros E. apply Hnone in E. discriminate. }
    split; [split; [discriminate|contradiction]|].
    intros E. exfalso. auto.
  - split; [exact Hnames|]. split; [exact Hids|]. split; [exact Hle|].
    split; [split; [intros _; apply Hnone; reflexivity|reflexivity]|].
    reflexivity.
Qed.

End StepRecords.

(** X17.  Every step recorded in the results of a run, returned or saved
    on failure, carries the hidden message of its sample and is in one of
    two states.  Either extraction answered: the recorded text is a
    non-empty message (the placeholder for an empty one is never used),
    the step is intact exactly when that text is the hidden message and
    partial otherwise.  Or extraction threw, which only a decoding failure
    causes: the step holds the error, the error placeholder and score 0. *)
Theorem step_records_are_consistent {buffer : Type} `{Sharp buffer}
    (rnd : entropy) (demoText : jsstring) (cfg : Runner.config)
    (dataset : result (list (Transforms.imageObject buffer))) (k : nat)
    (s : Runner.sample) (t : Runner.stepRecord) :
  In s (Runner.samples
          (resultsOf (Runner.runDryRun rnd demoText cfg dataset k))) ->
  In t (Runner.transforms s) ->
  Runner.s_originalMessage t = Runner.hiddenMessage s
  /\ Runner.messageIntact t = Runner.extractionSuccess t
  /\ (0 <= Runner.s_recoveryScore t)%Q
  /\ ((exists m,
         Runner.s_error t = None
         /\ Runner.s_extractedMessage t = Runner.Text m
         /\ m <> []
         /\ Runner.extractionSuccess t
            = bool_decide (Some m = Runner.hiddenMessage s)
         /\ Runner.partialRecovery t = negb (Runner.extractionSuccess t))
      \/ (exists (e : error) (b : buffer),
            Runner.s_error t = Some e
            /\ ensureAlphaRaw b = Throw e
            /\ Runner.s_extractedMessage t = Runner.ExtractionError
            /\ Runner.extractionSuccess t = false
            /\ Runner.partialRecovery t = false
            /\ Runner.s_recoveryScore t = 0%Q)).
Proof.
  intros Hs. revert t. pattern s. revert s Hs.
  apply (proj1 (List.Forall_forall _ _)).
  apply runDryRun_samples. intros i image k0 s k' Hs t Ht.
  destruct (processSample_steps rnd demoText cfg i image k0 k' s Hs)
    as (_ & Hrec & _).
  destruct (recorded_each _ _ _ _ Hrec Ht) as [tr Hr].
  exact (recorded_state _ _ _ Hr).
Qed.

Lemma step_records_are_consistent_witness :
  exists s t,
    In s (Runner.samples
            (resultsOf
               (Runner.runDryRun still demo goodChain (Ok twoPictures) 0)))
    /\ In t (Runner.transforms s)
    /\ Runner.s_originalMessage t = Runner.hiddenMessage s
    /\ (0 <= Runner.s_recoveryScore t)%Q.
Proof.
  assert (E : exists s rest t more,
             Runner.samples
               (resultsOf
                  (Runner.runDryRun still demo goodChain (Ok twoPictures) 0))
             = s :: rest
             /\ Runner.transforms s = t :: more).
  { vm_compute. eexists. eexists. eexists. eexists.
    split; reflexivity. }
  destruct E as (s & rest & t & more & E & Et).
  assert (Hs : In s (Runner.samples
                       (resultsOf
                          (Runner.runDryRun still demo goodChain
                             (Ok twoPictures) 0))))
    by (rewrite E; left; reflexivity).
  assert (Ht : In t (Runner.transforms s))
    by (rewrite Et; left; reflexivity).
  destruct (step_records_are_consistent still demo goodChain
              (Ok twoPictures) 0%nat s t Hs Ht) as (H1 & _ & H3 & _).
  exists s, t. split; [exact Hs|]. split; [exact Ht|].
  split; [exact H1|exact H3].
Defined.

(** X18.  When the embedding of the dry run fails (the message does not
    fit, or the image does not decode), the sample goes on with the cover
    image: it has no hidden message, none of its steps is a success,
    [messageVerified] is false, yet with an empty chain of transforms
    [finalMessageVerified] is true and the robustness score is 1. *)
Theorem failed_embedding_sample {buffer : Type} `{Sharp buffer}
    (rnd : entropy) (demoText : jsstring) (cfg : Runner.config) (i : nat)
    (image : Transforms.imageObject buffer) (k k' : nat)
    (s : Runner.sample) :
  Runner.success
    (fst (Runner.dryRun rnd demoText image (Runner.cfg_message cfg) k))
  = false ->
  Runner.processSample rnd demoText cfg i image k = Ok (s, k') ->
  Runner.hiddenMessage s = None
  /\ Forall (fun t => Runner.extractionSuccess t = false
                      /\ Runner.s_originalMessage t = None)
       (Runner.transforms s)
  /\ Runner.messageVerified s = Some false
  /\ (Runner.finalMessageVerified s = true
      <-> Runner.cfg_transforms cfg = [])
  /\ (Runner.cfg_transforms cfg = [] ->
      Runner.robustnessScore s = 1%Q /\ Runner.extractedMessage s = None).
Proof. apply processSample_unhidden. Qed.

Lemma failed_embedding_sample_witness :
  exists s k',
    Runner.processSample still demo
      {| Runner.cfg_message := Some hello; Runner.cfg_transforms := [] |}
      0 {| Transforms.io_name := "small.png";
           Transforms.io_buffer := repeat 255 16 |} 0
    = Ok (s, k')
    /\ Runner.hiddenMessage s = None
    /\ Runner.messageVerified s = Some false
    /\ Runner.finalMessageVerified s = true
    /\ Runner.robustnessScore s = 1%Q.
Proof.
  assert (Hfail : Runner.success
            (fst (Runner.dryRun still demo
                    {| Transforms.io_name := "small.png";
                       Transforms.io_buffer := repeat 255 16 |}
                    (Runner.cfg_message
                       {| Runner.cfg_message := Some hello;
                          Runner.cfg_transforms := [] |}) 0))
          = false) by (vm_compute; reflexivity).
  assert (Hrun : exists s k',
             Runner.processSample still demo
               {| Runner.cfg_message := Some hello;
                  Runner.cfg_transforms := [] |}
               0 {| Transforms.io_name := "small.png";
                    Transforms.io_buffer := repeat 255 16 |} 0
             = Ok (s, k')).
  { vm_compute. eexists. eexists. reflexivity. }
  destruct Hrun as (s & k' & Hrun).
  destruct (failed_embedding_sample _ _ _ _ _ _ _ _ Hfail Hrun)
    as (Hh & _ & Hv & Hf & He).
  exists s, k'. split; [exact Hrun|]. split; [exact Hh|].
  split; [exact Hv|]. split; [apply Hf; reflexivity|].
  apply He. reflexivity.
Defined.

(** X19.  The samples a run leaves follow the images of the data set: the
    [n] samples carry the names of the first [n] images and the
    identifiers 0 to [n - 1]; the status is completed exactly when every
    image has its sample; and a run with an empty chain of transforms
    always completes. *)
Theorem run_samples_follow_images {buffer : Type} `{Sharp buffer}
    (rnd : entropy) (demoText : jsstring) (cfg : Runner.config)
    (images : list (Transforms.imageObject buffer)) (k : nat) :
  let r := resultsOf (Runner.runDryRun rnd demoText cfg (Ok images) k) in
  let n := length (Runner.samples r) in
  map Runner.sample_name (Runner.samples r)
  = map Transforms.io_name (take n images)
  /\ map Runner.id (Runner.samples r) = seq 0 n
  /\ (n <= length images)%nat
  /\ (Runner.r_status r = Runner.completed <-> n = length images)
  /\ (Runner.cfg_transforms cfg = [] ->
      Runner.r_status r = Runner.completed).
Proof. apply runDryRun_follows. Qed.

(** ** Bit accuracy *)

Section BitAccuracy.
Import BitMetrics.

Lemma matchStep_shift (x y : Z) (a b : list Z) (l : list nat) (acc : nat) :
  fold_left (matchStep (x :: a) (y :: b)) (map S l) acc
  = fold_left (matchStep a b) l acc.
Proof.
  revert acc. induction l as [|i l IH]; intros acc; [reflexivity|].
  cbn [map fold_left]. rewrite IH. reflexivity.
Qed.

Lemma matchStep_acc (a b : list Z) (l : list nat) (acc : nat) :
  fold_left (matchStep a b) l acc
  = (acc + fold_left (matchStep a b) l 0)%nat.
Proof.
  revert acc. induction l as [|i l IH]; intros acc; cbn [fold_left]; [lia|].
  rewrite (IH (matchStep a b acc i)), (IH (matchStep a b 0 i)).
  unfold matchStep. destruct (bool_decide _); lia.
Qed.

(** Matches and differing positions add up to the length. *)
Lemma matches_differing (a b : list Z) :
  length a = length b ->
  (fold_left (matchStep a b) (seq 0 (length a)) 0 + differing a b)%nat
  = length a.
Proof.
  revert b. induction a as [|x a IH]; intros [|y b] Hlen;
    try discriminate; [reflexivity|].
  injection Hlen as Hlen. specialize (IH b Hlen).
  cbn [length seq fold_left differing].
  rewrite <- seq_shift, matchStep_shift, matchStep_acc.
  unfold matchStep at 1. cbn [lookup list_lookup].
  destruct (Z.eqb_spec x y) as [->|Hne].
  - rewrite bool_decide_eq_true_2 by reflexivity. lia.
  - rewrite bool_decide_eq_false_2 by congruence. lia.
Qed.

Lemma differing_sym (a b : list Z) : differing a b = differing b a.
Proof.
  revert b. induction a as [|x a IH]; intros [|y b]; try reflexivity.
  cbn [differing]. rewrite IH, (Z.eqb_sym x y). reflexivity.
Qed.

Lemma differing_le (a b : list Z) : (differing a b <= length a)%nat.
Proof.
  revert b. induction a as [|x a IH]; intros [|y b]; cbn; try lia.
  specialize (IH b). destruct (x =? y); lia.
Qed.

(** On arrays of the same length. *)
Lemma computeBitAccuracy_equal (fuel : nat) (a b : list Z) :
  length a = length b ->
  computeBitAccuracy (S fuel) a b
  = Some (if (length a =? 0)%nat then 1
          else ofNat (length a - differing a b) / ofNat (length a))%Q.
Proof.
  intros Hlen. cbn [computeBitAccuracy].
  rewrite (proj2 (Nat.eqb_eq _ _) Hlen). cbn [negb].
  destruct (length a =? 0)%nat; [reflexivity|].
  pose proof (matches_differing a b Hlen) as Hm.
  replace (fold_left (matchStep a b) (seq 0 (length a)) 0%nat)
    with (length a - differing a b)%nat by lia.
  reflexivity.
Qed.

Lemma computeBitAccuracy_spec (fuel : nat) (arrA arrB : list Z) :
  let n := Nat.min (length arrA) (length arrB) in
  computeBitAccuracy (S (S fuel)) arrA arrB
  = Some (if (n =? 0)%nat then 1
          else ofNat (n - differing (take n arrA) (take n arrB))
               / ofNat n)%Q.
Proof.
  intros n.
  assert (Hn : length (take n arrA) = n /\ length (take n arrB) = n)
    by (rewrite !length_take; unfold n; lia).
  destruct Hn as [HA HB].
  destruct (Nat.eqb_spec (length arrA) (length arrB)) as [E|E].
  - assert (HnA : n = length arrA) by (unfold n; lia).
    rewrite (computeBitAccuracy_equal (S fuel) arrA arrB E).
    rewrite !firstn_all2 by lia. rewrite <- HnA. reflexivity.
  - change (computeBitAccuracy (S (S fuel)) arrA arrB)
      with (if negb (length arrA =? length arrB)%nat
            then computeBitAccuracy (S fuel) (take n arrA) (take n arrB)
            else if (length arrA =? 0)%nat then Some 1%Q
                 else Some (ofNat (fold_left (matchStep arrA arrB)
                                     (seq 0 (length arrA)) 0%nat)
                            / ofNat (length arrA))%Q).
    rewrite (proj2 (Nat.eqb_neq _ _) E). cbn [negb].
    rewrite (computeBitAccuracy_equal fuel _ _ (eq_trans HA (eq_sym HB))).
    rewrite HA. reflexivity.
Qed.

Lemma ratio_bounds (n d : nat) :
  (0 < n)%nat -> (d <= n)%nat ->
  (0 <= ofNat (n - d) / ofNat n <= 1)%Q
  /\ ((ofNat (n - d) / ofNat n == 1)%Q <-> d = 0%nat).
Proof.
  intros Hn Hd.
  assert (Hpos : (0 < ofNat n)%Q) by (apply ofNat_pos; lia).
  assert (Hle : (ofNat (n - d) <= ofNat n)%Q).
  { unfold ofNat. rewrite <- Zle_Qle. lia. }
  pose proof (ofNat_nonneg (n - d)) as H0.
  split; [split|split].
  - apply Qle_shift_div_l; [exact Hpos|]. lra.
  - apply Qle_shift_div_r; [exact Hpos|]. lra.
  - intros E.
    assert (E' : (ofNat (n - d) == ofNat n)%Q).
    { rewrite <- (Qmult_div_r (ofNat (n - d)) (ofNat n)) by lra.
      rewrite E. ring. }
    unfold ofNat, Qeq, inject_Z in E'. cbn [Qnum Qden] in E'. lia.
  - intros ->. rewrite Nat.sub_0_r. field. lra.
Qed.

End BitAccuracy.

(** X20.  [computeBitAccuracy] returns after at most one call of itself.
    With [n] the shorter of the two lengths, the accuracy is 1 when
    [n = 0] and otherwise the share of the first [n] positions that agree;
    it lies in [0, 1], is 1 exactly when the first [n] elements agree (so an
    extraction that lost its tail still scores 1), does not depend on the
    order of the arguments, and [computeBER] is its complement. *)
Theorem bit_accuracy_compares_common_prefix (fuel : nat)
    (origBits extBits : list Z) :
  let n := Nat.min (length origBits) (length extBits) in
  exists accuracy,
    BitMetrics.computeBitAccuracy (S (S fuel)) origBits extBits
    = Some accuracy
    /\ BitMetrics.computeBitAccuracy (S (S fuel)) extBits origBits
       = Some accuracy
    /\ BitMetrics.computeBER (S (S fuel)) origBits extBits
       = Some (1 - accuracy)%Q
    /\ accuracy
       = (if (n =? 0)%nat then 1
          else ofNat (n - differing (take n origBits) (take n extBits))
               / ofNat n)%Q
    /\ (0 <= accuracy <= 1)%Q
    /\ ((accuracy == 1)%Q <-> take n origBits = take n extBits).
Proof.
  intros n.
  assert (HA : length (take n origBits) = n)
    by (rewrite length_take; unfold n; lia).
  assert (HB : length (take n extBits) = n)
    by (rewrite length_take; unfold n; lia).
  pose proof (computeBitAccuracy_spec fuel origBits extBits) as H1.
  pose proof (computeBitAccuracy_spec fuel extBits origBits) as H2.
  cbv zeta in H1, H2. rewrite (Nat.min_comm (length extBits)) in H2.
  fold n in H1, H2. rewrite (differing_sym (take n extBits)) in H2.
  unfold BitMetrics.computeBER. rewrite H1, H2. clear H1 H2. clearbody n.
  eexists. split; [reflexivity|]. split; [reflexivity|].
  split; [reflexivity|]. split; [reflexivity|].
  destruct (Nat.eqb_spec n 0) as [E|E].
  - split; [split; discriminate|]. split; [intros _|reflexivity].
    rewrite E. reflexivity.
  - pose proof (differing_le (take n origBits) (take n extBits)) as Hle.
    rewrite HA in Hle.
    destruct (ratio_bounds n _ ltac:(lia) Hle) as [Hb Hone].
    split; [exact Hb|]. rewrite Hone. split.
    + apply differing_zero. congruence.
    + intros ->. apply differing_same.
Qed.

(** ** Mean squared error, PSNR and SSIM on the decoded bytes *)


(** X21.  What [computePSNR] returns on a pair of images that decode, with
    [dataA] and [dataB] the raw bytes compared: NaN exactly when [dataA]
    is empty or [dataB] is the shorter; [Infinity] exactly when [dataA] is
    not empty and the first [dataA.length] bytes of [dataB] are those of
    [dataA] (bytes of [dataB] beyond are never read); otherwise a number
    of decibels that is not negative ([255^2 / MSE >= 1]). *)
Theorem psnr_outcomes {buffer : Type} `{Sharp buffer}
    (bufA bufB : buffer) (dataA dataB : list Z) :
  Metrics.decodePair bufA bufB = Ok (dataA, dataB) ->
  bytes dataA -> bytes dataB ->
  exists p,
    Metrics.computePSNR bufA bufB = Ok p
    /\ (p = Metrics.PsnrNaN
        <-> dataA = [] \/ (length dataB < length dataA)%nat)
    /\ (p = Metrics.PsnrInfinity
        <-> dataA <> [] /\ take (length dataA) dataB = dataA)
    /\ (forall ratio, p = Metrics.PsnrDecibels ratio -> (1 <= ratio)%Q).
Proof.
  intros Hpair Ha Hb.
  destruct (psnr_cases dataA dataB) as (Hnan & Hinf & Hdb).
  eexists. split.
  - unfold Metrics.computePSNR. rewrite Hpair. reflexivity.
  - split; [exact Hnan|]. split; [exact Hinf|].
    intros ratio Hr. exact (Hdb ratio Hr Ha Hb).
Qed.

Lemma psnr_outcomes_witness :
  Metrics.computePSNR (repeat 255 200) (repeat 254 200)
  = Ok (Metrics.PsnrDecibels (255 * 255 / (200 / 200)))
  /\ (1 <= 255 * 255 / (200 / 200))%Q.
Proof.
  assert (Hpair : Metrics.decodePair (repeat 255 200) (repeat 254 200)
                  = Ok (repeat 255 200, repeat 254 200))
    by reflexivity.
  assert (Ha : bytes (repeat 255 200)).
  { apply List.Forall_forall. intros x Hx. apply repeat_spec in Hx. lia. }
  assert (Hb : bytes (repeat 254 200)).
  { apply List.Forall_forall. intros x Hx. apply repeat_spec in Hx. lia. }
  destruct (psnr_outcomes _ _ _ _ Hpair Ha Hb) as (p & Hp & _ & _ & Hdb).
  assert (Hv : Metrics.computePSNR (repeat 255 200) (repeat 254 200)
               = Ok (Metrics.PsnrDecibels (255 * 255 / (200 / 200))))
    by (vm_compute; reflexivity).
  split; [exact Hv|]. apply Hdb. rewrite Hv in Hp. now injection Hp.
Defined.

(** ** Symmetry of the image metrics *)

Section MetricSymmetry.
Import Metrics.

Lemma squaredError_sym (a b : list Z) (l : list nat) (acc : option Z) :
  fold_left (squaredErrorStep a b) l acc
  = fold_left (squaredErrorStep b a) l acc.
Proof.
  revert acc. induction l as [|i l IH]; intros acc; [reflexivity|].
  cbn [fold_left]. rewrite IH. f_equal. unfold squaredErrorStep.
  destruct acc as [m|], (a !! i) as [x|], (b !! i) as [y|]; try reflexivity.
  f_equal. lia.
Qed.

Lemma meanSquaredError_sym (a b : list Z) :
  length a = length b -> meanSquaredError a b = meanSquaredError b a.
Proof.
  intros Hlen. unfold meanSquaredError.
  rewrite squaredError_sym, Hlen. reflexivity.
Qed.

Lemma sums_sym (a b : list Z) (l : list nat) (acc : option (Z * Z)) :
  fold_left (sumStep b a) l (option_map (fun p => (snd p, fst p)) acc)
  = option_map (fun p => (snd p, fst p)) (fold_left (sumStep a b) l acc).
Proof.
  revert acc. induction l as [|i l IH]; intros acc; [reflexivity|].
  cbn [fold_left]. rewrite <- IH. f_equal. unfold sumStep.
  destruct acc as [[p q]|], (a !! i) as [x|], (b !! i) as [y|];
    reflexivity.
Qed.

(** The sums of deviations of [(b, a)] are those of [(a, b)], the two
    variances exchanged. *)
Lemma deviations_sym (a b : list Z) (meanA meanB : Q) (l : list nat) :
  forall acc acc' : option (Q * Q * Q),
    match acc, acc' with
    | Some (va, vb, c), Some (vb', va', c') =>
        va = va' /\ vb = vb' /\ (c == c')%Q
    | None, None => True
    | _, _ => False
    end ->
    match fold_left (deviationStep a b meanA meanB) l acc,
          fold_left (deviationStep b a meanB meanA) l acc' with
    | Some (va, vb, c), Some (vb', va', c') =>
        va = va' /\ vb = vb' /\ (c == c')%Q
    | None, None => True
    | _, _ => False
    end.
Proof.
  induction l as [|i l IH]; intros acc acc' Hrel; [exact Hrel|].
  cbn [fold_left]. apply IH. unfold deviationStep.
  destruct acc as [[[va vb] c]|], acc' as [[[vb' va'] c']|];
    try contradiction;
    destruct (a !! i) as [x|], (b !! i) as [y|]; try exact I.
  destruct Hrel as (-> & -> & Hc). split; [reflexivity|].
  split; [reflexivity|]. rewrite Hc. ring.
Qed.

Lemma mathMin_compat (a x y : Q) :
  (x == y)%Q -> (mathMin a x == mathMin a y)%Q.
Proof.
  intros E. unfold mathMin.
  destruct (Qle_bool a x) eqn:E1, (Qle_bool a y) eqn:E2;
    try reflexivity; try exact E.
  - apply Qle_bool_iff in E1. rewrite E in E1.
    apply Qle_bool_iff in E1. congruence.
  - apply Qle_bool_iff in E2. rewrite <- E in E2.
    apply Qle_bool_iff in E2. congruence.
Qed.

Lemma mathMax_compat (a x y : Q) :
  (x == y)%Q -> (mathMax a x == mathMax a y)%Q.
Proof.
  intros E. unfold mathMax.
  destruct (Qle_bool a x) eqn:E1, (Qle_bool a y) eqn:E2;
    try reflexivity; try exact E.
  - apply Qle_bool_iff in E1. rewrite E in E1.
    apply Qle_bool_iff in E1. congruence.
  - apply Qle_bool_iff in E2. rewrite <- E in E2.
    apply Qle_bool_iff in E2. congruence.
Qed.

Lemma clamp_range (x : Q) : (0 <= mathMax 0 (mathMin 1 x) <= 1)%Q.
Proof.
  unfold mathMax, mathMin.
  destruct (Qle_bool 1 x) eqn:E1.
  - destruct (Qle_bool 0 1) eqn:E2; [lra|discriminate E2].
  - destruct (Qle_bool 0 x) eqn:E2.
    + apply Qle_bool_iff in E2. split; [exact E2|].
      destruct (Qlt_le_dec 1 x) as [Hlt|Hle]; [|exact Hle].
      apply Qlt_le_weak, Qle_bool_iff in Hlt. congruence.
    + lra.
Qed.

Lemma ssimOfRaw_range (a b : list Z) (s : Q) :
  ssimOfRaw a b = Some s -> (0 <= s <= 1)%Q.
Proof.
  unfold ssimOfRaw.
  destruct (fold_left (sumStep a b) _ _) as [[sa sb]|]; [|discriminate].
  destruct (length a =? 0)%nat; [discriminate|].
  destruct (fold_left (deviationStep a b _ _) _ _) as [[[va vb] c]|];
    [|discriminate].
  intros [= <-]. apply clamp_range.
Qed.

Lemma ssimOfRaw_sym (a b : list Z) :
  length a = length b -> sameNumber (ssimOfRaw a b) (ssimOfRaw b a).
Proof.
  intros Hlen. unfold ssimOfRaw. rewrite <- Hlen.
  pose proof (sums_sym a b (seq 0 (length a)) (Some (0, 0))) as Hs.
  cbn [option_map fst snd] in Hs. rewrite Hs. clear Hs.
  destruct (fold_left (sumStep a b) _ _) as [[sa sb]|]; [|exact I].
  cbn [option_map fst snd].
  destruct (length a =? 0)%nat; [exact I|].
  set (meanA := (inject_Z sa / ofNat (length a))%Q).
  set (meanB := (inject_Z sb / ofNat (length a))%Q).
  pose proof (deviations_sym a b meanA meanB (seq 0 (length a))
                (Some (0%Q, 0%Q, 0%Q)) (Some (0%Q, 0%Q, 0%Q))
                (conj eq_refl (conj eq_refl (Qeq_refl 0)))) as Hd.
  destruct (fold_left (deviationStep a b meanA meanB) _ _)
    as [[[va vb] c]|],
    (fold_left (deviationStep b a meanB meanA) _ _)
    as [[[vb' va'] c']|]; try contradiction; [|exact I].
  destruct Hd as (<- & <- & Hc). cbn [sameNumber].
  apply mathMax_compat, mathMin_compat.
  rewrite Hc.
  assert (Hnum : ((2 * meanA * meanB + C1) == (2 * meanB * meanA + C1))%Q)
    by ring.
  assert (Hden : ((meanA * meanA + meanB * meanB + C1)
                  * (va / ofNat (length a) + vb / ofNat (length a) + C2)
                  == (meanB * meanB + meanA * meanA + C1)
                     * (vb / ofNat (length a) + va / ofNat (length a) + C2))%Q)
    by ring.
  rewrite Hnum, Hden. reflexivity.
Qed.

End MetricSymmetry.

(** X22.  On decoded buffers of the same size the three image metrics do
    not depend on the order of the two images: the mean squared error and
    the PSNR are the same, and the SSIM is the same number (or NaN both
    ways).  Whenever the SSIM is a number it lies in [0, 1]. *)
Theorem image_metrics_are_symmetric (dataA dataB : list Z) :
  length dataA = length dataB ->
  Metrics.meanSquaredError dataA dataB = Metrics.meanSquaredError dataB dataA
  /\ Metrics.psnrOfMse (Metrics.meanSquaredError dataA dataB)
     = Metrics.psnrOfMse (Metrics.meanSquaredError dataB dataA)
  /\ sameNumber (Metrics.ssimOfRaw dataA dataB)
       (Metrics.ssimOfRaw dataB dataA)
  /\ (forall s, Metrics.ssimOfRaw dataA dataB = Some s -> (0 <= s <= 1)%Q).
Proof.
  intros Hlen.
  split; [exact (meanSquaredError_sym _ _ Hlen)|].
  split; [rewrite (meanSquaredError_sym _ _ Hlen); reflexivity|].
  split; [exact (ssimOfRaw_sym _ _ Hlen)|].
  intros s. apply ssimOfRaw_range.
Qed.

Lemma image_metrics_are_symmetric_witness :
  Metrics.meanSquaredError [10; 20; 30; 255] [12; 20; 27; 255]
  = Metrics.meanSquaredError [12; 20; 27; 255] [10; 20; 30; 255]
  /\ sameNumber (Metrics.ssimOfRaw [10; 20; 30; 255] [12; 20; 27; 255])
       (Metrics.ssimOfRaw [12; 20; 27; 255] [10; 20; 30; 255]).
Proof.
  destruct (image_metrics_are_symmetric [10; 20; 30; 255] [12; 20; 27; 255]
              eq_refl) as (Hm & _ & Hs & _).
  split; [exact Hm|exact Hs].
Defined.

(** ** The codec beyond single bytes *)

Lemma binaryDigits_binary (fuel : nat) (n : Z) :
  0 <= n -> Forall binaryChar (digitsRev fuel 2 n).
Proof.
  revert n. induction fuel as [|fuel IH]; intros n Hn; [constructor|].
  cbn [digitsRev]. constructor.
  - pose proof (Z.mod_pos_bound n 2 ltac:(lia)) as Hm.
    unfold binaryChar, digitChar.
    destruct (Z.ltb_spec (n mod 2) 10); lia.
  - destruct (n / 2 =? 0); [constructor|].
    apply IH. apply Z.div_pos; lia.
Qed.

Lemma binaryDigits_length (fuel : nat) (n : Z) :
  0 < n -> Z.log2 n < Z.of_nat fuel ->
  Z.of_nat (length (digitsRev fuel 2 n)) = Z.log2 n + 1.
Proof.
  revert n. induction fuel as [|fuel IH]; intros n Hn Hfuel.
  - pose proof (Z.log2_nonneg n). lia.
  - cbn [digitsRev length].
    destruct (Z.eqb_spec (n / 2) 0) as [E|E].
    + assert (Hn1 : n = 1).
      { pose proof (Z.div_mod n 2 ltac:(lia)).
        pose proof (Z.mod_pos_bound n 2 ltac:(lia)). lia. }
      subst n. reflexivity.
    + assert (Hn2 : 2 <= n).
      { destruct (Z.lt_ge_cases n 2) as [Hlt|Hge]; [|exact Hge].
        exfalso. apply E. apply Z.div_small. lia. }
      assert (Hlog : 1 <= Z.log2 n).
      { change 1 with (Z.log2 2). apply Z.log2_le_mono. exact Hn2. }
      assert (Hhalf : Z.log2 (n / 2) = Z.log2 n - 1).
      { change (n / 2) with (n / 2 ^ 1).
        rewrite <- Z.shiftr_div_pow2 by lia.
        rewrite Z.log2_shiftr by lia. lia. }
      assert (Hpos : 0 < n / 2).
      { pose proof (Z.div_pos n 2 ltac:(lia) ltac:(lia)). lia. }
      cbn [length]. rewrite Nat2Z.inj_succ, (IH (n / 2) Hpos) by lia.
      lia.
Qed.

Lemma bitsOf_binary (c : Z) : 0 <= c -> Forall binaryChar (bitsOf c).
Proof.
  intros Hc. unfold bitsOf, padStart, toString. apply Forall_app. split.
  - apply List.Forall_forall. intros x Hx. apply repeat_spec in Hx.
    left. exact Hx.
  - apply Forall_rev. now apply binaryDigits_binary.
Qed.

Lemma bitsOf_wide (c : Z) : 256 <= c -> (9 <= length (bitsOf c))%nat.
Proof.
  intros Hc.
  assert (Hlog : 8 <= Z.log2 c).
  { change 8 with (Z.log2 256). apply Z.log2_le_mono. exact Hc. }
  pose proof (binaryDigits_length (S (Z.to_nat (Z.log2 c))) c
                ltac:(lia) ltac:(lia)) as Hlen.
  unfold bitsOf, padStart, toString.
  rewrite length_app, length_rev. lia.
Qed.

Lemma bitsOf_length_ge (c : Z) : (8 <= length (bitsOf c))%nat.
Proof.
  unfold bitsOf, padStart. rewrite length_app, repeat_length. lia.
Qed.

Lemma stringToBinary_cons (c : Z) (s : jsstring) :
  stringToBinary (c :: s) = bitsOf c ++ stringToBinary s.
Proof. reflexivity. Qed.

Lemma stringToBinary_any_binary (s : jsstring) :
  Forall (fun c => 0 <= c) s -> Forall binaryChar (stringToBinary s).
Proof.
  induction 1 as [|c s Hc _ IH]; [constructor|].
  rewrite stringToBinary_cons. apply Forall_app. split; [|exact IH].
  now apply bitsOf_binary.
Qed.

Lemma stringToBinary_wide (s : jsstring) :
  ~ latin1 s -> Forall (fun c => 0 <= c) s ->
  (8 * length s < length (stringToBinary s))%nat.
Proof.
  intros Hwide Hs. induction Hs as [|c s Hc Hs IH].
  - exfalso. apply Hwide. constructor.
  - rewrite stringToBinary_cons, length_app. cbn [length].
    destruct (Z_le_gt_dec c 255) as [Hle|Hgt].
    + pose proof (bitsOf_length_ge c).
      assert (Hrest : ~ latin1 s).
      { intros Hl. apply Hwide. constructor; [lia|exact Hl]. }
      specialize (IH Hrest). lia.
    + pose proof (bitsOf_wide c ltac:(lia)).
      pose proof (stringToBinary_length_ge s). lia.
Qed.

Lemma binaryToString_length (b : jsstring) :
  Forall binaryChar b ->
  length (binaryToString b) = Nat.div (length b + 7) 8.
Proof.
  intros Hb. unfold binaryToString, matchDot1to8. rewrite length_map.
  now apply matchDotLoop_count.
Qed.

Lemma roundtrip_grows (s : jsstring) :
  Forall (fun c => 0 <= c) s -> ~ latin1 s ->
  (length s < length (binaryToString (stringToBinary s)))%nat.
Proof.
  intros Hs Hwide.
  rewrite binaryToString_length by now apply stringToBinary_any_binary.
  pose proof (stringToBinary_wide s Hwide Hs) as Hlen.
  assert (H8 : (8 * (length s + 1) <= length (stringToBinary s) + 7)%nat)
    by lia.
  apply (Nat.Div0.div_le_mono _ _ 8) in H8.
  rewrite (Nat.mul_comm 8), Nat.div_mul in H8 by lia. lia.
Qed.

(** X23.  The codec is the identity on single-byte strings only: for a
    string of code units, [binaryToString(stringToBinary(s))] is [s]
    exactly when every code unit is at most 255; otherwise the result is
    longer than [s], since a wider code unit takes more than 8 bits. *)
Theorem single_bytes_only_roundtrip (s : jsstring) :
  Forall (fun c => 0 <= c) s ->
  (binaryToString (stringToBinary s) = s <-> latin1 s)
  /\ (~ latin1 s ->
      (length s < length (binaryToString (stringToBinary s)))%nat).
Proof.
  intros Hs. split; [split|].
  - intros Hround.
    destruct (decide (Forall (fun c => 0 <= c <= 255) s)) as [Hl|Hw];
      [exact Hl|].
    exfalso. pose proof (roundtrip_grows s Hs Hw) as Hlen.
    rewrite Hround in Hlen. lia.
  - apply codec_inverse.
  - now apply roundtrip_grows.
Qed.

Lemma single_bytes_only_roundtrip_witness :
  binaryToString (stringToBinary [8364]) <> [8364]
  /\ (length [8364%Z]
      < length (binaryToString (stringToBinary [8364%Z])))%nat.
Proof.
  assert (Hs : Forall (fun c => 0 <= c) [8364])
    by (repeat constructor; lia).
  assert (Hw : ~ latin1 [8364]).
  { intros Hl. inversion Hl as [|? ? Hc _]. lia. }
  destruct (single_bytes_only_roundtrip [8364] Hs) as [Hiff Hlen].
  split; [|exact (Hlen Hw)].
  intros E. apply Hw, Hiff, E.
Defined.

(** ** Tolerant extraction of an intact stego image *)

Section TolerantRoundTrip.
Context {buffer : Type} `{SharpLaws buffer}.

Lemma extractBits_tolerant_flagged (data : list Z) (L : Z) :
  readLength data = Some L ->
  (0 < length (binaryToString (bodyBits data L)))%nat ->
  (printableRatio (binaryToString (bodyBits data L)) < 7 # 10)%Q ->
  (0 < length (attemptMessageRecovery (bodyBits data L)))%nat ->
  extractBits data true
  = Ok {| message := attemptMessageRecovery (bodyBits data L);
          recoveryScore :=
            recoveryAssessment (attemptMessageRecovery (bodyBits data L));
          bitsRecovered := Z.of_nat (length (bodyBits data L));
          wasCorrupted := true |}.
Proof.
  intros Hr Hpos Hratio Hrec. unfold extractBits. rewrite Hr.
  cbv beta iota zeta delta [bind]. fold (bodyBits data L).
  rewrite (proj2 (Nat.ltb_lt _ _) Hpos). cbn [negb andb].
  assert (E : Qltb (printableRatio (binaryToString (bodyBits data L)))
                (7 # 10) = true).
  { unfold Qltb. destruct (Qle_bool _ _) eqn:Q; [|reflexivity].
    apply Qle_bool_iff in Q. lra. }
  rewrite E, (proj2 (Nat.ltb_lt _ _) Hrec). reflexivity.
Qed.

Lemma printable_ratio_one (s : jsstring) :
  printable s -> (0 < length s)%nat -> (printableRatio s == 1)%Q.
Proof.
  intros Hp Hlen. unfold printableRatio.
  rewrite (countPrintable_printable s Hp).
  unfold Qdiv. apply Qmult_inv_r.
  pose proof (ofNat_pos (length s) Hlen). lra.
Qed.

Lemma tolerant_roundtrip (cover : buffer) (data : list Z) (i : info)
    (message : jsstring) :
  ensureAlphaRaw cover = Ok (data, i) ->
  latin1 message ->
  1 <= Z.of_nat (length message) <= 10000 ->
  (128 + 8 * length message <= length data)%nat ->
  exists stego meta r,
    embedMessage cover message = Ok (stego, meta)
    /\ extractMessage stego true = Ok r
    /\ ((7 # 10 <= printableRatio message)%Q ->
        Lsb.message r = message /\ wasCorrupted r = false)
    /\ ((printableRatio message < 7 # 10)%Q ->
        Lsb.message r = attemptMessageRecovery (stringToBinary message)
        /\ wasCorrupted r = true
        /\ printable (Lsb.message r)
        /\ Lsb.message r <> message).
Proof.
  intros Hraw Hm Hlen Hfit.
  pose proof (payload_fits data message Hm Hlen Hfit) as Hp.
  destruct (embedMessage_fits cover data i message Hraw Hp)
    as (stego & meta & Hok & Hback).
  pose proof (embedded_readLength data message Hm Hlen Hfit) as Hread.
  pose proof (embedded_body data message Hm Hlen Hfit) as Hbody.
  destruct (embedded_bits data message Hm Hlen Hfit) as [_ Hbits].
  assert (Hpos : (0 < length message)%nat) by lia.
  exists stego, meta.
  destruct (Qlt_le_dec (printableRatio message) (7 # 10)) as [Hlow|Hhigh].
  - assert (Hrec : (0 < length (attemptMessageRecovery
                                  (stringToBinary message)))%nat).
    { apply attemptMessageRecovery_nonempty.
      - now apply stringToBinary_binary.
      - rewrite stringToBinary_length by assumption. lia. }
    eexists. split; [exact Hok|]. split.
    + unfold extractMessage. rewrite Hback. cbn [bind].
      apply (extractBits_tolerant_flagged _ _ Hread);
        rewrite ?Hbody, ?Hbits; assumption.
    + cbn [Lsb.message wasCorrupted]. rewrite Hbits. split.
      * intros Hge. exfalso. lra.
      * intros _. split; [reflexivity|]. split; [reflexivity|].
        split; [apply message_recovery_sound|].
        intros E.
        pose proof (message_recovery_sound (stringToBinary message)) as Hpr.
        rewrite E in Hpr.
        pose proof (printable_ratio_one message Hpr Hpos) as H1.
        rewrite H1 in Hlow. discriminate Hlow.
  - eexists. split; [exact Hok|]. split.
    + unfold extractMessage. rewrite Hback. cbn [bind].
      apply (extractBits_tolerant_clean _ _ Hread);
        rewrite ?Hbody; assumption.
    + cbn [Lsb.message wasCorrupted]. rewrite Hbody. split.
      * intros _. split; reflexivity.
      * intros Hlt. exfalso. lra.
Qed.

End TolerantRoundTrip.

(** X24.  Tolerant extraction of an untouched stego image returns the
    embedded message only when at least 70% of its characters are
    printable ASCII.  Below that share the intact message is taken for a
    corrupted one: the result is flagged, and the message returned is the
    output of the character recovery, printable and different from the
    message embedded. *)
Theorem tolerant_roundtrip_needs_printable_text {buffer : Type}
    `{SharpLaws buffer} (cover : buffer) (data : list Z) (i : info)
    (message : jsstring) :
  ensureAlphaRaw cover = Ok (data, i) ->
  latin1 message ->
  1 <= Z.of_nat (length message) <= 10000 ->
  (128 + 8 * length message <= length data)%nat ->
  exists stego meta r,
    embedMessage cover message = Ok (stego, meta)
    /\ extractMessage stego true = Ok r
    /\ ((7 # 10 <= printableRatio message)%Q ->
        Lsb.message r = message /\ wasCorrupted r = false)
    /\ ((printableRatio message < 7 # 10)%Q ->
        Lsb.message r = attemptMessageRecovery (stringToBinary message)
        /\ wasCorrupted r = true
        /\ printable (Lsb.message r)
        /\ Lsb.message r <> message).
Proof. apply tolerant_roundtrip. Qed.

Lemma tolerant_roundtrip_needs_printable_text_witness :
  exists stego meta r,
    embedMessage (repeat 255 200) [233; 233; 65] = Ok (stego, meta)
    /\ extractMessage stego true = Ok r
    /\ wasCorrupted r = true
    /\ Lsb.message r <> [233; 233; 65].
Proof.
  assert (Hraw : ensureAlphaRaw (repeat 255 200)
                 = Ok (repeat 255 200, infoOf (repeat 255 200)))
    by reflexivity.
  assert (Hm : latin1 [233; 233; 65]) by (repeat constructor; lia).
  assert (Hlen : 1 <= Z.of_nat (length [233; 233; 65]) <= 10000)
    by (cbn; lia).
  assert (Hfit : (128 + 8 * length [233; 233; 65]
                  <= length (repeat 255 200))%nat)
    by (rewrite repeat_length; cbn; lia).
  assert (Hlow : (printableRatio [233; 233; 65]%Z < 7 # 10)%Q)
    by reflexivity.
  destruct (tolerant_roundtrip_needs_printable_text _ _ _ _
              Hraw Hm Hlen Hfit)
    as (stego & meta & r & Hok & Hext & _ & Hflag).
  destruct (Hflag Hlow) as (_ & Hw & _ & Hne).
  exists stego, meta, r. repeat split; assumption.
Defined.

(** ** Bounds of the robustness score of a sample *)

Section SampleScore.
Context {buffer : Type} `{Sharp buffer}.
Variable rnd : entropy.
Variable demoText : jsstring.

Lemma addContribution_grows (total : Q) (r : Runner.stepRecord) :
  (total <= Runner.addContribution total r)%Q.
Proof.
  unfold Runner.addContribution.
  destruct (Runner.extractionSuccess r); [lra|].
  destruct (Runner.partialRecovery r); cbn [andb]; [|lra].
  unfold Qltb. destruct (Qle_bool (Runner.s_recoveryScore r) 0) eqn:E;
    cbn [negb]; [lra|].
  destruct (Qlt_le_dec 0 (Runner.s_recoveryScore r)) as [Hlt|Hle]; [lra|].
  apply Qle_bool_iff in Hle. congruence.
Qed.

Lemma tolerant_short_score (b : buffer) (ext : extraction) :
  extractMessage b true = Ok ext ->
  message ext <> []
  /\ ((length (message ext) <= 30)%nat -> (recoveryScore ext <= 1)%Q).
Proof.
  intros Hext.
  destruct (ensureAlphaRaw b) as [[data i]|e] eqn:Hraw;
    [|unfold extractMessage in Hext; rewrite Hraw in Hext; discriminate].
  destruct (tolerant_result b data i Hraw)
    as (r & Hr & Hscore & _ & Hlen & _).
  rewrite Hext in Hr. injection Hr as <-. split.
  - intros E. rewrite E in Hlen. cbn in Hlen. lia.
  - intros Hshort. rewrite Hscore. now apply recoveryAssessment_le_1.
Qed.

Lemma recorded_contribution (hidden : option jsstring)
    (t : Transforms.transform) (r : Runner.stepRecord) (total : Q) :
  recorded hidden t r ->
  (forall m, Runner.s_extractedMessage r = Runner.Text m ->
             (length m <= 30)%nat) ->
  (Runner.addContribution total r <= total + 1)%Q.
Proof.
  intros [b ->] Hshort. unfold Runner.addContribution.
  destruct (extractMessage b true) as [ext|e] eqn:Hext;
    cbn [Runner.recordStep Runner.extractionSuccess Runner.partialRecovery
         Runner.s_recoveryScore Runner.s_extractedMessage] in *.
  - destruct (bool_decide (Some (message ext) = hidden)); [lra|].
    destruct (tolerant_short_score b ext Hext) as [Hne Hle].
    destruct (message ext) as [|c m] eqn:Hm; [congruence|].
    specialize (Hshort (c :: m) eq_refl). specialize (Hle Hshort).
    destruct (_ && Qltb 0 (recoveryScore ext)); lra.
  - cbn [andb]. lra.
Qed.

Lemma totalRecoveryScore_bounds (hidden : option jsstring)
    (todo : list Transforms.transform) (steps : list Runner.stepRecord) :
  Forall2 (recorded hidden) todo steps ->
  forall total,
    (total <= fold_left Runner.addContribution steps total)%Q
    /\ ((forall t m, In t steps ->
           Runner.s_extractedMessage t = Runner.Text m ->
           (length m <= 30)%nat) ->
        (fold_left Runner.addContribution steps total
         <= total + ofNat (length steps))%Q).
Proof.
  induction 1 as [|t r todo steps Hr _ IH]; intros total.
  - cbn [fold_left length]. split; [lra|]. intros _.
    change (ofNat 0) with 0%Q. lra.
  - cbn [fold_left]. destruct (IH (Runner.addContribution total r))
      as [Hlow Hhigh].
    pose proof (addContribution_grows total r) as Hgrow.
    split; [lra|]. intros Hshort.
    assert (Hstep : (Runner.addContribution total r <= total + 1)%Q).
    { apply (recorded_contribution hidden t); [exact Hr|].
      intros m Hm. apply (Hshort r m); [left; reflexivity|exact Hm]. }
    assert (Hrest : (fold_left Runner.addContribution steps
                       (Runner.addContribution total r)
                     <= Runner.addContribution total r
                        + ofNat (length steps))%Q).
    { apply Hhigh. intros t' m Hin. apply Hshort. right. exact Hin. }
    assert (Hlen : (ofNat (length (r :: steps))
                    == ofNat (length steps) + 1)%Q).
    { unfold ofNat. cbn [length]. rewrite Nat2Z.inj_succ.
      unfold Z.succ. rewrite inject_Z_plus. reflexivity. }
    rewrite Hlen. lra.
Qed.

Lemma processSample_score_bounds (cfg : Runner.config) (i : nat)
    (image : Transforms.imageObject buffer) (k k' : nat)
    (s : Runner.sample) :
  Runner.processSample rnd demoText cfg i image k = Ok (s, k') ->
  (0 <= Runner.robustnessScore s)%Q
  /\ ((forall t m, In t (Runner.transforms s) ->
         Runner.s_extractedMessage t = Runner.Text m ->
         (length m <= 30)%nat) ->
      (Runner.robustnessScore s <= 1)%Q).
Proof.
  intros Hs.
  destruct (processSample_steps rnd demoText cfg i image k k' s Hs)
    as (_ & Hrec & ->).
  pose proof (Forall2_length _ _ _ Hrec) as Hlen.
  destruct (totalRecoveryScore_bounds _ _ _ Hrec 0%Q) as [Hlow Hhigh].
  fold (Runner.totalRecoveryScore (Runner.transforms s)) in Hlow, Hhigh.
  destruct (Nat.ltb_spec 0 (length (Runner.cfg_transforms cfg)))
    as [Hpos|Hzero]; [|split; [discriminate|intros _; apply Qle_refl]].
  pose proof (ofNat_pos _ Hpos) as Hn.
  split.
  - apply Qle_shift_div_l; [exact Hn|]. lra.
  - intros Hshort. specialize (Hhigh Hshort).
    apply Qle_shift_div_r; [exact Hn|]. rewrite Hlen. lra.
Qed.

End SampleScore.

(** X25.  The robustness score of every sample a run leaves is not
    negative, and it is at most 1 when no step of the sample recorded a
    text of more than 30 characters: a score above 1 needs a step whose
    extracted text is longer than that. *)
Theorem sample_score_bounds {buffer : Type} `{Sharp buffer}
    (rnd : entropy) (demoText : jsstring) (cfg : Runner.config)
    (dataset : result (list (Transforms.imageObject buffer))) (k : nat)
    (s : Runner.sample) :
  In s (Runner.samples
          (resultsOf (Runner.runDryRun rnd demoText cfg dataset k))) ->
  (0 <= Runner.robustnessScore s)%Q
  /\ ((forall t m, In t (Runner.transforms s) ->
         Runner.s_extractedMessage t = Runner.Text m ->
         (length m <= 30)%nat) ->
      (Runner.robustnessScore s <= 1)%Q).
Proof.
  revert s. apply (proj1 (List.Forall_forall _ _)).
  apply runDryRun_samples. intros i image k0 s k' Hs.
  exact (processSample_score_bounds rnd demoText cfg i image k0 k' s Hs).
Qed.

Lemma sample_score_bounds_witness :
  exists s,
    In s (Runner.samples
            (resultsOf
               (Runner.runDryRun still demo goodChain (Ok twoPictures) 0)))
    /\ (0 <= Runner.robustnessScore s)%Q.
Proof.
  assert (E : exists s rest,
             Runner.samples
               (resultsOf
                  (Runner.runDryRun still demo goodChain (Ok twoPictures) 0))
             = s :: rest).
  { vm_compute. eexists. eexists. reflexivity. }
  destruct E as (s & rest & E).
  assert (Hin : In s (Runner.samples
                        (resultsOf
                           (Runner.runDryRun still demo goodChain
                              (Ok twoPictures) 0))))
    by (rewrite E; left; reflexivity).
  exists s. split; [exact Hin|].
  exact (proj1 (sample_score_bounds still demo goodChain (Ok twoPictures)
                  0%nat s Hin)).
Defined.

(** ** Embedding into a stego image *)

Section EmbedAgain.
Context {buffer : Type} `{SharpLaws buffer}.

Lemma embedLoop_keeps_bytes (messageBinary : jsstring) (data : list Z) :
  Forall binaryChar messageBinary -> bytes data ->
  (length messageBinary <= length data)%nat ->
  bytes (embedLoop messageBinary data).
Proof.
  intros Hbin Hbytes Hfit. apply List.Forall_forall. intros v Hv.
  apply list_elem_of_In, list_elem_of_lookup_1 in Hv as [j Hj].
  assert (Hlt : (j < length data)%nat).
  { apply lookup_lt_Some in Hj. now rewrite embedLoop_length in Hj. }
  destruct (lookup_lt_is_Some_2 data j Hlt) as [d Hd].
  destruct (embedLoop_bytes messageBinary data Hbin Hbytes Hfit j d Hd)
    as (d' & Hd' & Hrange & _).
  rewrite Hd' in Hj. injection Hj as <-. exact Hrange.
Qed.

Lemma embedLoop_idempotent (messageBinary : jsstring) (data : list Z) :
  Forall binaryChar messageBinary -> bytes data ->
  (length messageBinary <= length data)%nat ->
  embedLoop messageBinary (embedLoop messageBinary data)
  = embedLoop messageBinary data.
Proof.
  intros Hbin Hbytes Hfit. apply list_eq. intros j.
  pose proof (embedLoop_keeps_bytes _ _ Hbin Hbytes Hfit) as Hbytes1.
  assert (Hfit1 : (length messageBinary
                   <= length (embedLoop messageBinary data))%nat)
    by now rewrite embedLoop_length.
  destruct (embedLoop messageBinary data !! j) as [d1|] eqn:H1.
  - destruct (embedLoop_bytes messageBinary _ Hbin Hbytes1 Hfit1 j d1 H1)
      as (d2 & H2 & R2 & Hhigh2 & Hlow2 & Hrest2).
    rewrite H2. f_equal.
    destruct (Nat.lt_ge_cases j (length messageBinary)) as [Hj|Hj];
      [|now apply Hrest2].
    assert (Hlt : (j < length data)%nat) by lia.
    destruct (lookup_lt_is_Some_2 data j Hlt) as [d Hd].
    destruct (embedLoop_bytes messageBinary data Hbin Hbytes Hfit j d Hd)
      as (d1' & H1' & R1 & _ & Hlow1 & _).
    rewrite H1 in H1'. injection H1' as <-.
    destruct (lookup_lt_is_Some_2 messageBinary j Hj) as [c Hc].
    specialize (Hlow1 c Hc). specialize (Hlow2 c Hc).
    pose proof (Z.div_mod d1 2 ltac:(lia)).
    pose proof (Z.div_mod d2 2 ltac:(lia)). lia.
  - apply lookup_ge_None. apply lookup_ge_None in H1.
    rewrite !embedLoop_length in *. exact H1.
Qed.

Lemma embed_again (cover stego1 : buffer) (data : list Z) (i : info)
    (first second : jsstring) (meta1 : embedMetadata) :
  ensureAlphaRaw cover = Ok (data, i) -> bytes data ->
  embedMessage cover first = Ok (stego1, meta1) ->
  latin1 second ->
  1 <= Z.of_nat (length second) <= 10000 ->
  (128 + 8 * length second <= length data)%nat ->
  exists stego2 meta2 r,
    embedMessage stego1 second = Ok (stego2, meta2)
    /\ extractMessage stego2 false = Ok r
    /\ message r = second
    /\ (second = first -> ensureAlphaRaw stego2 = ensureAlphaRaw stego1).
Proof.
  intros Hraw Hbytes Hok1 Hm Hlen Hfit.
  destruct (embedMessage_inv cover stego1 data i first meta1 Hraw Hok1)
    as [Hfit1 Hback1].
  assert (Hfit2 : (128 + 8 * length second
                   <= length (embedLoop (payload first) data))%nat)
    by now rewrite embedLoop_length.
  destruct (strict_roundtrip stego1 _ i second Hback1 Hm Hlen Hfit2)
    as (stego2 & meta2 & r & Hok2 & Hext & Hmsg & _).
  exists stego2, meta2, r. split; [exact Hok2|]. split; [exact Hext|].
  split; [exact Hmsg|]. intros ->.
  destruct (embedMessage_inv stego1 stego2 _ i first meta2 Hback1 Hok2)
    as [_ Hback2].
  rewrite Hback2, Hback1. do 2 f_equal.
  assert (Hmax : Z.of_nat (length first) <= maxStringLength)
    by (unfold maxStringLength; lia).
  destruct (payload_spec first Hm Hmax) as (_ & _ & _ & Hbin).
  now apply embedLoop_idempotent.
Qed.

End EmbedAgain.

(** X26.  Embedding into an image that already carries a message: the
    new message replaces the old one (strict extraction returns the second
    message, whatever the first was), anything that fitted the cover fits
    the stego image, and embedding the same message twice leaves the raw
    bytes of the stego image unchanged. *)
Theorem embedding_again_overwrites {buffer : Type} `{SharpLaws buffer}
    (cover stego1 : buffer) (data : list Z) (i : info)
    (first second : jsstring) (meta1 : embedMetadata) :
  ensureAlphaRaw cover = Ok (data, i) -> bytes data ->
  embedMessage cover first = Ok (stego1, meta1) ->
  latin1 second ->
  1 <= Z.of_nat (length second) <= 10000 ->
  (128 + 8 * length second <= length data)%nat ->
  exists stego2 meta2 r,
    embedMessage stego1 second = Ok (stego2, meta2)
    /\ extractMessage stego2 false = Ok r
    /\ message r = second
    /\ (second = first -> ensureAlphaRaw stego2 = ensureAlphaRaw stego1).
Proof. apply embed_again. Qed.

Lemma embedding_again_overwrites_witness :
  exists stego1 meta1 stego2 meta2 r,
    embedMessage (repeat 255 200) hello = Ok (stego1, meta1)
    /\ embedMessage stego1 demo = Ok (stego2, meta2)
    /\ extractMessage stego2 false = Ok r
    /\ message r = demo.
Proof.
  assert (Hraw : ensureAlphaRaw (repeat 255 200)
                 = Ok (repeat 255 200, infoOf (repeat 255 200)))
    by reflexivity.
  assert (Hbytes : bytes (repeat 255 200)).
  { apply List.Forall_forall. intros x Hx. apply repeat_spec in Hx. lia. }
  assert (Hok : exists stego1 meta1,
             embedMessage (repeat 255 200) hello = Ok (stego1, meta1)).
  { eexists. eexists. vm_compute. reflexivity. }
  destruct Hok as (stego1 & meta1 & Hok).
  assert (Hm : latin1 demo) by (repeat constructor; lia).
  assert (Hlen : 1 <= Z.of_nat (length demo) <= 10000) by (cbn; lia).
  assert (Hfit : (128 + 8 * length demo <= length (repeat 255 200))%nat)
    by (rewrite repeat_length; cbn; lia).
  destruct (embedding_again_overwrites _ _ _ _ hello demo _
              Hraw Hbytes Hok Hm Hlen Hfit)
    as (stego2 & meta2 & r & Hok2 & Hext & Hmsg & _).
  exists stego1, meta1, stego2, meta2, r. repeat split; assumption.
Defined.

(** ** Extraction reads least significant bits only *)

Section LowBits.

Variables data1 data2 : list Z.
Hypothesis same_bits :
  map (fun v => Z.land v 1) data1 = map (fun v => Z.land v 1) data2.

Lemma same_length : length data1 = length data2.
Proof.
  apply (f_equal (@length _)) in same_bits.
  now rewrite !length_map in same_bits.
Qed.

Lemma same_lsbChar (j : nat) : lsbChar data1 j = lsbChar data2 j.
Proof.
  pose proof (f_equal (fun l => l !! j) same_bits) as Hj. cbv beta in Hj.
  rewrite !list_lookup_fmap in Hj. unfold lsbChar, andByte.
  destruct (data1 !! j) as [v1|], (data2 !! j) as [v2|];
    try discriminate; [|reflexivity].
  cbn in Hj |- *. injection Hj as ->. reflexivity.
Qed.

Lemma same_bit_strings (l : list nat) :
  map (lsbChar data1) l = map (lsbChar data2) l.
Proof. apply map_ext. intros j. apply same_lsbChar. Qed.

Lemma same_recoveryBits (charIdx todo bitIdx : nat) :
  recoveryBits data1 charIdx todo bitIdx
  = recoveryBits data2 charIdx todo bitIdx.
Proof.
  revert bitIdx. induction todo as [|todo IH]; intros bitIdx; [reflexivity|].
  cbn [recoveryBits]. rewrite same_length, same_lsbChar, IH. reflexivity.
Qed.

Lemma same_recoveryCount (todo charIdx printableCount : nat) :
  recoveryCount data1 todo charIdx printableCount
  = recoveryCount data2 todo charIdx printableCount.
Proof.
  revert charIdx printableCount.
  induction todo as [|todo IH]; intros charIdx printableCount;
    [reflexivity|].
  cbn [recoveryCount]. rewrite same_length, same_recoveryBits.
  destruct (_ <=? _)%nat; [|reflexivity]. apply IH.
Qed.

Lemma same_lengthRecovery :
  attemptLengthRecovery data1 = attemptLengthRecovery data2.
Proof.
  unfold attemptLengthRecovery. f_equal.
  generalize (seq 1 100). generalize (10, (-1)%Q).
  intros best l. revert best.
  induction l as [|n l IH]; intros best; [reflexivity|].
  cbn [fold_left]. rewrite IH. f_equal.
  unfold lengthRecoveryStep. rewrite same_recoveryCount. reflexivity.
Qed.

Lemma same_readLength : readLength data1 = readLength data2.
Proof. unfold readLength. rewrite same_bit_strings. reflexivity. Qed.

Lemma same_extractBits (tolerance : bool) :
  extractBits data1 tolerance = extractBits data2 tolerance.
Proof.
  unfold extractBits. rewrite same_readLength, same_lengthRecovery.
  destruct (match readLength data2 with
            | Some n => Ok n
            | None =>
                if tolerance then Ok (attemptLengthRecovery data2)
                else Throw InvalidLength
            end) as [messageLength|e]; [|reflexivity].
  cbv beta iota zeta delta [bind].
  rewrite !same_bit_strings. reflexivity.
Qed.

End LowBits.

(** X27.  What [extractMessage] reads depends on the least significant
    bits of the raw bytes only: on two images whose decoded buffers agree
    on every lowest bit it throws the same error, or returns the same
    [message], [recoveryScore], [bitsRecovered] and [wasCorrupted], in
    either mode, whatever the other seven bits of each byte are.  (The
    encoded size it also reports is that of the buffer it was given.) *)
Theorem extraction_reads_low_bits_only {buffer : Type} `{Sharp buffer}
    (image1 image2 : buffer) (data1 data2 : list Z) (i1 i2 : info)
    (tolerance : bool) :
  ensureAlphaRaw image1 = Ok (data1, i1) ->
  ensureAlphaRaw image2 = Ok (data2, i2) ->
  map (fun v => Z.land v 1) data1 = map (fun v => Z.land v 1) data2 ->
  match extractMessage image1 tolerance, extractMessage image2 tolerance with
  | Ok r1, Ok r2 =>
      message r1 = message r2
      /\ recoveryScore r1 = recoveryScore r2
      /\ bitsRecovered r1 = bitsRecovered r2
      /\ wasCorrupted r1 = wasCorrupted r2
  | Throw e1, Throw e2 => e1 = e2
  | _, _ => False
  end.
Proof.
  intros H1 H2 Hbits. unfold extractMessage. rewrite H1, H2.
  cbn [bind]. rewrite (same_extractBits data1 data2 Hbits tolerance).
  destruct (extractBits data2 tolerance); repeat split.
Qed.

Lemma extraction_reads_low_bits_only_witness :
  match extractMessage (repeat 255 200) true,
        extractMessage (repeat 1 200) true with
  | Ok r1, Ok r2 =>
      message r1 = message r2
      /\ recoveryScore r1 = recoveryScore r2
      /\ bitsRecovered r1 = bitsRecovered r2
      /\ wasCorrupted r1 = wasCorrupted r2
  | Throw e1, Throw e2 => e1 = e2
  | _, _ => False
  end.
Proof.
  assert (H1 : ensureAlphaRaw (repeat 255 200)
               = Ok (repeat 255 200, infoOf (repeat 255 200)))
    by reflexivity.
  assert (H2 : ensureAlphaRaw (repeat 1 200)
               = Ok (repeat 1 200, infoOf (repeat 1 200)))
    by reflexivity.
  assert (Hbits : map (fun v => Z.land v 1) (repeat 255 200)
                  = map (fun v => Z.land v 1) (repeat 1 200))
    by (vm_compute; reflexivity).
  exact (extraction_reads_low_bits_only _ _ _ _ _ _ true H1 H2 Hbits).
Defined.

(** ** A chain of transforms that the dispatcher does not know *)

Section UnrecognisedChain.
Context {buffer : Type} `{SharpLaws buffer}.
Variable rnd : entropy.
Variable demoText : jsstring.

Lemma applyTransform_unrecognised (image : Transforms.imageObject buffer)
    (t : Transforms.transform) (k : nat) (data : list Z) (i : info) :
  (forall (b : buffer) (k0 : nat),
      Transforms.dispatch rnd b t k0 = Ok (b, k0)) ->
  ensureAlphaRaw (Transforms.io_buffer image) = Ok (data, i) ->
  exists image',
    Transforms.applyTransform rnd image t k = Ok (image', k)
    /\ Transforms.io_buffer image' = Transforms.io_buffer image.
Proof.
  intros Hd Hraw.
  destruct (decodable_metadata _ data i Hraw) as [m Hm].
  unfold Transforms.applyTransform. rewrite Hd. cbn [bind].
  rewrite Hm. cbn [bind]. eexists. split; reflexivity.
Qed.

Lemma transformLoop_unrecognised (hidden : option jsstring)
    (todo : list Transforms.transform) (stego : buffer) (data : list Z)
    (i : info) :
  Forall (fun t => forall (b : buffer) (k0 : nat),
            Transforms.dispatch rnd b t k0 = Ok (b, k0)) todo ->
  ensureAlphaRaw stego = Ok (data, i) ->
  forall (current : Transforms.imageObject buffer)
         (pushed : list Runner.stepRecord) (k : nat),
    Transforms.io_buffer current = stego ->
    Runner.transformLoop rnd hidden todo current pushed k
    = Ok (pushed
          ++ map (fun t =>
                    Runner.recordStep hidden t (extractMessage stego true))
               todo, k).
Proof.
  intros Hall Hraw.
  induction Hall as [|t todo Ht _ IH]; intros current pushed k Hcur.
  - cbn. now rewrite app_nil_r.
  - cbn [Runner.transformLoop map].
    rewrite <- Hcur in Hraw.
    destruct (applyTransform_unrecognised current t k data i Ht Hraw)
      as (image' & -> & Hbuf).
    cbn [bind]. rewrite Hbuf, Hcur.
    rewrite (IH image' _ k (eq_trans Hbuf Hcur)).
    now rewrite <- app_assoc.
Qed.

Lemma all_intact_total (steps : list Runner.stepRecord) (total : Q) :
  Forall (fun t => Runner.extractionSuccess t = true) steps ->
  (fold_left Runner.addContribution steps total
   == total + ofNat (length steps))%Q.
Proof.
  intros Hall. revert total.
  induction Hall as [|t steps Ht _ IH]; intros total.
  - cbn [fold_left length]. change (ofNat 0) with 0%Q. ring.
  - cbn [fold_left]. rewrite IH. unfold Runner.addContribution.
    rewrite Ht.
    assert (Hlen : (ofNat (length (t :: steps))
                    == ofNat (length steps) + 1)%Q).
    { unfold ofNat. cbn [length]. rewrite Nat2Z.inj_succ.
      unfold Z.succ. rewrite inject_Z_plus. reflexivity. }
    rewrite Hlen. ring.
Qed.

Lemma last_of_all (P : Runner.stepRecord -> Prop)
    (steps : list Runner.stepRecord) (l : Runner.stepRecord) :
  Forall P steps -> last steps = Some l -> P l.
Proof.
  intros Hall Hlast. apply last_Some in Hlast as [front ->].
  apply Forall_app in Hall as [_ Hl]. now inversion Hl.
Qed.

Lemma processSample_unrecognised (cfg : Runner.config) (i : nat)
    (image : Transforms.imageObject buffer) (rawData data : list Z)
    (ri info0 : info) (k : nat) :
  let message := Runner.orMessage (Runner.cfg_message cfg) demoText in
  raw (Transforms.io_buffer image) = Ok (rawData, ri) ->
  ensureAlphaRaw (Transforms.io_buffer image) = Ok (data, info0) ->
  latin1 message ->
  1 <= Z.of_nat (length message) <= 10000 ->
  (128 + 8 * length message <= length data)%nat ->
  Forall (fun t => forall (b : buffer) (k0 : nat),
            Transforms.dispatch rnd b t k0 = Ok (b, k0))
    (Runner.cfg_transforms cfg) ->
  exists s,
    Runner.processSample rnd demoText cfg i image k = Ok (s, (k + 3)%nat)
    /\ Runner.hiddenMessage s = Some message
    /\ length (Runner.transforms s) = length (Runner.cfg_transforms cfg)
    /\ ((7 # 10 <= printableRatio message)%Q ->
        Forall (fun t => Runner.extractionSuccess t = true
                         /\ Runner.s_extractedMessage t
                            = Runner.Text message)
          (Runner.transforms s)
        /\ (Runner.robustnessScore s == 1)%Q
        /\ Runner.messageVerified s = Some true
        /\ Runner.finalMessageVerified s = true)
    /\ ((printableRatio message < 7 # 10)%Q ->
        Forall (fun t => Runner.extractionSuccess t = false
                         /\ Runner.partialRecovery t = true)
          (Runner.transforms s)
        /\ (Runner.cfg_transforms cfg <> [] ->
            Runner.messageVerified s = Some false
            /\ Runner.finalMessageVerified s = false)).
Proof.
  intros message Hraw Halpha Hm Hlen Hfit Hall.
  destruct (dryRun_verified rnd demoText image (Runner.cfg_message cfg)
              rawData data ri info0 k Hraw Halpha Hm Hlen Hfit)
    as (r & stego & meta & Hdry & Hok & _ & Hstego & Horig & _ & Hver & _).
  fold message in Hok, Horig.
  destruct (embedMessage_inv _ stego data info0 message meta Halpha Hok)
    as [_ Hback].
  destruct (tolerant_roundtrip _ data info0 message Halpha Hm Hlen Hfit)
    as (stego' & meta' & ext & Hok' & Hext & Hhigh & Hlow).
  rewrite Hok in Hok'. injection Hok' as <- <-.
  assert (Hne : exists c m, message = c :: m).
  { destruct message as [|c m]; [cbn in Hlen; lia|eauto]. }
  destruct Hne as (c & m & Hcm).
  assert (Hhidden : Runner.truthy (Some message) = Some message)
    by (rewrite Hcm; reflexivity).
  unfold Runner.processSample. rewrite Hdry, Hstego, Horig, Hhidden.
  rewrite (transformLoop_unrecognised (Some message)
             (Runner.cfg_transforms cfg) stego _ info0 Hall Hback
             {| Transforms.io_name := Transforms.io_name image;
                Transforms.io_buffer := stego |} [] (k + 3)%nat eq_refl).
  cbn [bind app]. rewrite Hext.
  set (steps := map (fun t => Runner.recordStep (Some message) t (Ok ext))
                  (Runner.cfg_transforms cfg)).
  assert (Hsteps : length steps = length (Runner.cfg_transforms cfg))
    by (unfold steps; apply length_map).
  eexists. split; [reflexivity|].
  cbn [Runner.hiddenMessage Runner.transforms Runner.robustnessScore
       Runner.messageVerified Runner.finalMessageVerified].
  split; [reflexivity|]. split; [exact Hsteps|]. split.
  - intros Hratio. destruct (Hhigh Hratio) as [Hmsg _].
    assert (Hgood : Forall (fun t => Runner.extractionSuccess t = true
                                     /\ Runner.s_extractedMessage t
                                        = Runner.Text message) steps).
    { unfold steps. apply List.Forall_map, List.Forall_forall.
      intros t _. cbn [Runner.recordStep Runner.extractionSuccess
                       Runner.s_extractedMessage].
      rewrite Hmsg, bool_decide_eq_true_2 by reflexivity.
      rewrite Hcm. split; reflexivity. }
    assert (Hgood1 : Forall (fun t => Runner.extractionSuccess t = true)
                       steps).
    { eapply List.Forall_impl; [|exact Hgood]. now intros t [Ht _]. }
    split; [exact Hgood|]. split; [|split].
    + destruct (Nat.ltb_spec 0 (length (Runner.cfg_transforms cfg)))
        as [Hpos|Hzero]; [|reflexivity].
      unfold Runner.totalRecoveryScore.
      rewrite (all_intact_total steps 0 Hgood1), Hsteps.
      pose proof (ofNat_pos _ Hpos). field. lra.
    + unfold Runner.lastStep. destruct (last steps) as [l|] eqn:Hlast.
      * now rewrite (last_of_all _ _ _ Hgood1 Hlast).
      * exact Hver.
    + unfold Runner.lastStep. destruct (last steps) as [l|] eqn:Hlast.
      * exact (last_of_all _ _ _ Hgood1 Hlast).
      * reflexivity.
  - intros Hratio. destruct (Hlow Hratio) as (_ & _ & _ & Hdiff).
    assert (Hpos : Lsb.message ext <> []).
    { destruct (tolerant_outcomes stego) as [(r' & Hr' & Hn & _)|(e & He & _)].
      - rewrite Hext in Hr'. now injection Hr' as <-.
      - rewrite Hext in He. discriminate. }
    assert (Hbad : Forall (fun t => Runner.extractionSuccess t = false
                                    /\ Runner.partialRecovery t = true)
                     steps).
    { unfold steps. apply List.Forall_map, List.Forall_forall.
      intros t _. cbn [Runner.recordStep Runner.extractionSuccess
                       Runner.partialRecovery].
      rewrite bool_decide_eq_false_2 by congruence.
      destruct (Lsb.message ext); [congruence|]. split; reflexivity. }
    split; [exact Hbad|]. intros Hchain.
    unfold Runner.lastStep. destruct (last steps) as [l|] eqn:Hlast.
    + destruct (last_of_all _ _ _ Hbad Hlast) as [-> _].
      split; reflexivity.
    + apply last_None in Hlast. rewrite Hlast in Hsteps.
      destruct (Runner.cfg_transforms cfg); [congruence|discriminate].
Qed.

End UnrecognisedChain.

(** X28.  A sample whose transforms are all unknown to the dispatcher
    (each returns its image unchanged): the stego image reaches every step
    untouched, no random draw is made beyond the three of the dry run, and
    every step is intact with a robustness score of 1 when at least 70% of
    the message is printable ASCII.  Below that share every step is
    recorded as a partial recovery of a different text, although nothing
    was changed. *)
Theorem unrecognised_transforms_keep_message {buffer : Type}
    `{SharpLaws buffer} (rnd : entropy) (demoText : jsstring)
    (cfg : Runner.config) (i : nat)
    (image : Transforms.imageObject buffer) (rawData data : list Z)
    (ri info0 : info) (k : nat) :
  let message := Runner.orMessage (Runner.cfg_message cfg) demoText in
  raw (Transforms.io_buffer image) = Ok (rawData, ri) ->
  ensureAlphaRaw (Transforms.io_buffer image) = Ok (data, info0) ->
  latin1 message ->
  1 <= Z.of_nat (length message) <= 10000 ->
  (128 + 8 * length message <= length data)%nat ->
  Forall (fun t => forall (b : buffer) (k0 : nat),
            Transforms.dispatch rnd b t k0 = Ok (b, k0))
    (Runner.cfg_transforms cfg) ->
  exists s,
    Runner.processSample rnd demoText cfg i image k = Ok (s, (k + 3)%nat)
    /\ Runner.hiddenMessage s = Some message
    /\ length (Runner.transforms s) = length (Runner.cfg_transforms cfg)
    /\ ((7 # 10 <= printableRatio message)%Q ->
        Forall (fun t => Runner.extractionSuccess t = true
                         /\ Runner.s_extractedMessage t
                            = Runner.Text message)
          (Runner.transforms s)
        /\ (Runner.robustnessScore s == 1)%Q
        /\ Runner.messageVerified s = Some true
        /\ Runner.finalMessageVerified s = true)
    /\ ((printableRatio message < 7 # 10)%Q ->
        Forall (fun t => Runner.extractionSuccess t = false
                         /\ Runner.partialRecovery t = true)
          (Runner.transforms s)
        /\ (Runner.cfg_transforms cfg <> [] ->
            Runner.messageVerified s = Some false
            /\ Runner.finalMessageVerified s = false)).
Proof. apply processSample_unrecognised. Qed.

Lemma unrecognised_transforms_keep_message_witness :
  exists s,
    Runner.processSample still demo
      {| Runner.cfg_message := Some hello;
         Runner.cfg_transforms := [step "identity" None None] |}
      0 (picture "a.png") 0
    = Ok (s, 3%nat)
    /\ Runner.hiddenMessage s = Some hello
    /\ (Runner.robustnessScore s == 1)%Q
    /\ Runner.messageVerified s = Some true.
Proof.
  assert (Hraw : raw (Transforms.io_buffer (picture "a.png"))
                 = Ok (repeat 255 200, infoOf (repeat 255 200)))
    by reflexivity.
  assert (Halpha : ensureAlphaRaw (Transforms.io_buffer (picture "a.png"))
                   = Ok (repeat 255 200, infoOf (repeat 255 200)))
    by reflexivity.
  assert (Hm : latin1 (Runner.orMessage (Some hello) demo))
    by (repeat constructor; lia).
  assert (Hlen : 1 <= Z.of_nat (length (Runner.orMessage (Some hello) demo))
                 <= 10000) by (cbn; lia).
  assert (Hfit : (128 + 8 * length (Runner.orMessage (Some hello) demo)
                  <= length (repeat 255 200))%nat)
    by (rewrite repeat_length; cbn; lia).
  assert (Hall : Forall (fun t => forall (b : list Z) (k0 : nat),
                           Transforms.dispatch still b t k0 = Ok (b, k0))
                   [step "identity" None None]).
  { constructor; [|constructor]. intros b k0. reflexivity. }
  assert (Hratio : (7 # 10
                    <= printableRatio (Runner.orMessage (Some hello) demo))%Q)
    by (vm_compute; discriminate).
  destruct (unrecognised_transforms_keep_message still demo
              {| Runner.cfg_message := Some hello;
                 Runner.cfg_transforms := [step "identity" None None] |}
              0%nat (picture "a.png") _ _ _ _ 0%nat
              Hraw Halpha Hm Hlen Hfit Hall)
    as (s & Hrun & Hh & _ & Hhigh & _).
  destruct (Hhigh Hratio) as (_ & Hscore & Hv & _).
  exists s. split; [exact Hrun|]. split; [exact Hh|].
  split; [exact Hscore|exact Hv].
Defined.
